(** * Kaizen MCP server: stdio framing and JSON-RPC dispatch

A shallow embedding of [internal/mcp]: the frame reader and writer
([readMessage], [parseContentLength], [writeMessage]), the envelope
types, the dispatch loop ([Server.Serve], [Server.handleToolCall]
and the tool handlers), the tool catalogue ([toolDefinitions]) and the
client of the backend ([newKaizenAPIClient], [kaizenAPIClient.call],
[getEnv]).

Go strings and byte slices are both sequences of bytes; they are
modelled as [list ascii].  JSON object keys, method names and tool
names are [string].  Go's [int] is the 64-bit one. *)

From Stdlib Require Import ZArith Lia List Ascii String PrimFloat Uint63 FloatOps SpecFloat.
From stdpp Require Import base option list gmap strings.
Import ListNotations.
Local Open Scope Z_scope.

Abbreviation bytes := (list ascii).

(** The bytes of a string literal. *)
Definition B (s : string) : bytes := list_ascii_of_string s.
Arguments B : simpl never.

Definition LF : ascii := "010"%char.
Definition CR : ascii := "013"%char.

(** The numeric value of a byte. *)
Definition code (c : ascii) : Z := Z.of_nat (nat_of_ascii c).

(** ** Go errors

Only the errors the transport and the serve loop build are needed.
[errWrap] is [fmt.Errorf("...: %w", err)]; [errors_Is] follows the
chain of wrapped errors as [errors.Is] does.

[runtimeFailure] is not an error value.  It stands for a [make] that
does not return: no caller sees it, the program stops there.  In the
model it travels in the place of an error up to the loop of [Serve],
which records that the program has stopped and returns nothing. *)

Inductive error :=
| io_EOF
| io_ErrUnexpectedEOF
| errEmptyMessage                              (* "received empty message" *)
| errInvalidContentLength (rawLen : bytes)     (* "invalid Content-Length value: %q" *)
| errMissingContentLength                      (* "missing Content-Length header" *)
| errMarshal (msg : string)                    (* an error of json.Marshal *)
| errWrap (prefix : string) (inner : error)
| runtimeFailure.

Fixpoint errors_Is_EOF (e : error) : bool :=
  match e with
  | io_EOF => true
  | errWrap _ inner => errors_Is_EOF inner
  | _ => false
  end.

Definition isRuntimeFailure (e : error) : bool :=
  match e with
  | runtimeFailure => true
  | _ => false
  end.

Inductive result (A : Type) :=
| Ok (a : A)
| Err (e : error).
Arguments Ok {A} a.
Arguments Err {A} e.

(** ** Package strings *)

Module GoStrings.

(** [stripPrefix p s] is [Some r] when [s = p ++ r]. *)
Fixpoint stripPrefix (p s : bytes) : option bytes :=
  match p, s with
  | [], _ => Some s
  | a :: p', b :: s' => if Ascii.eqb a b then stripPrefix p' s' else None
  | _ :: _, [] => None
  end.

Definition HasPrefix (s p : bytes) : bool :=
  match stripPrefix p s with
  | Some _ => true
  | None => false
  end.

(** The UTF-8 encodings of the runes for which [unicode.IsSpace] holds:
    tab, LF, VT, FF, CR, space, U+0085, U+00A0, U+1680, U+2000..U+200A,
    U+2028, U+2029, U+202F, U+205F, U+3000. *)
Definition spaceRunes : list bytes :=
  [ ["009"]; ["010"]; ["011"]; ["012"]; ["013"]; ["032"];
    ["194"; "133"]; ["194"; "160"];
    ["225"; "154"; "128"];
    ["226"; "128"; "128"]; ["226"; "128"; "129"]; ["226"; "128"; "130"];
    ["226"; "128"; "131"]; ["226"; "128"; "132"]; ["226"; "128"; "133"];
    ["226"; "128"; "134"]; ["226"; "128"; "135"]; ["226"; "128"; "136"];
    ["226"; "128"; "137"]; ["226"; "128"; "138"];
    ["226"; "128"; "168"]; ["226"; "128"; "169"]; ["226"; "128"; "175"];
    ["226"; "129"; "159"];
    ["227"; "128"; "128"] ]%char.

(** Drop one rune of [runes] from the front of [s], if there is one. *)
Fixpoint dropRune (runes : list bytes) (s : bytes) : option bytes :=
  match runes with
  | [] => None
  | r :: runes' =>
      match stripPrefix r s with
      | Some s' => Some s'
      | None => dropRune runes' s
      end
  end.

Fixpoint trimRunes (fuel : nat) (runes : list bytes) (s : bytes) : bytes :=
  match fuel with
  | O => s
  | S fuel' =>
      match dropRune runes s with
      | Some s' => trimRunes fuel' runes s'
      | None => s
      end
  end.

(** [strings.TrimLeftFunc(s, unicode.IsSpace)]: decoding from the
    front, a rune is a space exactly when the bytes start with its
    encoding. *)
Definition TrimLeftSpace (s : bytes) : bytes :=
  trimRunes (length s) spaceRunes s.

(** [strings.TrimRightFunc(s, unicode.IsSpace)]: decoding from the
    back ([utf8.DecodeLastRuneInString]), the last rune is a space
    exactly when the bytes end with its encoding. *)
Definition TrimRightSpace (s : bytes) : bytes :=
  rev (trimRunes (length s) (map (@rev ascii) spaceRunes) (rev s)).

(** [strings.TrimSpace]: all leading and trailing white space, as
    defined by Unicode, removed. *)
Definition TrimSpace (s : bytes) : bytes :=
  TrimRightSpace (TrimLeftSpace s).

(** [strings.TrimRight(s, cutset)] for a cutset of ASCII bytes. *)
Fixpoint TrimRight (s cutset : bytes) : bytes :=
  match s with
  | [] => []
  | c :: s' =>
      match TrimRight s' cutset with
      | [] => if bool_decide (c ∈ cutset) then [] else [c]
      | t => c :: t
      end
  end.

(** [strings.SplitN(s, sep, 2)] for a one-byte separator: the text
    before the first separator and the text after it, or [s] alone when
    the separator does not occur. *)
Fixpoint SplitN2 (s : bytes) (sep : ascii) : list bytes :=
  match s with
  | [] => [[]]
  | c :: s' =>
      if Ascii.eqb c sep then [[]; s']
      else match SplitN2 s' sep with
           | [a] => [c :: a]
           | a :: rest => (c :: a) :: rest
           | [] => []
           end
  end.

(** One step of the ASCII path of [strings.EqualFold]: equal bytes, or
    the smaller one an upper-case letter and the larger one its
    lower-case form. *)
Definition foldEq (a b : ascii) : bool :=
  let x := Z.of_nat (nat_of_ascii a) in
  let y := Z.of_nat (nat_of_ascii b) in
  let lo := Z.min x y in
  let hi := Z.max x y in
  (x =? y) || ((65 <=? lo) && (lo <=? 90) && (hi =? lo + 32)).

(** [strings.EqualFold(s, t)] when one argument is ASCII and has no
    letter with a non-ASCII case variant ('k', 's'): the comparison is
    then byte by byte.  The only call in the program has
    ["Content-Length"] as [t]. *)
Fixpoint EqualFold (s t : bytes) : bool :=
  match s, t with
  | [], [] => true
  | a :: s', b :: t' => foldEq a b && EqualFold s' t'
  | _, _ => false
  end.

End GoStrings.

(** ** Package strconv *)

Module GoStrconv.

Definition maxInt : Z := 2 ^ 63 - 1.
Definition minInt : Z := - 2 ^ 63.

Definition digitVal (c : ascii) : option Z :=
  let x := Z.of_nat (nat_of_ascii c) in
  if (48 <=? x) && (x <=? 57) then Some (x - 48) else None.

(** The digit loop of [ParseUint]: [acc*10 + d] for each digit, an
    error on any other byte. *)
Fixpoint parseDigits (acc : Z) (s : bytes) : option Z :=
  match s with
  | [] => Some acc
  | c :: s' =>
      match digitVal c with
      | Some d => parseDigits (acc * 10 + d) s'
      | None => None
      end
  end.

(** [strconv.Atoi]: an optional sign, at least one decimal digit,
    nothing else; an error when the value does not fit an [int]. *)
Definition Atoi (s : bytes) : option Z :=
  let '(neg, ds) :=
    match s with
    | c :: r =>
        if Ascii.eqb c "-" then (true, r)
        else if Ascii.eqb c "+" then (false, r)
        else (false, s)
    | [] => (false, s)
    end in
  match ds with
  | [] => None
  | _ =>
      match parseDigits 0 ds with
      | None => None
      | Some u =>
          let v := if neg then - u else u in
          if (minInt <=? v) && (v <=? maxInt) then Some v else None
      end
  end.

Definition digitChar (d : Z) : ascii := ascii_of_nat (Z.to_nat (48 + d)).

Fixpoint digitsOf (fuel : nat) (n : Z) (acc : bytes) : bytes :=
  match fuel with
  | O => acc
  | S fuel' =>
      let acc' := digitChar (n mod 10) :: acc in
      if n <? 10 then acc' else digitsOf fuel' (n / 10) acc'
  end.

(** [strconv.Itoa], also what the verb [%d] prints. *)
Definition Itoa (n : Z) : bytes :=
  if n <? 0 then "-"%char :: digitsOf (S (Z.to_nat (Z.log2 (- n)))) (- n) []
  else digitsOf (S (Z.to_nat (Z.log2 n))) n [].

End GoStrconv.

(** ** Packages bufio and io, over an input that is a finite sequence
    of bytes.  Each read returns what is left of the input.  The input
    ends with [io.EOF]: a reader that fails in another way is outside
    the model. *)

Module GoIO.

(** [bufio.Reader.ReadString(delim)]: the bytes up to and including
    the first [delim]; at the end of the input, the bytes read so far
    and [io.EOF]. *)
Fixpoint ReadString (delim : ascii) (input : bytes)
  : bytes * option error * bytes :=
  match input with
  | [] => ([], Some io_EOF, [])
  | c :: rest =>
      if Ascii.eqb c delim then ([c], None, rest)
      else let '(line, err, rest') := ReadString delim rest in
           (c :: line, err, rest')
  end.

(** [io.ReadFull(reader, buf)] with [len(buf) = n]: exactly [n] bytes,
    [io.EOF] when none could be read, [io.ErrUnexpectedEOF] when the
    input ended after some but not all. *)
Definition ReadFull (n : nat) (input : bytes) : result bytes * bytes :=
  if decide (n ≤ length input)%nat then (Ok (take n input), drop n input)
  else match input with
       | [] => (Err io_EOF, [])
       | _ => (Err io_ErrUnexpectedEOF, [])
       end.

End GoIO.

Import GoStrings GoStrconv GoIO.

(** ** transport.go *)

(** [parseContentLength]: the first header whose name is Content-Length
    decides; a header without a colon or with another name is passed
    over. *)
Fixpoint parseContentLength (headers : list bytes) : result Z :=
  match headers with
  | [] => Err errMissingContentLength
  | header :: headers' =>
      match SplitN2 header ":" with
      | [name; val] =>
          if negb (EqualFold (TrimSpace name) (B "Content-Length"))
          then parseContentLength headers'
          else
            let rawLen := TrimSpace val in
            match Atoi rawLen with
            | Some length =>
                if length <=? 0 then Err (errInvalidContentLength rawLen)
                else Ok length
            | None => Err (errInvalidContentLength rawLen)
            end
      | _ => parseContentLength headers'
      end
  end.

(** The [for] loop of [readMessage] that collects header lines up to the
    empty line.  Every line read holds at least its line feed, so
    [length input] rounds are enough ([readHeaders_fuel] below). *)
Fixpoint readHeaders (fuel : nat) (headers : list bytes) (input : bytes)
  : result (list bytes) * bytes :=
  match ReadString LF input with
  | (_, Some e, rest) => (Err e, rest)
  | (line, None, rest) =>
      let clean := TrimRight line [CR; LF] in
      match clean with
      | [] => (Ok headers, rest)
      | _ =>
          match fuel with
          | O => (Err io_EOF, rest)
          | S fuel' => readHeaders fuel' (headers ++ [clean]) rest
          end
      end
  end.

(** The Go runtime enters by its allocator.  [make([]byte, n)] returns
    when [allocates n] holds.  When it does not, the program stops at
    the [make]: with the panic "makeslice: len out of range" when [n] is
    more than the runtime can address, with the fatal error "out of
    memory" when the system does not have that much. *)
Class Runtime := {
  allocates : Z -> bool
}.

Section Transport.

Context {rt0 : Runtime}.

(** [readMessage]: one frame from the input, and the input left. *)
Definition readMessage (input : bytes) : result bytes * bytes :=
  match ReadString LF input with
  | (firstLine, Some e, rest) =>
      let trimmed := TrimSpace firstLine in
      match trimmed with
      | [] => (Err io_EOF, rest)
      | _ =>
          if HasPrefix trimmed (B "{") then (Ok trimmed, rest)
          else (Err e, rest)
      end
  | (firstLine, None, rest) =>
      let trimmed := TrimSpace firstLine in
      match trimmed with
      | [] => (Err errEmptyMessage, rest)
      | _ =>
          if HasPrefix trimmed (B "{") then (Ok trimmed, rest)
          else
            match readHeaders (length rest) [TrimRight firstLine [CR; LF]] rest with
            | (Err e, rest') => (Err e, rest')
            | (Ok headers, rest') =>
                match parseContentLength headers with
                | Err e => (Err e, rest')
                | Ok length =>
                    if allocates length then
                      match ReadFull (Z.to_nat length) rest' with
                      | (Ok payload, rest'') => (Ok payload, rest'')
                      | (Err e, rest'') =>
                          (Err (errWrap "failed to read payload" e), rest'')
                      end
                    else (Err runtimeFailure, rest')
                end
            end
      end
  end.

End Transport.

(** The bytes [writeMessage] sends for an encoded response:
    [fmt.Fprintf(writer, "Content-Length: %d\r\n\r\n", len(payload))]
    and then the payload. *)
Definition frame (payload : bytes) : bytes :=
  B "Content-Length: " ++ Itoa (Z.of_nat (length payload))
    ++ [CR; LF; CR; LF] ++ payload.

(** * types.go *)

(** Go's [float64], the type [json.Unmarshal] gives to a JSON number
    that it stores in an [interface{}]. *)
Definition float64 : Set := PrimFloat.float.

(** What an [interface{}] holds in this program: [nil], or a value
    built from booleans, numbers, strings, slices and string-keyed
    maps. *)
#[warnings="-register-all"]
Inductive value :=
| VNil
| VBool (b : bool)
| VNumber (x : float64)
| VString (s : string)
| VSlice (l : list value)
| VMap (m : gmap string value).

(** [json.RawMessage] fields are the bytes of the member's value as they
    stand in the message: an absent member leaves the field [nil], of
    length 0; a member whose value is [null] leaves the four bytes
    [null].  Field names carry the name of their struct. *)
Record jsonRPCRequest := {
  req_JSONRPC : string;
  req_ID : bytes;
  req_Method : string;
  req_Params : bytes
}.

Record jsonRPCError := {
  err_Code : Z;
  err_Message : string;
  err_Data : value
}.

Record jsonRPCResponse := {
  resp_JSONRPC : string;
  resp_ID : value;
  resp_Result : value;
  resp_Error : option jsonRPCError
}.

Record toolDefinition := {
  tool_Name : string;
  tool_Description : string;
  tool_InputSchema : gmap string value
}.

Record toolsCallParams := {
  params_Name : string;
  params_Arguments : gmap string value
}.

(** ** The JSON object [json.Marshal] writes for a response

The struct tags decide which members are written: [jsonrpc] always,
[id], [result], [error] and the error's [data] only when the field
is not [nil] ([omitempty]).  Read back into the struct, an absent
member leaves the field [nil]. *)

Record wireError := {
  w_code : Z;
  w_message : string;
  w_data : option value
}.

Record wireResponse := {
  w_jsonrpc : string;
  w_id : option value;
  w_result : option value;
  w_error : option wireError
}.

Definition omitempty (v : value) : option value :=
  match v with
  | VNil => None
  | _ => Some v
  end.

Definition errorWire (e : jsonRPCError) : wireError :=
  {| w_code := err_Code e;
     w_message := err_Message e;
     w_data := omitempty (err_Data e) |}.

Definition responseWire (r : jsonRPCResponse) : wireResponse :=
  {| w_jsonrpc := resp_JSONRPC r;
     w_id := omitempty (resp_ID r);
     w_result := omitempty (resp_Result r);
     w_error := errorWire <$> resp_Error r |}.

Definition orNil (o : option value) : value := default VNil o.

Definition errorOfWire (w : wireError) : jsonRPCError :=
  {| err_Code := w_code w;
     err_Message := w_message w;
     err_Data := orNil (w_data w) |}.

Definition responseOfWire (w : wireResponse) : jsonRPCResponse :=
  {| resp_JSONRPC := w_jsonrpc w;
     resp_ID := orNil (w_id w);
     resp_Result := orNil (w_result w);
     resp_Error := errorOfWire <$> w_error w |}.

(** ** The backend *)

(** One call of [kaizenAPIClient.call]: the verb, the path and the
    request body ([None] for the [nil] payload of the GET calls). *)
Record apiCall := {
  call_method : string;
  call_path : string;
  call_payload : option (gmap string value)
}.

(** What a tool handler returns, [(map[string]interface{}, error)]: the
    decoded answer, or the text [err.Error()] of the error. *)
Inductive callResult :=
| CallOk (data : gmap string value)
| CallErr (msg : string).

(** Handlers run against the log of the backend calls made so far. *)
Definition M (A : Type) : Type := list apiCall -> A * list apiCall.

Definition ret {A : Type} (a : A) : M A := fun log => (a, log).

Definition bind {A C : Type} (m : M A) (k : A -> M C) : M C :=
  fun log => let '(a, log') := m log in k a log'.

Definition dquote : ascii := "034"%char.

(** One member of a JSON object, and an object, as [json.Marshal] lays
    them out: no white space, members in the order of the struct
    fields. *)
Definition member (name : string) (v : bytes) : bytes :=
  dquote :: B name ++ dquote :: ":"%char :: v.

Fixpoint joinComma (ms : list bytes) : bytes :=
  match ms with
  | [] => []
  | [m] => m
  | m :: ms' => m ++ ","%char :: joinComma ms'
  end.

Definition object (ms : list bytes) : bytes :=
  "{"%char :: joinComma ms ++ ["}"%char].

Definition andThen {A C : Type} (r : result A) (k : A -> result C) : result C :=
  match r with
  | Ok a => k a
  | Err e => Err e
  end.

(** * tools.go: the catalogue *)

Definition stringList (l : list string) : value := VSlice (map VString l).

Definition typed (t : string) : value := VMap {[ "type" := VString t ]}.

Definition schema (properties : gmap string value) (required : option (list string))
  : gmap string value :=
  let base : gmap string value :=
    {[ "type" := VString "object";
       "properties" := VMap properties;
       "additionalProperties" := VBool false ]} in
  match required with
  | Some names => <["required" := stringList names]> base
  | None => base
  end.

Definition toolDefinitions : list toolDefinition :=
  [ {| tool_Name := "akuma.query";
       tool_Description :=
         "Translate natural language into SQL (optionally returning rows or explanation).";
       tool_InputSchema :=
         schema {[ "dialect" := VMap {[ "type" := VString "string";
                                        "enum" := stringList ["postgres"; "mysql";
                                                           "snowflake"; "bigquery"] ]};
                   "prompt" := typed "string";
                   "mode" := VMap {[ "type" := VString "string";
                                     "enum" := stringList ["sql-only"; "sql-and-results";
                                                        "explain"] ]};
                   "maxRows" := typed "number";
                   "guardrails" := typed "object" ]}
                (Some ["dialect"; "prompt"]%string) |};
    {| tool_Name := "akuma.explain";
       tool_Description := "Explain a SQL query in plain English.";
       tool_InputSchema := schema {[ "sql" := typed "string" ]} (Some ["sql"%string]) |};
    {| tool_Name := "akuma.schema";
       tool_Description := "Set Akuma schema context used for query generation.";
       tool_InputSchema :=
         schema {[ "version" := typed "string";
                   "tables" := VMap {[ "type" := VString "array";
                                       "items" := typed "object" ]} ]}
                (Some ["tables"%string]) |};
    {| tool_Name := "enzan.summary";
       tool_Description := "Summarize GPU spend and usage for a time window.";
       tool_InputSchema :=
         schema {[ "window" := VMap {[ "type" := VString "string";
                                       "enum" := stringList ["1h"; "24h"; "7d"; "30d"] ]};
                   "groupBy" := VMap {[ "type" := VString "array";
                                        "items" := typed "string" ]} ]}
                None |};
    {| tool_Name := "enzan.burn";
       tool_Description := "Get current burn rate in USD/hour.";
       tool_InputSchema := schema ∅ None |};
    {| tool_Name := "sozo.generate";
       tool_Description :=
         "Generate synthetic tabular data from a schema or named preset.";
       tool_InputSchema :=
         schema {[ "records" := typed "number";
                   "schemaName" := typed "string";
                   "schema" := typed "object";
                   "correlations" := typed "object";
                   "seed" := typed "number" ]}
                (Some ["records"%string]) |};
    {| tool_Name := "sozo.schemas";
       tool_Description := "List built-in Sozo schema presets.";
       tool_InputSchema := schema ∅ None |} ].

(** A tool definition as the value [json.Marshal] writes for it. *)
Definition toolValue (t : toolDefinition) : value :=
  VMap {[ "name" := VString (tool_Name t);
          "description" := VString (tool_Description t);
          "inputSchema" := VMap (tool_InputSchema t) ]}.

(** * server.go and transport.go over a JSON codec

    [encoding/json] and the HTTP client are outside the program.  They
    enter as an environment: the decoders at the three types the server
    decodes into, the encoder of a value held in an [interface{}], the
    indenting encoder, the decoder of a response object, and the
    backend, whose answer may depend on the calls made before. *)

Class Env := {
  (** [json.Unmarshal(payload, &req)]; [None] when it returns an error. *)
  unmarshalRequest : bytes -> option jsonRPCRequest;
  (** [json.Unmarshal(raw, &id)] with [id] an [interface{}]. *)
  unmarshalValue : bytes -> option value;
  (** [json.Unmarshal(raw, &params)]: the text of the error, or the
      decoded parameters. *)
  unmarshalToolsCallParams : bytes -> string + toolsCallParams;
  (** [json.Marshal] of a value held in an [interface{}]. *)
  marshalValue : value -> result bytes;
  (** [string(pretty)] after [json.MarshalIndent(data, "", "  ")]. *)
  marshalIndent : gmap string value -> string;
  (** The members [json.Unmarshal] finds in the text of a response. *)
  unmarshalWire : bytes -> option wireResponse;
  (** The outcome of [kaizenAPIClient.call], given the calls before it. *)
  backend : list apiCall -> apiCall -> callResult
}.

Section Server.

Context {rt0 : Runtime} {env0 : Env}.

(** ** Encoding a response *)

(** A member that is written only when its value is there: its name
    and its encoded value. *)
Definition optional (name : string) (o : option value)
  : result (list (string * bytes)) :=
  match o with
  | None => Ok []
  | Some v => andThen (marshalValue v) (fun b => Ok [(name, b)])
  end.

Definition renderObject (fields : list (string * bytes)) : bytes :=
  object (map (fun f => member f.1 f.2) fields).

Definition errorFields (w : wireError) : result (list (string * bytes)) :=
  andThen (marshalValue (VString (w_message w))) (fun msg =>
  andThen (optional "data" (w_data w)) (fun data =>
  Ok ([("code", Itoa (w_code w)); ("message", msg)]%string ++ data))).

(** The members of the encoded response, in order. *)
Definition responseFields (w : wireResponse) : result (list (string * bytes)) :=
  andThen (marshalValue (VString (w_jsonrpc w))) (fun ver =>
  andThen (optional "id" (w_id w)) (fun id =>
  andThen (optional "result" (w_result w)) (fun res =>
  andThen (match w_error w with
           | None => Ok []
           | Some we =>
               andThen (errorFields we) (fun fs => Ok [("error"%string, renderObject fs)])
           end) (fun err =>
  Ok (("jsonrpc"%string, ver) :: id ++ res ++ err))))).

Definition renderResponse (w : wireResponse) : result bytes :=
  andThen (responseFields w) (fun fs => Ok (renderObject fs)).

(** [json.Marshal(response)]. *)
Definition Marshal (response : jsonRPCResponse) : result bytes :=
  renderResponse (responseWire response).

(** [json.Unmarshal(payload, &response)]. *)
Definition unmarshalResponse (payload : bytes) : option jsonRPCResponse :=
  responseOfWire <$> unmarshalWire payload.

(** [writeMessage]: the bytes that reach the output once the writer is
    flushed, or the error of [json.Marshal].  Writing to the output
    itself does not fail here. *)
Definition writeMessage (response : jsonRPCResponse) : result bytes :=
  match Marshal response with
  | Err e => Err e
  | Ok payload => Ok (frame payload)
  end.

(** ** The tool handlers *)

(** [kaizenAPIClient.call(ctx, method, path, payload)]: the call is
    logged and the backend decides its outcome (which covers a missing
    API key, a transport failure, a status of 400 or more and the
    deadline of the context). *)
Definition client_call (method path : string)
           (payload : option (gmap string value)) : M callResult :=
  fun log =>
    let c := {| call_method := method; call_path := path; call_payload := payload |} in
    (backend log c, log ++ [c]).

(** [v, _ := args[key].(string)]: the string, or [""] when the key is
    absent or holds something else. *)
Definition stringArg (args : gmap string value) (key : string) : string :=
  match args !! key with
  | Some (VString s) => s
  | _ => ""
  end.

(** [strings.TrimSpace(s) == ""]. *)
Definition isBlankString (s : string) : bool :=
  match TrimSpace (B s) with
  | [] => true
  | _ => false
  end.

(** [if v, ok := args[key]; ok { payload[key] = v }]. *)
Definition copyArg (args : gmap string value) (key : string)
           (payload : gmap string value) : gmap string value :=
  match args !! key with
  | Some v => <[key := v]> payload
  | None => payload
  end.

Definition callAkumaQuery (args : gmap string value) : M callResult :=
  let dialect := stringArg args "dialect" in
  let prompt := stringArg args "prompt" in
  if isBlankString dialect then ret (CallErr "dialect is required")
  else if isBlankString prompt then ret (CallErr "prompt is required")
  else
    let payload : gmap string value :=
      {[ "dialect" := VString dialect; "prompt" := VString prompt ]} in
    let payload := copyArg args "mode" payload in
    let payload := copyArg args "maxRows" payload in
    let payload := copyArg args "guardrails" payload in
    client_call "POST" "/v1/akuma/query" (Some payload).

Definition callAkumaExplain (args : gmap string value) : M callResult :=
  let sql := stringArg args "sql" in
  if isBlankString sql then ret (CallErr "sql is required")
  else client_call "POST" "/v1/akuma/explain" (Some {[ "sql" := VString sql ]}).

Definition callAkumaSchema (args : gmap string value) : M callResult :=
  match args !! "tables" with
  | None => ret (CallErr "tables is required")
  | Some tables =>
      let payload : gmap string value := {[ "tables" := tables ]} in
      let payload := copyArg args "version" payload in
      client_call "POST" "/v1/akuma/schema" (Some payload)
  end.

Definition callEnzanSummary (args : gmap string value) : M callResult :=
  let payload : gmap string value := {[ "window" := VString "24h" ]} in
  let payload := copyArg args "window" payload in
  let payload := copyArg args "groupBy" payload in
  client_call "POST" "/v1/enzan/summary" (Some payload).

Definition callSozoGenerate (args : gmap string value) : M callResult :=
  match args !! "records" with
  | None => ret (CallErr "records is required")
  | Some records =>
      match args !! "schema", args !! "schemaName" with
      | None, None => ret (CallErr "schema or schemaName is required")
      | _, _ =>
          let payload : gmap string value := {[ "records" := records ]} in
          let payload :=
            fold_left (fun p key => copyArg args key p)
                      ["schema"; "schemaName"; "correlations"; "seed"]%string payload in
          client_call "POST" "/v1/sozo/generate" (Some payload)
      end
  end.

(** ** [handleToolCall] *)

Definition textContent (text : string) : value :=
  VSlice [VMap {[ "type" := VString "text"; "text" := VString text ]}].

(** The tail of [handleToolCall]: a failed call becomes a result with
    the failure flag, a successful one a result with both renderings of
    the data.  Neither is an RPC error. *)
Definition toolResult (r : callResult) : value * option jsonRPCError :=
  match r with
  | CallErr msg =>
      (VMap {[ "content" := textContent msg; "isError" := VBool true ]}, None)
  | CallOk data =>
      (VMap {[ "content" := textContent (marshalIndent data);
               "structuredContent" := VMap data ]}, None)
  end.

Definition rpcError (c : Z) (message : string) (data : value) : jsonRPCError :=
  {| err_Code := c; err_Message := message; err_Data := data |}.

Definition handleToolCall (raw : bytes) : M (value * option jsonRPCError) :=
  match unmarshalToolsCallParams raw with
  | inl msg =>
      ret (VNil, Some (rpcError (-32602) "invalid tool call params" (VString msg)))
  | inr params =>
      let name := params_Name params in
      let args := params_Arguments params in
      let finish (h : M callResult) := bind h (fun r => ret (toolResult r)) in
      if String.eqb name "akuma.query" then finish (callAkumaQuery args)
      else if String.eqb name "akuma.explain" then finish (callAkumaExplain args)
      else if String.eqb name "akuma.schema" then finish (callAkumaSchema args)
      else if String.eqb name "enzan.summary" then finish (callEnzanSummary args)
      else if String.eqb name "enzan.burn" then
        finish (client_call "GET" "/v1/enzan/burn" None)
      else if String.eqb name "sozo.generate" then finish (callSozoGenerate args)
      else if String.eqb name "sozo.schemas" then
        finish (client_call "GET" "/v1/sozo/schemas" None)
      else ret (VNil, Some (rpcError (-32602) "unknown tool" (VString name)))
  end.

(** ** [Serve] *)

Definition protocol : string := "2024-11-05".
Definition serverName : string := "kaizen-mcp".
Definition serverVersion : string := "1.0.0".

Definition initializeResult : value :=
  VMap {[ "protocolVersion" := VString protocol;
          "capabilities" := VMap {[ "tools" := VMap ∅ ]};
          "serverInfo" := VMap {[ "name" := VString serverName;
                                  "version" := VString serverVersion ]} ]}.

(** The [switch] on the method. *)
Definition dispatch (req : jsonRPCRequest) : M (value * option jsonRPCError) :=
  let method := req_Method req in
  if String.eqb method "initialize" then ret (initializeResult, None)
  else if String.eqb method "ping" then ret (VMap ∅, None)
  else if String.eqb method "tools/list" then
    ret (VMap {[ "tools" := VSlice (map toolValue toolDefinitions) ]}, None)
  else if String.eqb method "tools/call" then handleToolCall (req_Params req)
  else ret (VNil, Some (rpcError (-32601) "method not found" (VString method))).

(** What one round of the loop decides for a decoded request. *)
Inductive reply :=
| NoReply
| Reply (resp : jsonRPCResponse).

(** The body of the loop from the test on the two notification
    methods to the construction of the response. *)
Definition handleRequest (req : jsonRPCRequest) : M reply :=
  if String.eqb (req_Method req) "notifications/initialized"
     || String.eqb (req_Method req) "initialized"
  then ret NoReply
  else
    bind (dispatch req) (fun '(result, rpcErr) =>
      match req_ID req with
      | [] => ret NoReply
      | _ =>
          let id :=
            match unmarshalValue (req_ID req) with
            | Some v => v
            | None => VString (string_of_list_ascii (req_ID req))
            end in
          ret (Reply {| resp_JSONRPC := "2.0";
                        resp_ID := id;
                        resp_Result := result;
                        resp_Error := rpcErr |})
      end).

(** How [Serve] ends: the error it returns ([None] for [nil]),
    whether the program has stopped in the middle instead ([Serve] then
    returns nothing, and [returned] says nothing), the bytes written to
    the output, the backend calls made and, for the statements below,
    the requests answered with their responses (the program keeps no
    such list). *)
Record outcome := {
  returned : option error;
  crashed : bool;
  written : bytes;
  calls : list apiCall;
  answered : list (jsonRPCRequest * jsonRPCResponse)
}.

(** The loop of [Serve].  A round that reads a frame consumes at least
    one byte of the input, so the fuel [S (length input)] is never used
    up ([serveLoop_fuel] below). *)
Fixpoint serveLoop (fuel : nat) (input out : bytes) (log : list apiCall)
         (ans : list (jsonRPCRequest * jsonRPCResponse)) : outcome :=
  match fuel with
  | O => {| returned := None; crashed := false;
            written := out; calls := log; answered := ans |}
  | S fuel' =>
      match readMessage input with
      | (Err e, _) =>
          if isRuntimeFailure e
          then {| returned := None; crashed := true;
                  written := out; calls := log; answered := ans |}
          else if errors_Is_EOF e
          then {| returned := None; crashed := false;
                  written := out; calls := log; answered := ans |}
          else {| returned := Some (errWrap "failed to read message" e);
                  crashed := false; written := out; calls := log; answered := ans |}
      | (Ok payload, rest) =>
          match unmarshalRequest payload with
          | None => serveLoop fuel' rest out log ans
          | Some req =>
              match handleRequest req log with
              | (NoReply, log') => serveLoop fuel' rest out log' ans
              | (Reply resp, log') =>
                  match writeMessage resp with
                  | Ok sent =>
                      serveLoop fuel' rest (out ++ sent) log' (ans ++ [(req, resp)])
                  | Err e =>
                      {| returned := Some (errWrap "failed to write response" e);
                         crashed := false; written := out; calls := log'; answered := ans |}
                  end
              end
          end
      end
  end.

Definition Serve (input : bytes) : outcome :=
  serveLoop (S (length input)) input [] [] [].

(** What the loop has written is the frames of its responses, in
    order. *)
Definition outputOf (ans : list (jsonRPCRequest * jsonRPCResponse))
           (out : bytes) : Prop :=
  exists frames,
    Forall2 (fun x f => writeMessage x.2 = Ok f) ans frames /\ out = concat frames.

End Server.

(** * A reference codec

A small JSON codec and a backend to run the server on concrete
messages: objects, arrays, strings with the two-character escapes,
integers, [true], [false] and [null]; member names are matched as
written.  The backend is the client without an API key, whose every
call fails. *)

Module Reference.

Definition isSpace (c : ascii) : bool :=
  (code c =? 32) || (code c =? 9) || (code c =? 10) || (code c =? 13).

Fixpoint skipSpace (s : bytes) : bytes :=
  match s with
  | c :: s' => if isSpace c then skipSpace s' else s
  | [] => []
  end.

Definition unescape (c : ascii) : option ascii :=
  if Ascii.eqb c dquote then Some dquote
  else if Ascii.eqb c "\" then Some "\"%char
  else if Ascii.eqb c "/" then Some "/"%char
  else if Ascii.eqb c "n" then Some LF
  else if Ascii.eqb c "r" then Some CR
  else if Ascii.eqb c "t" then Some "009"%char
  else if Ascii.eqb c "b" then Some "008"%char
  else if Ascii.eqb c "f" then Some "012"%char
  else None.

(** A string literal after its opening quote: its text, and what
    follows the closing quote. *)
Fixpoint scanString (s acc : bytes) : option (bytes * bytes) :=
  match s with
  | [] => None
  | c :: s' =>
      if Ascii.eqb c dquote then Some (rev acc, s')
      else if Ascii.eqb c "\" then
        match s' with
        | e :: s'' =>
            match unescape e with
            | Some d => scanString s'' (d :: acc)
            | None => None
            end
        | [] => None
        end
      else if code c <? 32 then None
      else scanString s' (c :: acc)
  end.

Fixpoint scanDigits (s : bytes) (acc : Z) (seen : bool) : option (Z * bytes) :=
  match s with
  | c :: s' =>
      match digitVal c with
      | Some d => scanDigits s' (acc * 10 + d) true
      | None =>
          if seen && negb (Ascii.eqb c "." || Ascii.eqb c "e" || Ascii.eqb c "E")
          then Some (acc, s) else None
      end
  | [] => if seen then Some (acc, []) else None
  end.

Definition scanNumber (s : bytes) : option (Z * bytes) :=
  match s with
  | c :: s' =>
      if Ascii.eqb c "-"
      then (fun p : Z * bytes => (- p.1, p.2)) <$> scanDigits s' 0 false
      else scanDigits s 0 false
  | [] => None
  end.

Definition floatOfZ (z : Z) : float64 :=
  if z <? 0 then PrimFloat.opp (PrimFloat.of_uint63 (Uint63.of_Z (- z)))
  else PrimFloat.of_uint63 (Uint63.of_Z z).

Definition floatToZ (x : float64) : option Z :=
  match Prim2SF x with
  | S754_zero _ => Some 0
  | S754_finite sign m e =>
      let magnitude :=
        if 0 <=? e then Some (Z.pos m * 2 ^ e)
        else if Z.pos m mod 2 ^ (- e) =? 0 then Some (Z.pos m / 2 ^ (- e))
        else None in
      (fun v => if sign then - v else v) <$> magnitude
  | _ => None
  end.

Definition afterPrefix (p : string) (s : bytes) : option bytes := stripPrefix (B p) s.

Fixpoint parseValue (fuel : nat) (s : bytes) : option (value * bytes) :=
  match fuel with
  | O => None
  | S fuel' =>
      match skipSpace s with
      | [] => None
      | c :: r =>
          if Ascii.eqb c dquote then
            (fun p : bytes * bytes => (VString (string_of_list_ascii p.1), p.2))
              <$> scanString r []
          else if Ascii.eqb c "[" then
            match skipSpace r with
            | c' :: r' =>
                if Ascii.eqb c' "]" then Some (VSlice [], r')
                else parseElements fuel' r []
            | [] => None
            end
          else if Ascii.eqb c "{" then
            match skipSpace r with
            | c' :: r' =>
                if Ascii.eqb c' "}" then Some (VMap ∅, r')
                else parseMembers fuel' r ∅
            | [] => None
            end
          else
            match afterPrefix "null" (c :: r), afterPrefix "true" (c :: r),
                  afterPrefix "false" (c :: r) with
            | Some r', _, _ => Some (VNil, r')
            | _, Some r', _ => Some (VBool true, r')
            | _, _, Some r' => Some (VBool false, r')
            | _, _, _ =>
                (fun p : Z * bytes => (VNumber (floatOfZ p.1), p.2))
                  <$> scanNumber (c :: r)
            end
      end
  end
with parseElements (fuel : nat) (s : bytes) (acc : list value)
  : option (value * bytes) :=
  match fuel with
  | O => None
  | S fuel' =>
      match parseValue fuel' s with
      | Some (v, r) =>
          match skipSpace r with
          | c :: r' =>
              if Ascii.eqb c "," then parseElements fuel' r' (acc ++ [v])
              else if Ascii.eqb c "]" then Some (VSlice (acc ++ [v]), r')
              else None
          | [] => None
          end
      | None => None
      end
  end
with parseMembers (fuel : nat) (s : bytes) (acc : gmap string value)
  : option (value * bytes) :=
  match fuel with
  | O => None
  | S fuel' =>
      match skipSpace s with
      | q :: r =>
          if Ascii.eqb q dquote then
            match scanString r [] with
            | Some (k, r1) =>
                match skipSpace r1 with
                | c :: r2 =>
                    if Ascii.eqb c ":" then
                      match parseValue fuel' r2 with
                      | Some (v, r3) =>
                          let acc' := <[string_of_list_ascii k := v]> acc in
                          match skipSpace r3 with
                          | c' :: r4 =>
                              if Ascii.eqb c' "," then parseMembers fuel' r4 acc'
                              else if Ascii.eqb c' "}" then Some (VMap acc', r4)
                              else None
                          | [] => None
                          end
                      | None => None
                      end
                    else None
                | [] => None
                end
            | None => None
            end
          else None
      | [] => None
      end
  end.

(** The text of the next value, and what follows it. *)
Definition rawValue (s : bytes) : option (bytes * bytes) :=
  let s' := skipSpace s in
  match parseValue (S (length s')) s' with
  | Some (_, r) => Some (take (length s' - length r) s', r)
  | None => None
  end.

Fixpoint rawMembers (fuel : nat) (s : bytes) (acc : list (string * bytes))
  : option (list (string * bytes) * bytes) :=
  match fuel with
  | O => None
  | S fuel' =>
      match skipSpace s with
      | q :: r =>
          if Ascii.eqb q dquote then
            match scanString r [] with
            | Some (k, r1) =>
                match skipSpace r1 with
                | c :: r2 =>
                    if Ascii.eqb c ":" then
                      match rawValue r2 with
                      | Some (raw, r3) =>
                          let acc' := acc ++ [(string_of_list_ascii k, raw)] in
                          match skipSpace r3 with
                          | c' :: r4 =>
                              if Ascii.eqb c' "," then rawMembers fuel' r4 acc'
                              else if Ascii.eqb c' "}" then Some (acc', r4)
                              else None
                          | [] => None
                          end
                      | None => None
                      end
                    else None
                | [] => None
                end
            | None => None
            end
          else None
      | [] => None
      end
  end.

(** The members of a text that is one JSON object, each with the text
    of its value. *)
Definition rawObject (s : bytes) : option (list (string * bytes)) :=
  match skipSpace s with
  | c :: r =>
      if Ascii.eqb c "{" then
        match skipSpace r with
        | c' :: r' =>
            let members :=
              if Ascii.eqb c' "}" then Some ([], r')
              else rawMembers (length r) r [] in
            match members with
            | Some (ms, rest) =>
                match skipSpace rest with
                | [] => Some ms
                | _ => None
                end
            | None => None
            end
        | [] => None
        end
      else None
  | [] => None
  end.

(** The last member of that name, as the decoder lets a later member
    overwrite an earlier one. *)
Definition rawMember (name : string) (ms : list (string * bytes)) : option bytes :=
  snd <$> List.find (fun m => String.eqb m.1 name) (rev ms).

Definition decodeValue (raw : bytes) : option value :=
  match parseValue (S (length raw)) raw with
  | Some (v, rest) =>
      match skipSpace rest with
      | [] => Some v
      | _ => None
      end
  | None => None
  end.

(** A member decoded into a [string] field: absent or [null] leaves
    the field empty, anything but a string is an error. *)
Definition stringField (name : string) (ms : list (string * bytes)) : option string :=
  match rawMember name ms with
  | None => Some ""%string
  | Some raw =>
      match decodeValue raw with
      | Some (VString s) => Some s
      | Some VNil => Some ""%string
      | _ => None
      end
  end.

Definition decodeRequest (payload : bytes) : option jsonRPCRequest :=
  match rawObject payload with
  | Some ms =>
      match stringField "jsonrpc" ms, stringField "method" ms with
      | Some ver, Some method =>
          Some {| req_JSONRPC := ver;
                  req_ID := default [] (rawMember "id" ms);
                  req_Method := method;
                  req_Params := default [] (rawMember "params" ms) |}
      | _, _ => None
      end
  | None => None
  end.

Definition decodeToolsCallParams (raw : bytes) : string + toolsCallParams :=
  match rawObject raw with
  | Some ms =>
      match stringField "name" ms with
      | Some name =>
          let arguments :=
            match rawMember "arguments" ms with
            | None => Some ∅
            | Some a =>
                match decodeValue a with
                | Some (VMap m) => Some m
                | Some VNil => Some ∅
                | _ => None
                end
            end in
          match arguments with
          | Some args => inr {| params_Name := name; params_Arguments := args |}
          | None =>
              inl "json: cannot unmarshal into Go struct field toolsCallParams.arguments"%string
          end
      | None => inl "json: cannot unmarshal into Go struct field toolsCallParams.name"%string
      end
  | None => inl "unexpected end of JSON input"%string
  end.

(** *** Encoding *)

Fixpoint escape (s : bytes) : bytes :=
  match s with
  | [] => []
  | c :: s' =>
      if Ascii.eqb c dquote || Ascii.eqb c "\" then "\"%char :: c :: escape s'
      else if Ascii.eqb c LF then "\"%char :: "n"%char :: escape s'
      else if Ascii.eqb c CR then "\"%char :: "r"%char :: escape s'
      else if Ascii.eqb c "009" then "\"%char :: "t"%char :: escape s'
      else c :: escape s'
  end.

Definition quote (s : string) : bytes := dquote :: escape (B s) ++ [dquote].

Fixpoint insertSorted {A : Type} (x : string * A) (l : list (string * A))
  : list (string * A) :=
  match l with
  | [] => [x]
  | y :: l' => if String.leb x.1 y.1 then x :: l else y :: insertSorted x l'
  end.

(** Map keys are written in increasing order. *)
Definition sortedMembers {A : Type} (m : gmap string A) : list (string * A) :=
  fold_right insertSorted [] (map_to_list m).

Fixpoint collect {A : Type} (l : list (result A)) : result (list A) :=
  match l with
  | [] => Ok []
  | r :: l' => andThen r (fun a => andThen (collect l') (fun t => Ok (a :: t)))
  end.

(** [nl indent d] starts a new line at depth [d] when indenting, and is
    empty otherwise; [colon indent] separates a name from its value. *)
Definition nl (indent : bool) (depth : nat) : bytes :=
  if indent then LF :: concat (repeat (B "  ") depth) else [].

Definition colon (indent : bool) : bytes := if indent then B ": " else B ":".

Definition enclose (indent : bool) (opening closing : ascii) (depth : nat)
           (items : list bytes) : bytes :=
  match items with
  | [] => [opening; closing]
  | _ =>
      opening :: nl indent (S depth)
        ++ fold_right (fun item acc =>
                         match acc with
                         | [] => item
                         | _ => item ++ ","%char :: nl indent (S depth) ++ acc
                         end) [] items
        ++ nl indent depth ++ [closing]
  end.

Fixpoint encode (indent : bool) (depth : nat) (v : value) : result bytes :=
  match v with
  | VNil => Ok (B "null")
  | VBool b => Ok (B (if b then "true" else "false"))
  | VNumber x =>
      match floatToZ x with
      | Some z => Ok (Itoa z)
      | None => Err (errMarshal "json: unsupported number")
      end
  | VString s => Ok (quote s)
  | VSlice l =>
      andThen (collect (map (encode indent (S depth)) l))
              (fun items => Ok (enclose indent "[" "]" depth items))
  | VMap m =>
      andThen (collect (map (fun kv : string * result bytes =>
                               andThen kv.2 (fun b =>
                                 Ok (quote kv.1 ++ colon indent ++ b)))
                            (sortedMembers (encode indent (S depth) <$> m))))
              (fun items => Ok (enclose indent "{" "}" depth items))
  end.

Definition encodeValue (v : value) : result bytes := encode false 0 v.

Definition encodeIndent (data : gmap string value) : string :=
  match encode true 0 (VMap data) with
  | Ok pretty => string_of_list_ascii pretty
  | Err _ => ""
  end.

(** *** Decoding a response *)

Definition valueMember (name : string) (ms : list (string * bytes))
  : option (option value) :=
  match rawMember name ms with
  | None => Some None
  | Some raw => Some <$> decodeValue raw
  end.

Definition decodeWireError (raw : bytes) : option wireError :=
  match rawObject raw with
  | Some ms =>
      match rawMember "code" ms, stringField "message" ms, valueMember "data" ms with
      | Some c, Some msg, Some data =>
          match Atoi c with
          | Some n => Some {| w_code := n; w_message := msg; w_data := data |}
          | None => None
          end
      | _, _, _ => None
      end
  | None => None
  end.

Definition decodeWire (payload : bytes) : option wireResponse :=
  match rawObject payload with
  | Some ms =>
      match stringField "jsonrpc" ms, valueMember "id" ms, valueMember "result" ms with
      | Some ver, Some id, Some res =>
          match rawMember "error" ms with
          | None =>
              Some {| w_jsonrpc := ver; w_id := id; w_result := res; w_error := None |}
          | Some raw =>
              match decodeWireError raw with
              | Some e =>
                  Some {| w_jsonrpc := ver; w_id := id; w_result := res;
                          w_error := Some e |}
              | None => None
              end
          end
      | _, _, _ => None
      end
  | None => None
  end.

(** [kaizenAPIClient.call] when [KAIZEN_API_KEY] is not set. *)
Definition noKeyBackend (_ : list apiCall) (_ : apiCall) : callResult :=
  CallErr "KAIZEN_API_KEY is not set".

(** A runtime that allocates up to a gigabyte at a time. *)
#[export] Instance runtime : Runtime := {|
  allocates n := n <=? 2 ^ 30
|}.

(** The environment made of this codec and backend. *)
#[export] Instance env : Env := {|
  unmarshalRequest := decodeRequest;
  unmarshalValue := decodeValue;
  unmarshalToolsCallParams := decodeToolsCallParams;
  marshalValue := encodeValue;
  marshalIndent := encodeIndent;
  unmarshalWire := decodeWire;
  backend := noKeyBackend
|}.

(** A JSON text written with apostrophes in the place of the double
    quotes. *)
Definition json (s : string) : bytes :=
  map (fun c => if Ascii.eqb c "'" then dquote else c) (B s).

End Reference.

(** * The vocabulary of the statements *)

(** ** Bytes and white space *)

(** A visible ASCII character. *)
Definition isPlain (c : ascii) : bool := (33 <=? code c) && (code c <=? 126).

(** One of the six ASCII white-space bytes. *)
Definition isBlank (c : ascii) : bool :=
  ((9 <=? code c) && (code c <=? 13)) || (code c =? 32).

(** Text that begins and ends with a visible ASCII character. *)
Definition plainEnds (core : bytes) : Prop :=
  exists a z m1 m2,
    core = a :: m1 /\ core = m2 ++ [z] /\ isPlain a = true /\ isPlain z = true.

(** A visible ASCII character other than the colon. *)
Definition isNameChar (c : ascii) : bool := isPlain c && negb (code c =? 58).

(** A space or a tab. *)
Definition isPad (c : ascii) : bool := (code c =? 32) || (code c =? 9).

(** A byte that is neither a line feed nor a carriage return. *)
Definition isInline (c : ascii) : bool :=
  negb (code c =? 10) && negb (code c =? 13).

(** ** Header blocks *)

(** The end of a line on the wire. *)
Inductive eol := eolLF | eolCRLF.

Definition eolBytes (e : eol) : bytes :=
  match e with
  | eolLF => [LF]
  | eolCRLF => [CR; LF]
  end.

(** A header line as sent: its text, then its line end. *)
Definition wireLine (h : bytes * eol) : bytes := h.1 ++ eolBytes h.2.

(** A header block as sent: the header lines, then the empty line. *)
Definition headerBlock (hs : list (bytes * eol)) (sep : eol) : bytes :=
  concat (map wireLine hs) ++ eolBytes sep.

(** The text of a header line: not empty, free of line feeds, and not
    ending in a carriage return (which would belong to the line end). *)
Definition headerText (h : bytes) : Prop :=
  (LF ∉ h) /\ exists m z, h = m ++ [z] /\ z <> CR.

(** The two tests [readMessage] makes on its first line before it
    takes it for a header: trimmed of white space, the line is not
    empty and does not start with an opening brace. *)
Definition opensHeaderBlock (line : bytes) : Prop :=
  TrimSpace line <> [] /\ HasPrefix (TrimSpace line) (B "{") = false.

(** A header that [parseContentLength] passes over: no colon, or a
    name other than Content-Length. *)
Definition unrelated (h : bytes) : Prop :=
  match SplitN2 h ":" with
  | [name; _] => EqualFold (TrimSpace name) (B "Content-Length") = false
  | _ => True
  end.

(** No header is named Content-Length, or the first one that is has a
    value that is not the numeral of a positive [int]. *)
Definition badContentLength (hs : list bytes) : Prop :=
  Forall unrelated hs \/
  exists pre name val post,
    hs = pre ++ (name ++ ":"%char :: val) :: post /\
    Forall unrelated pre /\
    (":"%char ∉ name) /\
    EqualFold (TrimSpace name) (B "Content-Length") = true /\
    (forall n, Atoi (TrimSpace val) = Some n -> n <= 0).

(** ** Lines *)

(** C4 as the specification words it speaks of the first line of the
    input that is not empty.  The lines of an input are the texts
    between its line feeds. *)
Fixpoint splitLines (s : bytes) : list bytes :=
  match s with
  | [] => [[]]
  | c :: s' =>
      if Ascii.eqb c LF then [] :: splitLines s'
      else match splitLines s' with
           | l :: ls => (c :: l) :: ls
           | [] => [[c]]
           end
  end.

Fixpoint firstNonEmpty (ls : list bytes) : option bytes :=
  match ls with
  | [] => None
  | [] :: ls' => firstNonEmpty ls'
  | l :: _ => Some l
  end.

Definition firstNonEmptyLine (s : bytes) : option bytes :=
  firstNonEmpty (splitLines s).

(** ** Tool calls and responses *)

(** The names the [switch] of [handleToolCall] knows. *)
Definition registeredTools : list string :=
  ["akuma.query"; "akuma.explain"; "akuma.schema"; "enzan.summary";
   "enzan.burn"; "sozo.generate"; "sozo.schemas"]%string.

(** The result of a tool call that failed: the text of the failure and
    the failure flag. *)
Definition toolFailure (msg : string) : value :=
  VMap {[ "content" := textContent msg; "isError" := VBool true ]}.

(** A registered tool called without an argument it requires. *)
Definition missingRequired (params : toolsCallParams) : Prop :=
  let name := params_Name params in
  let args := params_Arguments params in
  (name = "akuma.query" /\ (args !! "prompt" = None \/ args !! "dialect" = None)) \/
  (name = "akuma.explain" /\ args !! "sql" = None) \/
  (name = "akuma.schema" /\ args !! "tables" = None) \/
  (name = "sozo.generate" /\
     (args !! "records" = None \/
      (args !! "schema" = None /\ args !! "schemaName" = None))).

(** The type assertion [.(string)] succeeds. *)
Definition isString (v : value) : bool :=
  match v with
  | VString _ => true
  | _ => false
  end.

(** A response carries exactly one of a result and an error. *)
Definition exactlyOne (w : wireResponse) : Prop :=
  (is_Some (w_result w) /\ w_error w = None) \/
  (w_result w = None /\ is_Some (w_error w)).

Definition present {A : Type} (name : string) (o : option A) : list string :=
  match o with
  | Some _ => [name]
  | None => []
  end.

(** The names of the members written for a response. *)
Definition memberNames (w : wireResponse) : list string :=
  "jsonrpc"%string
    :: present "id" (w_id w) ++ present "result" (w_result w)
    ++ present "error" (w_error w).

(** A request with an identifier, answered by a response with exactly
    one of a result and an error. *)
Definition soundExchange (x : jsonRPCRequest * jsonRPCResponse) : Prop :=
  req_ID x.1 <> [] /\ exactlyOne (responseWire x.2).

(** ** Messages for the examples *)

(** A notification with a method the server does not know. *)
Definition unknownNotification : bytes :=
  Reference.json "{'jsonrpc':'2.0','method':'no/such'}".

(** The call of the specification's scenario: [akuma.query] with a
    dialect and no prompt. *)
Definition queryWithoutPrompt : bytes :=
  Reference.json "{'name':'akuma.query','arguments':{'dialect':'postgres'}}".

Definition unknownToolCall : bytes := Reference.json "{'name':'nope.tool','arguments':{}}".

(** ** Tool arguments *)

(** A payload that forwards the arguments of the keys listed, as they
    are, and holds nothing else. *)
Definition forwards (keys : list string) (args payload : gmap string value) : Prop :=
  forall k, payload !! k = if bool_decide (k ∈ keys) then args !! k else None.

(** The names in the [required] list of a tool's input schema. *)
Definition requiredOf (t : toolDefinition) : list string :=
  match tool_InputSchema t !! "required" with
  | Some (VSlice vs) =>
      omap (fun v => match v with VString s => Some s | _ => None end) vs
  | _ => []
  end.

(** The tool's schema declares a property of the name [k]. *)
Definition declared (t : toolDefinition) (k : string) : Prop :=
  exists props,
    tool_InputSchema t !! "properties" = Some (VMap props) /\ is_Some (props !! k).

(** The verb and path of each backend operation the handlers use. *)
Definition endpoints : list (string * string) :=
  [("POST", "/v1/akuma/query"); ("POST", "/v1/akuma/explain");
   ("POST", "/v1/akuma/schema"); ("POST", "/v1/enzan/summary");
   ("GET", "/v1/enzan/burn"); ("POST", "/v1/sozo/generate");
   ("GET", "/v1/sozo/schemas")]%string.

(** * tools.go: the client

    The process environment, [encoding/json] at the two types the
    client uses, and [net/http] are outside the program.  The
    environment is a function (what [os.Getenv] returns, [""] for a
    variable that is not set); the codec and the transport enter as a
    class, as the codec of the server does. *)

(** [getEnv(key, fallback)]. *)
Definition getEnv (getenv : string -> string) (key fallback : string) : string :=
  let val := string_of_list_ascii (TrimSpace (B (getenv key))) in
  if String.eqb val "" then fallback else val.

(** The fields of [kaizenAPIClient] that the program sets from its
    environment.  The third, the HTTP client with its timeout of sixty
    seconds, is part of the transport. *)
Record kaizenAPIClient := {
  baseURL : string;
  apiKey : string
}.

Definition newKaizenAPIClient (getenv : string -> string) : kaizenAPIClient :=
  {| baseURL :=
       string_of_list_ascii
         (TrimRight (B (getEnv getenv "KAIZEN_API_BASE_URL" "http://localhost:8080"))
                    (B "/"));
     apiKey := getenv "KAIZEN_API_KEY" |}.

(** A request as [call] builds it, and what it reads of the response:
    the status and the body, or the text of the error of
    [io.ReadAll]. *)
Record httpRequest := {
  http_Method : string;
  http_URL : string;
  http_Header : gmap string string;
  http_Body : option bytes
}.

Record httpResponse := {
  http_StatusCode : Z;
  http_ResponseBody : string + bytes
}.

(** Errors are kept by their text, [err.Error()], which is all that
    [call] does with them. *)
Class Net := {
  (** [json.Marshal(payload)] for the payload of a handler. *)
  marshalPayload : gmap string value -> string + bytes;
  (** The error of [http.NewRequestWithContext] for a verb and a URL,
      if any. *)
  newRequestError : string -> string -> option string;
  (** [httpClient.Do(req)], given the requests sent before. *)
  Do : list httpRequest -> httpRequest -> string + httpResponse;
  (** [json.Unmarshal(respBody, &decoded)] into a [nil] map: an error,
      or the map, which stays [nil] ([None]) for the text [null]. *)
  unmarshalMap : bytes -> string + option (gmap string value)
}.

Section Client.

Context {net0 : Net}.

(** The request of [call], with its three headers. *)
Definition newRequest (c : kaizenAPIClient) (method path : string)
           (payload : option (gmap string value)) (body : option bytes)
  : httpRequest :=
  let header : gmap string string :=
    {[ "Authorization" := ("Bearer " ++ apiKey c)%string;
       "User-Agent" := (serverName ++ "/" ++ serverVersion)%string ]} in
  let header :=
    match payload with
    | Some _ =>
        if negb (String.eqb method "GET")
        then <["Content-Type" := "application/json"%string]> header
        else header
    | None => header
    end in
  {| http_Method := method;
     http_URL := (baseURL c ++ path)%string;
     http_Header := header;
     http_Body := body |}.

(** The end of [call], from the response on. *)
Definition readResponse (resp : httpResponse)
  : string + option (gmap string value) :=
  match http_ResponseBody resp with
  | inl e => inl ("failed to read response: " ++ e)%string
  | inr respBody =>
      let decoding :=
        match respBody with
        | [] => inr (Some ∅)
        | _ => unmarshalMap respBody
        end in
      match decoding with
      | inl e => inl ("failed to decode response: " ++ e)%string
      | inr decoded =>
          if 400 <=? http_StatusCode resp then
            let msg :=
              match decoded ≫= (fun m => m !! "error") with
              | Some (VString v) =>
                  if String.eqb v "" then "Kaizen API request failed"%string else v
              | _ => "Kaizen API request failed"%string
              end in
            inl (msg ++ " (status="
                     ++ string_of_list_ascii (Itoa (http_StatusCode resp)) ++ ")")%string
          else inr decoded
      end
  end.

(** The body of the request: none for a [nil] payload, else the
    payload as [json.Marshal] encodes it. *)
Definition requestBody (payload : option (gmap string value))
  : string + option bytes :=
  match payload with
  | None => inr None
  | Some p =>
      match marshalPayload p with
      | inl e => inl e
      | inr raw => inr (Some raw)
      end
  end.

(** [kaizenAPIClient.call]: the decoded answer or the text of the
    error, and the requests sent so far. *)
Definition call (c : kaizenAPIClient) (method path : string)
           (payload : option (gmap string value)) (sent : list httpRequest)
  : (string + option (gmap string value)) * list httpRequest :=
  if isBlankString (apiKey c) then (inl "KAIZEN_API_KEY is not set"%string, sent)
  else
    match requestBody payload with
    | inl e => (inl ("failed to marshal request payload: " ++ e)%string, sent)
    | inr body =>
        match newRequestError method (baseURL c ++ path) with
        | Some e => (inl ("failed to create request: " ++ e)%string, sent)
        | None =>
            let req := newRequest c method path payload body in
            match Do sent req with
            | inl e => (inl ("request failed: " ++ e)%string, sent ++ [req])
            | inr resp => (readResponse resp, sent ++ [req])
            end
        end
    end.

End Client.

(** A transport for the examples: the codec above, and a server that
    knows the burn rate and nothing else. *)
Module Canned.

Definition server (_ : list httpRequest) (req : httpRequest) : string + httpResponse :=
  if String.eqb (http_URL req) "http://localhost:8080/v1/enzan/burn"
  then inr {| http_StatusCode := 200;
              http_ResponseBody := inr (Reference.json "{'usdPerHour':12}") |}
  else inr {| http_StatusCode := 404;
              http_ResponseBody := inr (Reference.json "{'error':'no such route'}") |}.

#[export] Instance net : Net := {|
  marshalPayload p :=
    match Reference.encodeValue (VMap p) with
    | Ok raw => inr raw
    | Err _ => inl "json: unsupported value"%string
    end;
  newRequestError _ _ := None;
  Do := server;
  unmarshalMap raw :=
    match Reference.decodeValue raw with
    | Some (VMap m) => inr (Some m)
    | Some VNil => inr None
    | _ => inl "json: cannot unmarshal into Go value of type map[string]interface {}"%string
    end
|}.

End Canned.


(** * The codec: what is written and read back alike *)

(** ** Values that the reference codec writes as [json.Marshal] does *)

(** The bytes of a string that [json.Marshal] writes as they are, or
    with one of the two-character escapes: visible ASCII and the space,
    without the three characters it writes as a [\u] escape, and the
    line feed, the carriage return and the tab. *)
Definition plainChar (c : ascii) : bool :=
  ((32 <=? code c) && (code c <=? 126)
   && negb (Ascii.eqb c "<") && negb (Ascii.eqb c ">") && negb (Ascii.eqb c "&"))
  || Ascii.eqb c LF || Ascii.eqb c CR || Ascii.eqb c "009".

Definition plainText (s : string) : Prop :=
  Forall (fun c => plainChar c = true) (B s).

(** A whole number that a [float64] holds exactly, other than the
    negative zero. *)
Definition wholeNumber (x : float64) : Prop :=
  exists z,
    - 2 ^ 53 <= z <= 2 ^ 53 /\
    Reference.floatToZ x = Some z /\ Reference.floatOfZ z = x.

Fixpoint plainValue (v : value) : Prop :=
  match v with
  | VNil | VBool _ => True
  | VNumber x => wholeNumber x
  | VString s => plainText s
  | VSlice l => fold_right (fun v P => plainValue v /\ P) True l
  | VMap m => map_Forall (fun k (P : Prop) => plainText k /\ P) (plainValue <$> m)
  end.

Definition plainResponse (response : jsonRPCResponse) : Prop :=
  plainText (resp_JSONRPC response) /\
  plainValue (resp_ID response) /\
  plainValue (resp_Result response) /\
  match resp_Error response with
  | None => True
  | Some e =>
      minInt <= err_Code e <= maxInt /\
      plainText (err_Message e) /\ plainValue (err_Data e)
  end.

(** A decimal digit. *)
Definition isDigit (c : ascii) : bool := (48 <=? code c) && (code c <=? 57).

(** The first byte of the text of a JSON value. *)
Definition valueStart (c : ascii) : bool :=
  Ascii.eqb c dquote || Ascii.eqb c "[" || Ascii.eqb c "{" || Ascii.eqb c "n"
  || Ascii.eqb c "t" || Ascii.eqb c "f" || Ascii.eqb c "-"
  || ((48 <=? code c) && (code c <=? 57)).

(** What may follow the text of a value: nothing, or one of the three
    bytes that close or continue an array or an object. *)
Definition delimited (rest : bytes) : Prop :=
  match rest with
  | [] => True
  | c :: _ => c = ","%char \/ c = "]"%char \/ c = "}"%char
  end.

(** The text [e] is read as the value [v], with any fuel above its
    length and whatever follows it. *)
Definition parses (e : bytes) (v : value) : Prop :=
  (exists c t, e = c :: t /\ valueStart c = true) /\
  forall fuel rest,
    (length e < fuel)%nat -> delimited rest ->
    Reference.parseValue fuel (e ++ rest) = Some (v, rest).

(** The name [nm], as it stands between the quotes of a member, is read
    as the key [k]. *)
Definition spells (nm : bytes) (k : string) : Prop :=
  forall rest, Reference.scanString (nm ++ dquote :: rest) [] = Some (B k, rest).

(** A member of an object: its name as written, the key it is read as,
    the text of its value and the value it is read as. *)
Record entry := {
  entry_name : bytes;
  entry_key : string;
  entry_text : bytes;
  entry_value : value
}.

Definition entryBytes (m : entry) : bytes :=
  dquote :: entry_name m ++ dquote :: ":"%char :: entry_text m.

Definition readable (m : entry) : Prop :=
  spells (entry_name m) (entry_key m) /\ parses (entry_text m) (entry_value m).

Definition entriesMap (ms : list entry) (acc : gmap string value) : gmap string value :=
  fold_left (fun a m => <[entry_key m := entry_value m]> a) ms acc.

Definition entriesRaw (ms : list entry) : list (string * bytes) :=
  map (fun m => (entry_key m, entry_text m)) ms.

(** A member as [renderObject] writes it that is read back as written:
    its name needs no escape and its text is that of a value. *)
Definition fieldReadable (f : string * bytes) : Prop :=
  spells (B f.1) f.1 /\ exists v, parses f.2 v.
(** * Properties of the library functions *)

(** Case analysis on a byte constrained by a boolean test [H]: the cases
    that fail the test are discarded by computation. *)
Ltac each_byte c H :=
  destruct c as [[|] [|] [|] [|] [|] [|] [|] [|]];
  try (vm_compute in H; discriminate H).

Ltac compute_hyp := vm_compute; first [reflexivity | discriminate | exact I].

(** A negation settled by deciding its statement. *)
Ltac decide_not := apply (proj1 (bool_decide_eq_false _)); vm_compute; reflexivity.

Lemma ReadString_line (h rest : bytes) :
  LF ∉ h -> ReadString LF (h ++ LF :: rest) = (h ++ [LF], None, rest).
Proof.
  induction h as [|c h IH]; intros Hnot; simpl.
  - reflexivity.
  - destruct (Ascii.eqb_spec c LF) as [->|Hc].
    + exfalso. apply Hnot. left.
    + rewrite IH; [reflexivity|]. intros Hin. apply Hnot. by right.
Qed.

Lemma ReadString_eof (h : bytes) :
  LF ∉ h -> ReadString LF h = (h, Some io_EOF, []).
Proof.
  induction h as [|c h IH]; intros Hnot; simpl.
  - reflexivity.
  - destruct (Ascii.eqb_spec c LF) as [->|Hc].
    + exfalso. apply Hnot. left.
    + rewrite IH; [reflexivity|]. intros Hin. apply Hnot. by right.
Qed.

(** A read either stops after a delimiter, with at least that byte
    consumed, or reaches the end of the input. *)
Lemma ReadString_length (d : ascii) (input line rest : bytes) (err : option error) :
  ReadString d input = (line, err, rest) ->
  length input = (length line + length rest)%nat /\
  (err = None -> line <> []) /\
  (err <> None -> rest = []).
Proof.
  revert line rest err.
  induction input as [|c input IH]; intros line rest err; simpl.
  - intros [= <- <- <-]. repeat split; congruence.
  - destruct (Ascii.eqb c d).
    + intros [= <- <- <-]. simpl. repeat split; congruence.
    + destruct (ReadString d input) as [[l e] r] eqn:E.
      intros [= <- <- <-].
      destruct (IH l r e eq_refl) as (Hlen & _ & Heof).
      simpl. repeat split; [lia | congruence | exact Heof].
Qed.

Lemma TrimRight_app_cutset (s t cutset : bytes) :
  Forall (fun c => c ∈ cutset) t ->
  TrimRight (s ++ t) cutset = TrimRight s cutset.
Proof.
  intros Ht.
  assert (Hnil : TrimRight t cutset = []).
  { induction Ht as [|c t Hc _ IH]; simpl; [reflexivity|].
    rewrite IH. by rewrite bool_decide_eq_true_2. }
  induction s as [|c s IH]; simpl.
  - exact Hnil.
  - by rewrite IH.
Qed.

(** *** White space *)

Lemma dropRune_plain (c : ascii) (s : bytes) :
  isPlain c = true -> dropRune spaceRunes (c :: s) = None.
Proof. intros H. each_byte c H; reflexivity. Qed.

Lemma dropRune_rev_plain (c : ascii) (s : bytes) :
  isPlain c = true -> dropRune (map (@rev ascii) spaceRunes) (c :: s) = None.
Proof. intros H. each_byte c H; reflexivity. Qed.

Lemma dropRune_blank (c : ascii) (s : bytes) :
  isBlank c = true -> dropRune spaceRunes (c :: s) = Some s.
Proof. intros H. each_byte c H; reflexivity. Qed.

Lemma dropRune_rev_blank (c : ascii) (s : bytes) :
  isBlank c = true -> dropRune (map (@rev ascii) spaceRunes) (c :: s) = Some s.
Proof. intros H. each_byte c H; reflexivity. Qed.

Lemma trimRunes_stop (fuel : nat) (runes : list bytes) (s : bytes) :
  dropRune runes s = None -> trimRunes fuel runes s = s.
Proof. intros H. destruct fuel; simpl; [reflexivity|]. by rewrite H. Qed.

Lemma trimRunes_blanks (runes : list bytes) (sp rest : bytes) (fuel : nat) :
  (forall c s, isBlank c = true -> dropRune runes (c :: s) = Some s) ->
  Forall (fun c => isBlank c = true) sp ->
  (length sp <= fuel)%nat ->
  trimRunes fuel runes (sp ++ rest) = trimRunes (fuel - length sp) runes rest.
Proof.
  intros Hdrop Hsp. revert fuel.
  induction Hsp as [|c sp Hc _ IH]; intros fuel Hfuel; simpl in *.
  - by rewrite Nat.sub_0_r.
  - destruct fuel as [|fuel]; [lia|]. simpl.
    rewrite Hdrop by exact Hc. apply IH. lia.
Qed.

(** [TrimSpace] removes ASCII white space around such a text and
    nothing else. *)
Lemma TrimSpace_core (sp1 core sp2 : bytes) :
  Forall (fun c => isBlank c = true) sp1 ->
  Forall (fun c => isBlank c = true) sp2 ->
  plainEnds core ->
  TrimSpace (sp1 ++ core ++ sp2) = core.
Proof.
  intros H1 H2 (a & z & m1 & m2 & Ha & Hz & Pa & Pz).
  unfold TrimSpace.
  assert (HL : TrimLeftSpace (sp1 ++ core ++ sp2) = core ++ sp2).
  { unfold TrimLeftSpace.
    rewrite trimRunes_blanks; [|exact dropRune_blank|exact H1|rewrite length_app; lia].
    rewrite Ha. simpl. apply trimRunes_stop, dropRune_plain, Pa. }
  rewrite HL. unfold TrimRightSpace.
  rewrite rev_app_distr.
  rewrite trimRunes_blanks;
    [|exact dropRune_rev_blank| |rewrite length_rev, length_app; lia].
  - rewrite Hz at 2. rewrite rev_app_distr. simpl.
    rewrite trimRunes_stop by (apply dropRune_rev_plain, Pz).
    change (z :: rev m2) with (rev [z] ++ rev m2).
    rewrite <- rev_app_distr, rev_involutive. by rewrite <- Hz.
  - by apply List.Forall_rev.
Qed.

Lemma TrimSpace_plain (core : bytes) : plainEnds core -> TrimSpace core = core.
Proof.
  intros H. rewrite <- (TrimSpace_core [] core []) at 2; [|constructor..|exact H].
  by rewrite app_nil_r.
Qed.

(** *** Decimal numerals *)

Lemma digitVal_digitChar (d : Z) :
  0 <= d < 10 -> digitVal (digitChar d) = Some d.
Proof.
  intros Hd. unfold digitVal, digitChar.
  rewrite nat_ascii_embedding by lia.
  rewrite Z2Nat.id by lia.
  replace (48 <=? 48 + d) with true by (symmetry; apply Z.leb_le; lia).
  replace (48 + d <=? 57) with true by (symmetry; apply Z.leb_le; lia).
  simpl. f_equal. lia.
Qed.

Lemma isPlain_digitChar (d : Z) : 0 <= d < 10 -> isPlain (digitChar d) = true.
Proof.
  intros Hd. unfold isPlain, code, digitChar.
  rewrite nat_ascii_embedding by lia.
  rewrite Z2Nat.id by lia.
  apply andb_true_iff. split; apply Z.leb_le; lia.
Qed.

Lemma parseDigits_app (acc : Z) (l1 l2 : bytes) :
  parseDigits acc (l1 ++ l2) =
  match parseDigits acc l1 with
  | Some v => parseDigits v l2
  | None => None
  end.
Proof.
  revert acc. induction l1 as [|c l1 IH]; intros acc; simpl; [reflexivity|].
  destruct (digitVal c); [apply IH | reflexivity].
Qed.

Lemma digitsOf_app (fuel : nat) (n : Z) (acc : bytes) :
  digitsOf fuel n acc = digitsOf fuel n [] ++ acc.
Proof.
  revert n acc. induction fuel as [|fuel IH]; intros n acc; simpl; [reflexivity|].
  destruct (n <? 10); [reflexivity|].
  rewrite (IH _ (_ :: acc)), (IH _ [_]), <- app_assoc. reflexivity.
Qed.

Lemma parseDigits_digitsOf (fuel : nat) (n : Z) :
  0 <= n < 2 ^ Z.of_nat fuel ->
  parseDigits 0 (digitsOf fuel n []) = Some n.
Proof.
  revert n. induction fuel as [|fuel IH]; intros n Hn.
  - simpl in *. f_equal. lia.
  - simpl digitsOf. destruct (Z.ltb_spec n 10) as [Hlt|Hge].
    + simpl. rewrite Z.mod_small by lia.
      rewrite digitVal_digitChar by lia. reflexivity.
    + rewrite digitsOf_app, parseDigits_app.
      rewrite IH.
      * simpl. rewrite digitVal_digitChar by (apply Z.mod_pos_bound; lia).
        f_equal. pose proof (Z.div_mod n 10). lia.
      * rewrite Nat2Z.inj_succ, Z.pow_succ_r in Hn by lia.
        split; [apply Z.div_pos; lia|].
        apply Z.div_lt_upper_bound; lia.
Qed.

(** The numeral of a natural number: not empty, its first and last
    characters are digits. *)
Lemma digitsOf_plainEnds (fuel : nat) (n : Z) :
  0 <= n -> plainEnds (digitsOf (S fuel) n []).
Proof.
  intros Hn.
  assert (Hfirst : forall f m tl, 0 <= m ->
            exists a m1, digitsOf (S f) m tl = a :: m1 /\
                         (isPlain a = true)).
  { induction f as [|f IH]; intros m tl Hm; simpl.
    - destruct (m <? 10); eexists _, _; (split; [reflexivity|]);
        apply isPlain_digitChar, Z.mod_pos_bound; lia.
    - destruct (m <? 10).
      + eexists _, _; (split; [reflexivity|]).
        apply isPlain_digitChar, Z.mod_pos_bound; lia.
      + apply (IH (m / 10)). apply Z.div_pos; lia. }
  destruct (Hfirst fuel n [] Hn) as (a & m1 & Ha & Pa).
  exists a, (digitChar (n mod 10)), m1.
  simpl. simpl in Ha.
  destruct (n <? 10).
  - exists []. injection Ha as <- <-. repeat split; exact Pa.
  - rewrite digitsOf_app in Ha |- *.
    exists (digitsOf fuel (n / 10) []).
    split; [exact Ha|]. split; [reflexivity|]. split; [exact Pa|].
    apply isPlain_digitChar, Z.mod_pos_bound; lia.
Qed.

Lemma log2_fuel (n : Z) : 0 <= n -> n < 2 ^ Z.of_nat (S (Z.to_nat (Z.log2 n))).
Proof.
  intros Hn. rewrite Nat2Z.inj_succ, Z2Nat.id by apply Z.log2_nonneg.
  destruct (Z.eq_dec n 0) as [->|Hz]; [reflexivity|].
  apply Z.log2_spec. lia.
Qed.

Lemma Itoa_plainEnds (n : Z) : 0 <= n -> plainEnds (Itoa n).
Proof.
  intros Hn. unfold Itoa.
  destruct (Z.ltb_spec n 0); [lia|]. by apply digitsOf_plainEnds.
Qed.

(** Reading back a printed natural number that fits an [int]. *)
Lemma Atoi_Itoa (n : Z) : 0 <= n <= maxInt -> Atoi (Itoa n) = Some n.
Proof.
  intros [Hn Hmax].
  pose proof (Itoa_plainEnds n Hn) as (a & z & m1 & m2 & Ha & _ & Pa & _).
  assert (Hval : parseDigits 0 (Itoa n) = Some n).
  { unfold Itoa. destruct (Z.ltb_spec n 0); [lia|].
    apply parseDigits_digitsOf. split; [lia|]. by apply log2_fuel. }
  unfold Atoi. rewrite Ha in Hval |- *.
  assert (Hsign : Ascii.eqb a "-" = false /\ Ascii.eqb a "+" = false).
  { simpl in Hval. clear - Hval.
    destruct (digitVal a) eqn:Hd; [|discriminate].
    clear Hval. each_byte a Hd; split; reflexivity. }
  destruct Hsign as [-> ->].
  rewrite Hval.
  replace (minInt <=? n) with true by (symmetry; apply Z.leb_le; unfold minInt; lia).
  replace (n <=? maxInt) with true by (symmetry; apply Z.leb_le; lia).
  reflexivity.
Qed.

(** *** Splitting and case folding *)

Lemma SplitN2_sep (name val : bytes) (sep : ascii) :
  sep ∉ name -> SplitN2 (name ++ sep :: val) sep = [name; val].
Proof.
  induction name as [|c name IH]; intros Hnot; simpl.
  - by rewrite Ascii.eqb_refl.
  - destruct (Ascii.eqb_spec c sep) as [->|Hc].
    + exfalso. apply Hnot. left.
    + rewrite IH; [reflexivity|]. intros Hin. apply Hnot. by right.
Qed.

Lemma foldEq_nameChar (a b : ascii) :
  foldEq a b = true -> isNameChar b = true -> isNameChar a = true.
Proof.
  unfold foldEq, isNameChar, isPlain, code.
  set (x := Z.of_nat (nat_of_ascii a)). set (y := Z.of_nat (nat_of_ascii b)).
  rewrite !orb_true_iff, !andb_true_iff, !negb_true_iff,
    !Z.leb_le, !Z.eqb_eq, !Z.eqb_neq. lia.
Qed.

Lemma EqualFold_nameChars (s t : bytes) :
  EqualFold s t = true ->
  Forall (fun c => isNameChar c = true) t ->
  Forall (fun c => isNameChar c = true) s /\ length s = length t.
Proof.
  revert t. induction s as [|a s IH]; intros [|b t]; simpl; try discriminate.
  - intros _ _. by split.
  - rewrite andb_true_iff. intros [Hab Hst] Ht.
    apply Forall_cons in Ht as [Hb Ht].
    destruct (IH t Hst Ht) as [Hs Hlen].
    split; [|by rewrite Hlen].
    constructor; [by apply (foldEq_nameChar a b)|exact Hs].
Qed.

(** A name that [EqualFold] identifies with Content-Length holds no
    colon and begins and ends with a visible character. *)
Lemma contentLength_name (name : bytes) :
  EqualFold name (B "Content-Length") = true ->
  (":"%char ∉ name) /\ plainEnds name.
Proof.
  intros H.
  destruct (EqualFold_nameChars _ _ H) as [Hall Hlen].
  { repeat constructor. }
  split.
  - intros Hin. rewrite Forall_forall in Hall. specialize (Hall _ Hin).
    discriminate Hall.
  - destruct name as [|a m1]; [discriminate Hlen|].
    destruct (exists_last (l := a :: m1)) as (m2 & z & Hz); [discriminate|].
    exists a, z, m1, m2. repeat split; [exact Hz|..].
    + apply Forall_cons in Hall as [Pa _].
      unfold isNameChar in Pa. by apply andb_true_iff in Pa as [Pa _].
    + rewrite Hz in Hall. apply Forall_app in Hall as [_ Hall].
      apply Forall_cons in Hall as [Pz _].
      unfold isNameChar in Pz. by apply andb_true_iff in Pz as [Pz _].
Qed.

Lemma ReadFull_exact (payload rest : bytes) :
  ReadFull (length payload) (payload ++ rest) = (Ok payload, rest).
Proof.
  unfold ReadFull. rewrite decide_True by (rewrite length_app; lia).
  by rewrite take_app_length, drop_app_length.
Qed.

(** * The frame reader *)

Section FrameReader.

Context {rt0 : Runtime}.

Lemma TrimRight_last (m cutset : bytes) (z : ascii) :
  z ∉ cutset -> TrimRight (m ++ [z]) cutset = m ++ [z].
Proof.
  intros Hz. induction m as [|c m IH]; simpl.
  - by rewrite bool_decide_eq_false_2.
  - rewrite IH. by destruct m.
Qed.

Lemma eolBytes_cutset (e : eol) : Forall (fun c => c ∈ [CR; LF]) (eolBytes e).
Proof. destruct e; repeat constructor. Qed.

Lemma TrimRight_wireLine (h : bytes) (e : eol) :
  headerText h -> TrimRight (h ++ eolBytes e) [CR; LF] = h.
Proof.
  intros (Hlf & m & z & -> & Hcr).
  rewrite TrimRight_app_cutset by apply eolBytes_cutset.
  apply TrimRight_last.
  intros Hin. apply Hlf.
  apply elem_of_cons in Hin as [->|Hin]; [done|].
  apply list_elem_of_singleton in Hin as ->.
  apply elem_of_app. right. left.
Qed.

Lemma ReadString_wireLine (h : bytes) (e : eol) (rest : bytes) :
  LF ∉ h ->
  ReadString LF (h ++ eolBytes e ++ rest) = (h ++ eolBytes e, None, rest).
Proof.
  intros Hlf. destruct e; simpl.
  - by apply ReadString_line.
  - change (h ++ CR :: LF :: rest) with (h ++ [CR] ++ LF :: rest).
    rewrite app_assoc, ReadString_line.
    + by rewrite <- app_assoc.
    + intros Hin. apply elem_of_app in Hin as [Hin|Hin]; [done|].
      by apply list_elem_of_singleton in Hin.
Qed.

Lemma ReadString_eol (e : eol) (rest : bytes) :
  ReadString LF (eolBytes e ++ rest) = (eolBytes e, None, rest).
Proof. destruct e; reflexivity. Qed.

(** The header loop on a well-formed block: every header text is
    collected, in order, and the input after the empty line is left. *)
Lemma readHeaders_block (hs : list (bytes * eol)) (sep : eol)
      (acc : list bytes) (rest : bytes) (fuel : nat) :
  Forall (fun h => headerText h.1) hs ->
  (length hs <= fuel)%nat ->
  readHeaders fuel acc (headerBlock hs sep ++ rest) = (Ok (acc ++ map fst hs), rest).
Proof.
  unfold headerBlock. intros Hhs. revert acc fuel.
  induction Hhs as [|[h e] hs Hh _ IH]; intros acc fuel Hfuel.
  - simpl concat. simpl app at 1.
    destruct fuel; simpl readHeaders; rewrite ReadString_eol;
      (replace (TrimRight (eolBytes sep) [CR; LF]) with (@nil ascii)
         by (by destruct sep));
      by rewrite app_nil_r.
  - destruct fuel as [|fuel]; [simpl in Hfuel; lia|].
    simpl concat. unfold wireLine at 1. simpl fst. simpl snd.
    rewrite <- !app_assoc. simpl readHeaders.
    rewrite ReadString_wireLine by apply Hh.
    rewrite TrimRight_wireLine by exact Hh.
    destruct Hh as (_ & m & z & Hm & _).
    destruct h as [|c h]; [by destruct m|].
    rewrite app_assoc, IH by (simpl in Hfuel; lia).
    by rewrite <- app_assoc.
Qed.

(** The fuel of the header loop is never used up: any amount that
    covers the input gives the same result. *)
Lemma readHeaders_fuel (f1 f2 : nat) (acc : list bytes) (input : bytes) :
  (length input <= f1)%nat -> (length input <= f2)%nat ->
  readHeaders f1 acc input = readHeaders f2 acc input.
Proof.
  revert f2 acc input.
  induction f1 as [|f1 IH]; intros f2 acc input H1 H2.
  - destruct input; [|simpl in H1; lia]. by destruct f2.
  - destruct f2 as [|f2].
    { destruct input; [|simpl in H2; lia]. reflexivity. }
    simpl. destruct (ReadString LF input) as [[line err] rest] eqn:E.
    destruct (ReadString_length _ _ _ _ _ E) as (Hlen & Hne & _).
    destruct err; [reflexivity|].
    destruct (TrimRight line [CR; LF]); [reflexivity|].
    assert (line <> []) by by apply Hne.
    destruct line; [done|]. simpl in Hlen.
    apply IH; lia.
Qed.

(** The rest of the input never grows. *)
Lemma readHeaders_rest (fuel : nat) (acc : list bytes) (input : bytes)
      (r : result (list bytes)) (rest : bytes) :
  readHeaders fuel acc input = (r, rest) -> (length rest <= length input)%nat.
Proof.
  revert acc input. induction fuel as [|fuel IH]; intros acc input; simpl;
    destruct (ReadString LF input) as [[line err] rest0] eqn:E;
    destruct (ReadString_length _ _ _ _ _ E) as (Hlen & _ & _);
    (destruct err; [intros [= _ <-]; lia|]);
    (destruct (TrimRight line [CR; LF]); [intros [= _ <-]; lia|]).
  - intros [= _ <-]; lia.
  - intros H. apply IH in H. lia.
Qed.

Lemma headerBlock_length (hs : list (bytes * eol)) (sep : eol) (rest : bytes) :
  (length hs <= length (headerBlock hs sep ++ rest))%nat.
Proof.
  unfold headerBlock. induction hs as [|[h e] hs IH]; simpl; [lia|].
  unfold wireLine at 1. simpl fst. simpl snd.
  rewrite <- !app_assoc, !length_app in *.
  assert (1 <= length (eolBytes e))%nat by (destruct e; simpl; lia). lia.
Qed.

(** [readMessage] on a header block: the block is consumed, the
    headers are handed to [parseContentLength], and the payload is read
    from what follows the empty line. *)
Lemma readMessage_headerBlock (h : bytes * eol) (hs : list (bytes * eol))
      (sep : eol) (rest : bytes) :
  opensHeaderBlock (wireLine h) ->
  Forall (fun h => headerText h.1) (h :: hs) ->
  readMessage (headerBlock (h :: hs) sep ++ rest) =
  match parseContentLength (map fst (h :: hs)) with
  | Err e => (Err e, rest)
  | Ok n =>
      if allocates n then
        match ReadFull (Z.to_nat n) rest with
        | (Ok payload, rest') => (Ok payload, rest')
        | (Err e, rest') => (Err (errWrap "failed to read payload" e), rest')
        end
      else (Err runtimeFailure, rest)
  end.
Proof.
  intros [Hne Hbrace] Hall.
  apply Forall_cons in Hall as [Hh Hhs].
  destruct h as [h e]. unfold wireLine in Hne, Hbrace. simpl fst in *. simpl snd in *.
  unfold readMessage, headerBlock. simpl concat.
  unfold wireLine at 1. simpl fst. simpl snd.
  rewrite <- !app_assoc.
  rewrite ReadString_wireLine by apply Hh.
  destruct (TrimSpace (h ++ eolBytes e)) as [|c t] eqn:Htrim; [done|].
  rewrite Hbrace.
  rewrite TrimRight_wireLine by exact Hh.
  rewrite app_assoc.
  change (concat (map wireLine hs) ++ eolBytes sep) with (headerBlock hs sep).
  rewrite readHeaders_block by (exact Hhs || apply headerBlock_length).
  reflexivity.
Qed.

Lemma parseContentLength_unrelated (pre hs : list bytes) :
  Forall unrelated pre ->
  parseContentLength (pre ++ hs) = parseContentLength hs.
Proof.
  induction 1 as [|h pre Hh _ IH]; [reflexivity|].
  simpl. unfold unrelated in Hh.
  destruct (SplitN2 h ":") as [|a [|b [|c l]]]; try exact IH.
  by rewrite Hh.
Qed.

Lemma isPad_isBlank (sp : bytes) :
  Forall (fun c => isPad c = true) sp -> Forall (fun c => isBlank c = true) sp.
Proof.
  intros H. eapply Forall_impl; [exact H|]. intros c. unfold isPad, isBlank.
  rewrite !orb_true_iff, !andb_true_iff, !Z.leb_le, !Z.eqb_eq. lia.
Qed.

(** The header [name: <n>], with any padding around the numeral, is
    read as the length [n]. *)
Lemma parseContentLength_header (name sp1 sp2 : bytes) (n : Z) (post : list bytes) :
  EqualFold name (B "Content-Length") = true ->
  Forall (fun c => isPad c = true) sp1 ->
  Forall (fun c => isPad c = true) sp2 ->
  0 < n <= maxInt ->
  parseContentLength ((name ++ B ":" ++ sp1 ++ Itoa n ++ sp2) :: post) = Ok n.
Proof.
  intros Hname H1 H2 Hn.
  destruct (contentLength_name name Hname) as [Hcolon Hplain].
  simpl parseContentLength. change (B ":") with [":"%char]. simpl app at 2.
  rewrite SplitN2_sep by exact Hcolon.
  rewrite (TrimSpace_plain name) by exact Hplain. rewrite Hname. simpl negb.
  rewrite TrimSpace_core; [|by apply isPad_isBlank..|apply Itoa_plainEnds; lia].
  rewrite Atoi_Itoa by lia.
  destruct (Z.leb_spec n 0); [lia|reflexivity].
Qed.

(** *** A first line that starts with a visible character *)

Lemma stripPrefix_keeps_last (r x y : bytes) (a : ascii) :
  Forall (fun b => isPlain b = false) r ->
  isPlain a = true ->
  stripPrefix r (x ++ [a]) = Some y ->
  exists x', y = x' ++ [a].
Proof.
  intros Hr Pa. revert x.
  induction Hr as [|b r Hb _ IH]; intros x; simpl.
  - intros [= <-]. by exists x.
  - destruct x as [|c x]; simpl.
    + destruct (Ascii.eqb_spec b a) as [->|_]; [congruence|discriminate].
    + destruct (Ascii.eqb b c); [apply IH|discriminate].
Qed.

Lemma dropRune_keeps_last (runes : list bytes) (x y : bytes) (a : ascii) :
  Forall (Forall (fun b => isPlain b = false)) runes ->
  isPlain a = true ->
  dropRune runes (x ++ [a]) = Some y ->
  exists x', y = x' ++ [a].
Proof.
  intros Hrunes Pa.
  induction Hrunes as [|r runes Hr _ IH]; simpl; [discriminate|].
  destruct (stripPrefix r (x ++ [a])) as [y'|] eqn:E; [|exact IH].
  intros [= <-]. by apply (stripPrefix_keeps_last r x).
Qed.

Lemma trimRunes_keeps_last (fuel : nat) (runes : list bytes) (x : bytes) (a : ascii) :
  Forall (Forall (fun b => isPlain b = false)) runes ->
  isPlain a = true ->
  exists x', trimRunes fuel runes (x ++ [a]) = x' ++ [a].
Proof.
  intros Hrunes Pa. revert x.
  induction fuel as [|fuel IH]; intros x; simpl; [by exists x|].
  destruct (dropRune runes (x ++ [a])) as [y|] eqn:E; [|by exists x].
  destruct (dropRune_keeps_last runes x y a Hrunes Pa E) as [x' ->].
  apply IH.
Qed.

Lemma spaceRunes_not_plain :
  Forall (Forall (fun b => isPlain b = false)) (map (@rev ascii) spaceRunes).
Proof. apply (proj1 (bool_decide_eq_true _)). vm_compute. reflexivity. Qed.

(** White space is trimmed around a visible first character, never
    through it. *)
Lemma TrimSpace_keeps_first (a : ascii) (t : bytes) :
  isPlain a = true -> exists t', TrimSpace (a :: t) = a :: t'.
Proof.
  intros Pa. unfold TrimSpace.
  assert (HL : TrimLeftSpace (a :: t) = a :: t)
    by (apply trimRunes_stop, dropRune_plain, Pa).
  rewrite HL. unfold TrimRightSpace.
  change (rev (a :: t)) with (rev t ++ [a]).
  destruct (trimRunes_keeps_last (length (a :: t)) _ (rev t) a
              spaceRunes_not_plain Pa) as [x' ->].
  exists (rev x'). by rewrite rev_app_distr.
Qed.

(** A first line that starts with a visible character other than the
    opening brace is taken for a header. *)
Lemma opensHeaderBlock_plain (a : ascii) (t : bytes) (e : eol) :
  isPlain a = true -> a <> "{"%char ->
  opensHeaderBlock (wireLine (a :: t, e)).
Proof.
  intros Pa Hbrace. unfold opensHeaderBlock, wireLine. cbn [fst snd].
  destruct (TrimSpace_keeps_first a (t ++ eolBytes e) Pa) as [t' Ht].
  change ((a :: t) ++ eolBytes e) with (a :: t ++ eolBytes e).
  rewrite Ht. split; [discriminate|].
  unfold HasPrefix. change (B "{") with ["{"%char]. cbn [stripPrefix].
  destruct (Ascii.eqb_spec "{" a) as [<-|_]; [done|reflexivity].
Qed.

(** *** Header texts built from their parts *)

Lemma isInline_spec (c : ascii) : isInline c = true -> c <> LF /\ c <> CR.
Proof. intros H. split; intros ->; discriminate H. Qed.

Lemma inline_headerText (h : bytes) :
  h <> [] -> Forall (fun c => isInline c = true) h -> headerText h.
Proof.
  intros Hne Hall. split.
  - intros Hin. rewrite Forall_forall in Hall.
    by destruct (isInline_spec _ (Hall _ Hin)).
  - destruct (exists_last Hne) as (m & z & ->).
    exists m, z. split; [reflexivity|].
    apply Forall_app in Hall as [_ Hz]. apply Forall_cons in Hz as [Hz _].
    by destruct (isInline_spec _ Hz).
Qed.

Lemma isPlain_isInline (c : ascii) : isPlain c = true -> isInline c = true.
Proof.
  unfold isPlain, isInline.
  rewrite !andb_true_iff, !negb_true_iff, !Z.leb_le, !Z.eqb_neq. lia.
Qed.

Lemma isPad_isInline (c : ascii) : isPad c = true -> isInline c = true.
Proof.
  unfold isPad, isInline.
  rewrite !andb_true_iff, !orb_true_iff, !negb_true_iff, !Z.eqb_eq, !Z.eqb_neq. lia.
Qed.

Lemma digitsOf_plain (fuel : nat) (n : Z) (acc : bytes) :
  0 <= n ->
  Forall (fun c => isPlain c = true) acc ->
  Forall (fun c => isPlain c = true) (digitsOf fuel n acc).
Proof.
  revert n acc. induction fuel as [|fuel IH]; intros n acc Hn Hacc; simpl; [exact Hacc|].
  assert (Hd : isPlain (digitChar (n mod 10)) = true)
    by (apply isPlain_digitChar, Z.mod_pos_bound; lia).
  destruct (n <? 10); [by constructor|].
  apply IH; [apply Z.div_pos; lia | by constructor].
Qed.

Lemma Itoa_plain (n : Z) : 0 <= n -> Forall (fun c => isPlain c = true) (Itoa n).
Proof.
  intros Hn. unfold Itoa. destruct (Z.ltb_spec n 0); [lia|].
  by apply digitsOf_plain.
Qed.

(** The Content-Length header is a header text. *)
Lemma contentLength_headerText (name sp1 sp2 : bytes) (n : Z) :
  EqualFold name (B "Content-Length") = true ->
  Forall (fun c => isPad c = true) sp1 ->
  Forall (fun c => isPad c = true) sp2 ->
  0 <= n ->
  headerText (name ++ B ":" ++ sp1 ++ Itoa n ++ sp2).
Proof.
  intros Hname H1 H2 Hn.
  destruct (EqualFold_nameChars _ _ Hname) as [Hall Hlen]; [repeat constructor|].
  apply inline_headerText.
  - destruct name; [discriminate Hlen|discriminate].
  - repeat apply Forall_app_2.
    + eapply Forall_impl; [exact Hall|]. intros c Hc.
      apply isPlain_isInline. unfold isNameChar in Hc.
      by apply andb_true_iff in Hc as [Hc _].
    + by repeat constructor.
    + eapply Forall_impl; [exact H1|]. apply isPad_isInline.
    + eapply Forall_impl; [apply Itoa_plain, Hn|]. apply isPlain_isInline.
    + eapply Forall_impl; [exact H2|]. apply isPad_isInline.
Qed.

Lemma contentLength_opens (name sp1 sp2 : bytes) (n : Z) (e : eol) :
  EqualFold name (B "Content-Length") = true ->
  Forall (fun c => isPad c = true) sp1 ->
  Forall (fun c => isPad c = true) sp2 ->
  0 <= n ->
  opensHeaderBlock (wireLine (name ++ B ":" ++ sp1 ++ Itoa n ++ sp2, e)).
Proof.
  intros Hname H1 H2 Hn. unfold opensHeaderBlock, wireLine. cbn [fst snd].
  destruct (contentLength_name name Hname) as [_ (a & z & m1 & m2 & Ha & _ & Pa & _)].
  destruct (Itoa_plainEnds n Hn) as (a' & z' & m1' & m2' & _ & Hz' & _ & Pz').
  assert (Hcore : plainEnds (name ++ B ":" ++ sp1 ++ Itoa n)).
  { exists a, z', (m1 ++ B ":" ++ sp1 ++ Itoa n), (name ++ B ":" ++ sp1 ++ m2').
    repeat split; [by rewrite Ha | | exact Pa | exact Pz'].
    rewrite Hz' at 1. by rewrite <- !app_assoc. }
  assert (Htrim : TrimSpace ((name ++ B ":" ++ sp1 ++ Itoa n ++ sp2) ++ eolBytes e)
                  = name ++ B ":" ++ sp1 ++ Itoa n).
  { rewrite <- (TrimSpace_core [] (name ++ B ":" ++ sp1 ++ Itoa n) (sp2 ++ eolBytes e));
      [by rewrite <- !app_assoc | constructor | | exact Hcore].
    apply Forall_app_2; [by apply isPad_isBlank|]. destruct e; by repeat constructor. }
  rewrite Htrim, Ha. split; [discriminate|].
  assert (Hfold : foldEq a "C" = true).
  { rewrite Ha in Hname. simpl in Hname. by apply andb_true_iff in Hname as [Hf _]. }
  clear - Hfold. each_byte a Hfold; reflexivity.
Qed.

(** C3, as the code has it.  A Content-Length frame: a header block
    whose first line, once the white space around it is trimmed, is not
    empty and does not start with an opening brace, in which the first
    header named Content-Length, in any casing, carries the numeral of
    the positive length [n] of the payload, with any other headers
    before and after it, the empty line, and then the payload.  When
    the runtime can allocate the [n] bytes, [readMessage] returns exactly
    the [n] bytes after the empty line and leaves what follows them. *)
Theorem readMessage_content_length
        (pre post : list (bytes * eol)) (name sp1 sp2 : bytes) (e sep : eol)
        (payload rest : bytes) :
  let n := Z.of_nat (length payload) in
  let hs := pre ++ (name ++ B ":" ++ sp1 ++ Itoa n ++ sp2, e) :: post in
  EqualFold name (B "Content-Length") = true ->
  Forall (fun c => isPad c = true) sp1 ->
  Forall (fun c => isPad c = true) sp2 ->
  0 < n <= maxInt ->
  allocates n = true ->
  Forall (fun h => headerText h.1 /\ unrelated h.1) pre ->
  Forall (fun h => headerText h.1) post ->
  (forall h, head pre = Some h -> opensHeaderBlock (wireLine h)) ->
  readMessage (headerBlock hs sep ++ payload ++ rest) = (Ok payload, rest).
Proof.
  intros n hs Hname H1 H2 Hn Halloc Hpre Hpost Hfirst.
  set (cl := name ++ B ":" ++ sp1 ++ Itoa n ++ sp2) in *.
  assert (Hcl : headerText cl) by (apply contentLength_headerText; [done..|lia]).
  assert (Hall : Forall (fun h : bytes * eol => headerText h.1) hs).
  { apply Forall_app_2; [|by constructor].
    eapply Forall_impl; [exact Hpre|]. by intros h [? _]. }
  assert (Hopen : forall h, head hs = Some h -> opensHeaderBlock (wireLine h)).
  { intros h. subst hs. destruct pre as [|h0 pre']; simpl.
    - intros [= <-]. apply contentLength_opens; [done..|lia].
    - intros [= <-]. by apply Hfirst. }
  assert (Hparse : parseContentLength (map fst hs) = Ok n).
  { subst hs. rewrite map_app. simpl map.
    rewrite parseContentLength_unrelated.
    - by apply parseContentLength_header.
    - apply Forall_map. eapply Forall_impl; [exact Hpre|]. by intros h [_ ?]. }
  destruct hs as [|h0 hs'] eqn:Ehs; [by destruct pre|].
  rewrite readMessage_headerBlock; [|by apply Hopen|exact Hall].
  rewrite Hparse, Halloc. subst n. rewrite Nat2Z.id, ReadFull_exact. reflexivity.
Qed.

(** *** Line-delimited frames *)

(** C4, as the code has it.  When the first line of the input, up to
    its line feed or up to the end of the input, starts with an opening
    brace once the white space around it is trimmed, [readMessage]
    returns that line without its line end and surrounding white space
    and reads no header; the line need not end in a line feed when the
    input ends with it.  An empty first line is an error and is not
    skipped. *)
Theorem readMessage_json_line (line term rest : bytes) :
  LF ∉ line ->
  term = [LF] \/ (term = [] /\ rest = []) ->
  HasPrefix (TrimSpace (line ++ term)) (B "{") = true ->
  readMessage (line ++ term ++ rest) = (Ok (TrimSpace (line ++ term)), rest).
Proof.
  intros Hlf Hterm Hbrace. unfold readMessage.
  destruct Hterm as [->|[-> ->]].
  - simpl app at 2. rewrite ReadString_line by exact Hlf.
    destruct (TrimSpace (line ++ [LF])); [discriminate Hbrace|].
    by rewrite Hbrace.
  - rewrite !app_nil_r in *. rewrite ReadString_eof by exact Hlf.
    destruct (TrimSpace line); [discriminate Hbrace|].
    by rewrite Hbrace.
Qed.

(** A line that begins with the brace and ends with a visible
    character comes back as it is, whatever white space surrounds
    it. *)
Lemma readMessage_json_line_verbatim (sp1 body sp2 term rest : bytes) :
  let core := "{"%char :: body in
  plainEnds core ->
  LF ∉ sp1 ++ core ++ sp2 ->
  Forall (fun c => isBlank c = true) sp1 ->
  Forall (fun c => isBlank c = true) sp2 ->
  term = [LF] \/ (term = [] /\ rest = []) ->
  readMessage ((sp1 ++ core ++ sp2) ++ term ++ rest) = (Ok core, rest).
Proof.
  intros core Hcore Hlf H1 H2 Hterm.
  assert (Htrim : TrimSpace ((sp1 ++ core ++ sp2) ++ term) = core).
  { replace ((sp1 ++ core ++ sp2) ++ term) with (sp1 ++ core ++ sp2 ++ term)
      by (by rewrite <- !app_assoc).
    apply TrimSpace_core; [done| |done].
    apply Forall_app_2; [done|].
    destruct Hterm as [->|[-> _]]; by repeat constructor. }
  unfold readMessage. destruct Hterm as [->|[-> ->]].
  - simpl app at 4. rewrite ReadString_line by exact Hlf.
    by rewrite Htrim.
  - rewrite !app_nil_r in *. rewrite ReadString_eof by exact Hlf.
    by rewrite Htrim.
Qed.

(** *** Header blocks without a usable Content-Length *)

Lemma parseContentLength_bad (hs : list bytes) :
  badContentLength hs ->
  exists e, parseContentLength hs = Err e /\ errors_Is_EOF e = false /\
            isRuntimeFailure e = false.
Proof.
  intros [Hall|(pre & name & val & post & -> & Hpre & Hcolon & Hname & Hval)].
  - exists errMissingContentLength. split; [|by split].
    rewrite <- (app_nil_r hs). by rewrite parseContentLength_unrelated.
  - exists (errInvalidContentLength (TrimSpace val)). split; [|by split].
    rewrite parseContentLength_unrelated by exact Hpre.
    simpl. rewrite SplitN2_sep by exact Hcolon. rewrite Hname. simpl.
    destruct (Atoi (TrimSpace val)) as [n|] eqn:E; [|reflexivity].
    specialize (Hval n eq_refl).
    destruct (Z.leb_spec n 0); [reflexivity|lia].
Qed.

(** *** Frames written by [writeMessage] *)

(** A frame is a header block of one header, and the payload. *)
Lemma frame_headerBlock (payload : bytes) :
  frame payload =
  headerBlock
    ([] ++ [(B "Content-Length" ++ B ":" ++ [" "%char]
               ++ Itoa (Z.of_nat (length payload)) ++ [], eolCRLF)])
    eolCRLF ++ payload.
Proof.
  unfold frame, headerBlock, wireLine. cbn [app concat map fst snd eolBytes].
  rewrite !app_nil_r. rewrite <- !app_assoc. reflexivity.
Qed.

(** What [writeMessage] sends for a payload that is not empty,
    [readMessage] reads back as that payload. *)
Lemma readMessage_frame (payload rest : bytes) :
  payload <> [] ->
  Z.of_nat (length payload) <= maxInt ->
  allocates (Z.of_nat (length payload)) = true ->
  readMessage (frame payload ++ rest) = (Ok payload, rest).
Proof.
  intros Hne Hmax Halloc.
  assert (Hn : 0 < Z.of_nat (length payload) <= maxInt).
  { split; [|exact Hmax]. destruct payload; [done|]. simpl length. lia. }
  assert (Hname : EqualFold (B "Content-Length") (B "Content-Length") = true)
    by reflexivity.
  assert (Hpad : Forall (fun c => isPad c = true) [" "%char])
    by (by repeat constructor).
  rewrite frame_headerBlock, <- app_assoc, (app_nil_l (A:=bytes * eol)).
  rewrite readMessage_headerBlock.
  - cbn [map fst]. rewrite parseContentLength_header by (done || by constructor).
    by rewrite Halloc, Nat2Z.id, ReadFull_exact.
  - apply contentLength_opens; (done || by constructor || lia).
  - apply Forall_cons. split; [|constructor]. cbn [fst].
    apply contentLength_headerText; (done || by constructor || lia).
Qed.

End FrameReader.

Section LineExamples.

Import Reference.

(** Two inputs whose first line that is not empty starts with the
    brace.  In the first an empty line comes before it, and [readMessage]
    fails on the empty line; in the second a space follows the closing
    brace, and the frame returned is not the line as it stands. *)
Lemma readMessage_line_counterexample :
  (firstNonEmptyLine (LF :: B "{}" ++ [LF]) = Some (B "{}") /\
   HasPrefix (B "{}") (B "{") = true /\
   readMessage (LF :: B "{}" ++ [LF]) = (Err errEmptyMessage, B "{}" ++ [LF])) /\
  (firstNonEmptyLine (B "{} " ++ [LF]) = Some (B "{} ") /\
   HasPrefix (B "{} ") (B "{") = true /\
   readMessage (B "{} " ++ [LF]) = (Ok (B "{}"), []) /\
   B "{}" <> B "{} ").
Proof. repeat split. discriminate. Qed.

(** White space after the closing brace is not part of the frame. *)
Example readMessage_trims_line :
  readMessage (B "{} " ++ [CR; LF]) = (Ok (B "{}"), []).
Proof. reflexivity. Qed.

End LineExamples.

(** * The server *)

Section ServerFacts.

Context {rt0 : Runtime} {env0 : Env}.

(** ** The loop always has fuel left *)

Lemma TrimSpace_nil : TrimSpace [] = [].
Proof. reflexivity. Qed.

(** A frame costs at least one byte of input. *)
Lemma readMessage_consumes (input payload rest : bytes) :
  readMessage input = (Ok payload, rest) -> (length rest < length input)%nat.
Proof.
  unfold readMessage.
  destruct (ReadString LF input) as [[line err] rest0] eqn:E.
  destruct (ReadString_length _ _ _ _ _ E) as (Hlen & Hne & Heof).
  destruct err as [e|].
  - destruct (TrimSpace line) eqn:Ht; [discriminate|].
    destruct (HasPrefix _ _); [|discriminate].
    intros [= _ <-].
    destruct line; [discriminate Ht|]. simpl in Hlen. lia.
  - assert (line <> []) by by apply Hne.
    assert (length rest0 < length input)%nat.
    { destruct line; [done|]. simpl in Hlen. lia. }
    destruct (TrimSpace line); [discriminate|].
    destruct (HasPrefix _ _); [intros [= _ <-]; lia|].
    destruct (readHeaders _ _ rest0) as [[hs|e] rest1] eqn:Eh; [|discriminate].
    apply readHeaders_rest in Eh.
    destruct (parseContentLength hs) as [n|e]; [|discriminate].
    destruct (allocates n); [|discriminate].
    unfold ReadFull. case_decide.
    + intros [= _ <-]. rewrite length_drop. lia.
    + destruct rest1; discriminate.
Qed.

Lemma serveLoop_fuel (f1 f2 : nat) (input out : bytes) (log : list apiCall)
      (ans : list (jsonRPCRequest * jsonRPCResponse)) :
  (length input < f1)%nat -> (length input < f2)%nat ->
  serveLoop f1 input out log ans = serveLoop f2 input out log ans.
Proof.
  revert f2 input out log ans.
  induction f1 as [|f1 IH]; intros f2 input out log ans H1 H2; [lia|].
  destruct f2 as [|f2]; [lia|]. simpl.
  destruct (readMessage input) as [[payload|e] rest] eqn:E; [|reflexivity].
  apply readMessage_consumes in E.
  destruct (unmarshalRequest payload) as [req|]; [|apply IH; lia].
  destruct (handleRequest req log) as [[|resp] log']; [apply IH; lia|].
  destruct (writeMessage resp); [apply IH; lia|reflexivity].
Qed.

(** One round of the loop. *)
Lemma serveLoop_S (fuel : nat) (input out : bytes) (log : list apiCall)
      (ans : list (jsonRPCRequest * jsonRPCResponse)) :
  serveLoop (S fuel) input out log ans =
  match readMessage input with
  | (Err e, _) =>
      if isRuntimeFailure e
      then {| returned := None; crashed := true;
              written := out; calls := log; answered := ans |}
      else if errors_Is_EOF e
      then {| returned := None; crashed := false;
              written := out; calls := log; answered := ans |}
      else {| returned := Some (errWrap "failed to read message" e);
              crashed := false; written := out; calls := log; answered := ans |}
  | (Ok payload, rest) =>
      match unmarshalRequest payload with
      | None => serveLoop fuel rest out log ans
      | Some req =>
          match handleRequest req log with
          | (NoReply, log') => serveLoop fuel rest out log' ans
          | (Reply resp, log') =>
              match writeMessage resp with
              | Ok sent =>
                  serveLoop fuel rest (out ++ sent) log' (ans ++ [(req, resp)])
              | Err e =>
                  {| returned := Some (errWrap "failed to write response" e);
                     crashed := false; written := out; calls := log'; answered := ans |}
              end
          end
      end
  end.
Proof. reflexivity. Qed.

(** [Serve] after its first frame goes on as [Serve] would on the rest
    of the input, from the state reached. *)
Lemma Serve_step (input : bytes) :
  Serve input =
  match readMessage input with
  | (Err e, _) =>
      if isRuntimeFailure e
      then {| returned := None; crashed := true;
              written := []; calls := []; answered := [] |}
      else if errors_Is_EOF e
      then {| returned := None; crashed := false;
              written := []; calls := []; answered := [] |}
      else {| returned := Some (errWrap "failed to read message" e);
              crashed := false; written := []; calls := []; answered := [] |}
  | (Ok payload, rest) =>
      match unmarshalRequest payload with
      | None => serveLoop (S (length rest)) rest [] [] []
      | Some req =>
          match handleRequest req [] with
          | (NoReply, log') => serveLoop (S (length rest)) rest [] log' []
          | (Reply resp, log') =>
              match writeMessage resp with
              | Ok sent => serveLoop (S (length rest)) rest sent log' [(req, resp)]
              | Err e =>
                  {| returned := Some (errWrap "failed to write response" e);
                     crashed := false; written := []; calls := log'; answered := [] |}
              end
          end
      end
  end.
Proof.
  unfold Serve. rewrite serveLoop_S.
  destruct (readMessage input) as [[payload|e] rest] eqn:E; [|reflexivity].
  apply readMessage_consumes in E.
  destruct (unmarshalRequest payload) as [req|]; [|apply serveLoop_fuel; lia].
  destruct (handleRequest req []) as [[|resp] log']; [apply serveLoop_fuel; lia|].
  destruct (writeMessage resp); [apply serveLoop_fuel; lia|reflexivity].
Qed.

(** ** Tool calls *)

(** They are the tools of the catalogue. *)
Lemma registeredTools_catalogue : map tool_Name toolDefinitions = registeredTools.
Proof. reflexivity. Qed.

(** C2.  A call of a registered tool that lacks a required argument
    ([akuma.query] without [prompt] or [dialect], [akuma.explain] without
    [sql], [akuma.schema] without [tables], [sozo.generate] without
    [records] or without both [schema] and [schemaName]) gets no RPC
    error: [handleToolCall] returns a result whose [isError] is true and
    whose content is a text that is not empty.  The backend is not
    called. *)
Theorem handleToolCall_missing_argument (raw : bytes) (params : toolsCallParams)
        (log : list apiCall) :
  unmarshalToolsCallParams raw = inr params ->
  missingRequired params ->
  exists msg : string,
    msg <> ""%string /\
    handleToolCall raw log = ((toolFailure msg, None), log).
Proof.
  intros Hdec Hmiss. unfold handleToolCall. rewrite Hdec.
  destruct params as [name args]. unfold missingRequired in Hmiss. simpl in *.
  destruct Hmiss as [[-> H]|[[-> H]|[[-> H]|[-> H]]]]; simpl.
  - unfold bind, callAkumaQuery.
    destruct (isBlankString (stringArg args "dialect")) eqn:Ed.
    + exists "dialect is required"%string. split; [discriminate|reflexivity].
    + destruct H as [H|H].
      * unfold stringArg at 1. rewrite H.
        exists "prompt is required"%string. split; [discriminate|reflexivity].
      * unfold stringArg in Ed. rewrite H in Ed. discriminate Ed.
  - unfold bind, callAkumaExplain, stringArg. rewrite H.
    exists "sql is required"%string. split; [discriminate|reflexivity].
  - unfold bind, callAkumaSchema. rewrite H.
    exists "tables is required"%string. split; [discriminate|reflexivity].
  - unfold bind, callSozoGenerate.
    destruct (args !! "records") as [records|] eqn:Er.
    + destruct H as [H|[H1 H2]]; [discriminate|]. rewrite H1, H2.
      exists "schema or schemaName is required"%string.
      split; [discriminate|reflexivity].
    + exists "records is required"%string. split; [discriminate|reflexivity].
Qed.

(** C8.  A call that names none of the seven registered tools gets no
    result and the RPC error -32602 whose data is the name; the backend
    is not called. *)
Theorem handleToolCall_unknown_tool (raw : bytes) (params : toolsCallParams)
        (log : list apiCall) :
  unmarshalToolsCallParams raw = inr params ->
  params_Name params ∉ registeredTools ->
  handleToolCall raw log =
    ((VNil, Some {| err_Code := -32602;
                    err_Message := "unknown tool";
                    err_Data := VString (params_Name params) |}), log).
Proof.
  intros Hdec Hnot. unfold handleToolCall. rewrite Hdec.
  unfold registeredTools in Hnot.
  repeat (apply not_elem_of_cons in Hnot as [?%String.eqb_neq Hnot]).
  by repeat match goal with H : String.eqb _ _ = false |- _ => rewrite H; clear H end.
Qed.

Lemma stringArg_not_string (args : gmap string value) (key : string) (v : value) :
  isString v = false ->
  stringArg (<[key := v]> args) key = stringArg (delete key args) key.
Proof.
  intros Hv. unfold stringArg. rewrite lookup_insert_eq, lookup_delete_eq.
  by destruct v.
Qed.

Lemma stringArg_other (args : gmap string value) (key key' : string) (v : value) :
  key <> key' ->
  stringArg (<[key := v]> args) key' = stringArg args key' /\
  stringArg (delete key args) key' = stringArg args key'.
Proof.
  intros Hne. unfold stringArg.
  by rewrite lookup_insert_ne, lookup_delete_ne.
Qed.

(** C10.  An argument of [akuma.query] or [akuma.explain] that is
    present but not a string counts as absent: the call has the outcome
    of the call without the argument, which is the error that names the
    first required argument found blank ([dialect] before [prompt]), and
    the backend is not called. *)
Theorem callAkuma_non_string_argument (args : gmap string value) (v : value)
        (log : list apiCall) :
  isString v = false ->
  (callAkumaQuery (<["dialect" := v]> args) log
     = callAkumaQuery (delete "dialect" args) log /\
   callAkumaQuery (<["dialect" := v]> args) log
     = (CallErr "dialect is required", log)) /\
  (callAkumaQuery (<["prompt" := v]> args) log
     = callAkumaQuery (delete "prompt" args) log /\
   callAkumaQuery (<["prompt" := v]> args) log
     = (CallErr (if isBlankString (stringArg args "dialect")
                 then "dialect is required" else "prompt is required"), log)) /\
  (callAkumaExplain (<["sql" := v]> args) log
     = callAkumaExplain (delete "sql" args) log /\
   callAkumaExplain (<["sql" := v]> args) log = (CallErr "sql is required", log)).
Proof.
  intros Hv.
  assert (Hblank : forall key, stringArg (delete key args) key = ""%string).
  { intros key. unfold stringArg. by rewrite lookup_delete_eq. }
  repeat split.
  - unfold callAkumaQuery.
    by rewrite (stringArg_not_string _ "dialect" v), Hblank.
  - unfold callAkumaQuery.
    by rewrite (stringArg_not_string _ "dialect" v), Hblank.
  - unfold callAkumaQuery.
    rewrite (stringArg_not_string _ "prompt" v), Hblank by exact Hv.
    destruct (stringArg_other args "prompt" "dialect" v) as [-> ->]; [done|].
    by destruct (isBlankString (stringArg args "dialect")).
  - unfold callAkumaQuery.
    rewrite (stringArg_not_string _ "prompt" v), Hblank by exact Hv.
    destruct (stringArg_other args "prompt" "dialect" v) as [-> _]; [done|].
    by destruct (isBlankString (stringArg args "dialect")).
  - unfold callAkumaExplain.
    by rewrite (stringArg_not_string _ "sql" v), Hblank.
  - unfold callAkumaExplain.
    by rewrite (stringArg_not_string _ "sql" v), Hblank.
Qed.

(** ** The loop *)

(** C1.  A round of the loop on a request decoded without an
    identifier: whatever the method, and whether or not it ends in an
    RPC error, nothing is written; the loop goes on to the rest of the
    input with its output as it was. *)
Theorem Serve_writes_nothing_without_id
        (fuel : nat) (input out : bytes) (log : list apiCall)
        (ans : list (jsonRPCRequest * jsonRPCResponse))
        (payload rest : bytes) (req : jsonRPCRequest) :
  readMessage input = (Ok payload, rest) ->
  unmarshalRequest payload = Some req ->
  req_ID req = [] ->
  (handleRequest req log).1 = NoReply /\
  serveLoop (S fuel) input out log ans =
    serveLoop fuel rest out (handleRequest req log).2 ans.
Proof.
  intros Hread Hdec Hid.
  assert (H : (handleRequest req log).1 = NoReply).
  { unfold handleRequest.
    destruct (_ || _); [reflexivity|].
    unfold bind. destruct (dispatch req log) as [[result rpcErr] log'].
    by rewrite Hid. }
  split; [exact H|].
  rewrite serveLoop_S, Hread, Hdec.
  destruct (handleRequest req log) as [r log']. simpl in *. by subst r.
Qed.

Lemma handleToolCall_shape (raw : bytes) (log : list apiCall) :
  (exists m, (handleToolCall raw log).1.1 = VMap m /\
             (handleToolCall raw log).1.2 = None) \/
  ((handleToolCall raw log).1.1 = VNil /\ is_Some (handleToolCall raw log).1.2).
Proof.
  unfold handleToolCall.
  destruct (unmarshalToolsCallParams raw) as [msg|[name args]]; simpl.
  { right. by split. }
  assert (Hfinish : forall h : M callResult,
            exists m, (bind h (fun r => ret (toolResult r)) log).1.1 = VMap m /\
                      (bind h (fun r => ret (toolResult r)) log).1.2 = None).
  { intros h. unfold bind. destruct (h log) as [[data|msg] log']; simpl; by eexists. }
  repeat (destruct (String.eqb name _); [left; apply Hfinish|]).
  right. by split.
Qed.

Lemma dispatch_shape (req : jsonRPCRequest) (log : list apiCall) :
  (exists m, (dispatch req log).1.1 = VMap m /\ (dispatch req log).1.2 = None) \/
  ((dispatch req log).1.1 = VNil /\ is_Some (dispatch req log).1.2).
Proof.
  unfold dispatch.
  repeat (destruct (String.eqb (req_Method req) _);
          [first [apply handleToolCall_shape | left; by eexists]|]).
  right. by split.
Qed.

Lemma handleRequest_reply (req : jsonRPCRequest) (log log' : list apiCall)
      (resp : jsonRPCResponse) :
  handleRequest req log = (Reply resp, log') ->
  req_ID req <> [] /\ exactlyOne (responseWire resp).
Proof.
  unfold handleRequest. destruct (_ || _); [discriminate|].
  unfold bind. pose proof (dispatch_shape req log) as Hshape.
  destruct (dispatch req log) as [[result rpcErr] log0]. simpl in Hshape.
  destruct (req_ID req) as [|c id]; [discriminate|].
  intros [= <- _]. split; [discriminate|].
  unfold exactlyOne. simpl.
  destruct Hshape as [(m & -> & ->)|[-> [e ->]]]; [left|right]; by split.
Qed.

Lemma optional_names (name : string) (o : option value) (fs : list (string * bytes)) :
  optional name o = Ok fs -> map fst fs = present name o.
Proof.
  destruct o as [v|]; simpl.
  - destruct (marshalValue v); simpl; [|discriminate]. by intros [= <-].
  - by intros [= <-].
Qed.

Lemma responseFields_names (w : wireResponse) (fs : list (string * bytes)) :
  responseFields w = Ok fs -> map fst fs = memberNames w.
Proof.
  unfold responseFields, memberNames.
  destruct (marshalValue (VString (w_jsonrpc w))) as [ver|]; simpl; [|discriminate].
  destruct (optional "id" (w_id w)) as [id|] eqn:Eid; simpl; [|discriminate].
  destruct (optional "result" (w_result w)) as [res|] eqn:Eres; simpl; [|discriminate].
  apply optional_names in Eid, Eres.
  destruct (w_error w) as [we|]; simpl.
  - destruct (errorFields we); simpl; [|discriminate].
    intros [= <-]. simpl. by rewrite !map_app, Eid, Eres.
  - intros [= <-]. simpl. by rewrite !map_app, Eid, Eres.
Qed.

Lemma serveLoop_invariant (fuel : nat) (input out : bytes) (log : list apiCall)
      (ans : list (jsonRPCRequest * jsonRPCResponse)) :
  outputOf ans out ->
  Forall soundExchange ans ->
  outputOf (answered (serveLoop fuel input out log ans))
           (written (serveLoop fuel input out log ans)) /\
  Forall soundExchange (answered (serveLoop fuel input out log ans)).
Proof.
  revert input out log ans.
  induction fuel as [|fuel IH]; intros input out log ans Hout Hans; [by split|].
  rewrite serveLoop_S.
  destruct (readMessage input) as [[payload|e] rest].
  2: { destruct (isRuntimeFailure e), (errors_Is_EOF e); by split. }
  destruct (unmarshalRequest payload) as [req|]; [|by apply IH].
  destruct (handleRequest req log) as [[|resp] log'] eqn:Eh; [by apply IH|].
  destruct (writeMessage resp) as [sent|e] eqn:Ew; [|by split].
  apply IH.
  - destruct Hout as (frames & Hframes & ->).
    exists (frames ++ [sent]). split.
    + apply Forall2_app; [exact Hframes|]. by repeat constructor.
    + rewrite concat_app. simpl. by rewrite app_nil_r.
  - apply Forall_app_2; [exact Hans|].
    constructor; [|constructor]. by apply (handleRequest_reply req log log').
Qed.

(** C5.  Whatever the input, the output of [Serve] is made of the
    frames of its responses; each response answers a request that has an
    identifier, and has either a result and no error, or an error and no
    result. *)
Theorem Serve_responses_result_xor_error (input : bytes) :
  outputOf (answered (Serve input)) (written (Serve input)) /\
  Forall (fun x => req_ID x.1 <> [] /\
                   exactlyOne (responseWire x.2) /\
                   forall fs, responseFields (responseWire x.2) = Ok fs ->
                     (("result"%string ∈ map fst fs) /\ ("error"%string ∉ map fst fs)) \/
                     (("result"%string ∉ map fst fs) /\ ("error"%string ∈ map fst fs)))
         (answered (Serve input)).
Proof.
  destruct (serveLoop_invariant (S (length input)) input [] [] []) as [Hout Hall].
  { exists []. by split; [constructor|]. }
  { constructor. }
  split; [exact Hout|].
  eapply Forall_impl; [exact Hall|].
  intros [req resp] [Hid Hone]. simpl in *.
  split; [exact Hid|]. split; [exact Hone|].
  intros fs Hfs. apply responseFields_names in Hfs. rewrite Hfs.
  unfold memberNames.
  destruct Hone as [[[r Hr] He]|[Hr [e He]]]; rewrite Hr, He;
    [left|right]; destruct (w_id (responseWire resp)); simpl; split;
    first [ by repeat constructor
          | rewrite !not_elem_of_cons; repeat split;
            first [discriminate | apply not_elem_of_nil] ].
Qed.

(** C9, as the code has it.  A request whose identifier is the JSON
    value [null] is not dropped for want of an identifier: unless its
    method is one of the two notification methods, which are never
    answered, the loop answers it.  The identifier of the response is
    [nil], so no [id] member is written. *)
Theorem Serve_answers_null_id (req : jsonRPCRequest) (log : list apiCall) :
  req_ID req = B "null" ->
  unmarshalValue (B "null") = Some VNil ->
  req_Method req <> "notifications/initialized"%string ->
  req_Method req <> "initialized"%string ->
  exists resp log',
    handleRequest req log = (Reply resp, log') /\
    resp_ID resp = VNil /\
    w_id (responseWire resp) = None /\
    (forall fs, responseFields (responseWire resp) = Ok fs ->
                "id"%string ∉ map fst fs) /\
    (forall fuel input out ans payload rest sent,
       readMessage input = (Ok payload, rest) ->
       unmarshalRequest payload = Some req ->
       writeMessage resp = Ok sent ->
       serveLoop (S fuel) input out log ans =
         serveLoop fuel rest (out ++ sent) log' (ans ++ [(req, resp)])).
Proof.
  intros Hid Hnull Hm1 Hm2.
  destruct (dispatch req log) as [[result rpcErr] log'] eqn:Ed.
  set (resp := {| resp_JSONRPC := "2.0"; resp_ID := VNil;
                  resp_Result := result; resp_Error := rpcErr |}).
  assert (Hh : handleRequest req log = (Reply resp, log')).
  { unfold handleRequest.
    apply String.eqb_neq in Hm1, Hm2. rewrite Hm1, Hm2. simpl.
    unfold bind. rewrite Ed, Hid, Hnull. reflexivity. }
  exists resp, log'. split; [exact Hh|]. split; [reflexivity|]. split; [reflexivity|].
  split.
  - intros fs Hfs. apply responseFields_names in Hfs. rewrite Hfs.
    unfold memberNames. simpl.
    destruct (omitempty result), (errorWire <$> rpcErr); simpl;
      rewrite !not_elem_of_cons; repeat split;
      first [discriminate | apply not_elem_of_nil].
  - intros fuel input out ans payload rest sent Hread Hdec Hw.
    by rewrite serveLoop_S, Hread, Hdec, Hh, Hw.
Qed.

(** C7.  A header block in which no header is named Content-Length,
    or the first one that is has a value that is not the numeral of a
    positive integer: [readMessage] fails with an error that is not the
    end of the input, and the loop stops there and returns that error,
    wrapped; it writes nothing more and reads nothing more. *)
Theorem Serve_stops_on_bad_content_length
        (h : bytes * eol) (hs : list (bytes * eol)) (sep : eol) (rest : bytes)
        (fuel : nat) (out : bytes) (log : list apiCall)
        (ans : list (jsonRPCRequest * jsonRPCResponse)) :
  opensHeaderBlock (wireLine h) ->
  Forall (fun h => headerText h.1) (h :: hs) ->
  badContentLength (map fst (h :: hs)) ->
  exists e,
    readMessage (headerBlock (h :: hs) sep ++ rest) = (Err e, rest) /\
    errors_Is_EOF e = false /\
    serveLoop (S fuel) (headerBlock (h :: hs) sep ++ rest) out log ans =
      {| returned := Some (errWrap "failed to read message" e);
         crashed := false; written := out; calls := log; answered := ans |}.
Proof.
  intros Hopen Hall Hbad.
  destruct (parseContentLength_bad _ Hbad) as (e & Hparse & Heof & Hrun).
  assert (Hread : readMessage (headerBlock (h :: hs) sep ++ rest) = (Err e, rest)).
  { rewrite readMessage_headerBlock by assumption. by rewrite Hparse. }
  exists e. split; [exact Hread|]. split; [exact Heof|].
  by rewrite serveLoop_S, Hread, Hrun, Heof.
Qed.

Lemma Marshal_nonempty (response : jsonRPCResponse) (payload : bytes) :
  Marshal response = Ok payload -> payload <> [].
Proof.
  unfold Marshal, renderResponse.
  destruct (responseFields _); simpl; [|discriminate].
  by intros [= <-].
Qed.

Lemma orNil_omitempty (v : value) : orNil (omitempty v) = v.
Proof. by destruct v. Qed.

(** Dropping the [nil] fields and reading the absent members as [nil]
    gives the response back. *)
Lemma responseOfWire_responseWire (response : jsonRPCResponse) :
  responseOfWire (responseWire response) = response.
Proof.
  destruct response as [ver id res [[c msg data]|]];
    unfold responseOfWire, responseWire, errorOfWire, errorWire; simpl;
    by rewrite !orNil_omitempty.
Qed.

End ServerFacts.

(** * The scenarios of the specification, run *)

Section Scenarios.

Import Reference.

(** A ping on a line of its own is answered with an empty result in a
    Content-Length frame. *)
Example ping_scenario :
  written (Serve (json "{'jsonrpc':'2.0','id':1,'method':'ping'}" ++ [LF]))
  = B "Content-Length: 36" ++ [CR; LF; CR; LF]
      ++ json "{'jsonrpc':'2.0','id':1,'result':{}}".
Proof. vm_compute. reflexivity. Qed.

(** [akuma.query] without a prompt, in a Content-Length frame: a
    result with the failure flag, and no call of the backend. *)
Example missing_prompt_scenario :
  let body := json "{'id':2,'method':'tools/call','params':{'name':'akuma.query','arguments':{'dialect':'postgres'}}}" in
  let run := Serve (frame body) in
  calls run = [] /\
  map (fun x => resp_Result x.2) (answered run)
    = [toolFailure "prompt is required"] /\
  written run
    = frame (json "{'jsonrpc':'2.0','id':2,'result':{'content':[{'text':'prompt is required','type':'text'}],'isError':true}}").
Proof. vm_compute. repeat split. Qed.

(** A Content-Length that is not a number stops the loop with an
    error; the request that follows is never read. *)
Example bad_length_scenario :
  Serve (B "Content-Length: nope" ++ [CR; LF; CR; LF]
           ++ json "{'jsonrpc':'2.0','id':1,'method':'ping'}" ++ [LF])
  = {| returned := Some (errWrap "failed to read message"
                                 (errInvalidContentLength (B "nope")));
       crashed := false; written := []; calls := []; answered := [] |}.
Proof. vm_compute. reflexivity. Qed.

(** A frame whose payload is missing altogether: [io.ReadFull] reports
    [io.EOF], which [errors.Is] still finds under the wrapping, and
    [Serve] returns [nil]; with part of the payload there it is
    [io.ErrUnexpectedEOF] and [Serve] returns the error. *)
Example truncated_payload_scenario :
  returned (Serve (B "Content-Length: 5" ++ [CR; LF; CR; LF])) = None /\
  returned (Serve (B "Content-Length: 5" ++ [CR; LF; CR; LF] ++ B "{}"))
  = Some (errWrap "failed to read message"
            (errWrap "failed to read payload" io_ErrUnexpectedEOF)).
Proof. vm_compute. split; reflexivity. Qed.

End Scenarios.

(** * The theorems at concrete messages *)

Section Instances.

Import Reference.

Lemma Serve_writes_nothing_without_id_witness :
  let req := {| req_JSONRPC := "2.0"; req_ID := [];
                req_Method := "no/such"; req_Params := [] |} in
  (readMessage (unknownNotification ++ [LF]) = (Ok unknownNotification, []) /\
   unmarshalRequest unknownNotification = Some req /\
   req_ID req = []) /\
  ((handleRequest req []).1 = NoReply /\
   serveLoop 1 (unknownNotification ++ [LF]) [] [] [] =
     serveLoop 0 [] [] (handleRequest req []).2 []).
Proof.
  intros req.
  assert (H1 : readMessage (unknownNotification ++ [LF]) = (Ok unknownNotification, []))
    by compute_hyp.
  assert (H2 : unmarshalRequest unknownNotification = Some req) by compute_hyp.
  assert (H3 : req_ID req = []) by reflexivity.
  split; [exact (conj H1 (conj H2 H3))|].
  exact (Serve_writes_nothing_without_id 0 (unknownNotification ++ [LF]) [] [] []
           unknownNotification [] req H1 H2 H3).
Defined.

Lemma handleToolCall_missing_argument_witness :
  let params := {| params_Name := "akuma.query";
                   params_Arguments := {[ "dialect" := VString "postgres" ]} |} in
  (unmarshalToolsCallParams queryWithoutPrompt = inr params /\
   missingRequired params) /\
  exists msg : string,
    msg <> ""%string /\
    handleToolCall queryWithoutPrompt [] = ((toolFailure msg, None), []).
Proof.
  intros params.
  assert (H1 : unmarshalToolsCallParams queryWithoutPrompt = inr params)
    by compute_hyp.
  assert (H2 : missingRequired params).
  { left. split; [reflexivity|]. left. reflexivity. }
  split; [exact (conj H1 H2)|].
  exact (handleToolCall_missing_argument
           queryWithoutPrompt params [] H1 H2).
Defined.

Lemma handleToolCall_unknown_tool_witness :
  let params := {| params_Name := "nope.tool"; params_Arguments := ∅ |} in
  (unmarshalToolsCallParams unknownToolCall = inr params /\
   params_Name params ∉ registeredTools) /\
  handleToolCall unknownToolCall [] =
    ((VNil, Some {| err_Code := -32602;
                    err_Message := "unknown tool";
                    err_Data := VString "nope.tool" |}), []).
Proof.
  intros params.
  assert (H1 : unmarshalToolsCallParams unknownToolCall = inr params)
    by compute_hyp.
  assert (H2 : params_Name params ∉ registeredTools).
  { decide_not. }
  split; [exact (conj H1 H2)|].
  exact (handleToolCall_unknown_tool
           unknownToolCall params [] H1 H2).
Defined.

Lemma callAkuma_non_string_argument_witness :
  let args : gmap string value := {[ "dialect" := VString "postgres" ]} in
  let v := VNumber 42%float in
  isString v = false /\
  ((callAkumaQuery (<["dialect" := v]> args) []
      = callAkumaQuery (delete "dialect" args) [] /\
    callAkumaQuery (<["dialect" := v]> args) []
      = (CallErr "dialect is required", [])) /\
   (callAkumaQuery (<["prompt" := v]> args) []
      = callAkumaQuery (delete "prompt" args) [] /\
    callAkumaQuery (<["prompt" := v]> args) []
      = (CallErr (if isBlankString (stringArg args "dialect")
                  then "dialect is required" else "prompt is required"), [])) /\
   (callAkumaExplain (<["sql" := v]> args) []
      = callAkumaExplain (delete "sql" args) [] /\
    callAkumaExplain (<["sql" := v]> args) []
      = (CallErr "sql is required", []))).
Proof.
  intros args v.
  assert (H : isString v = false) by reflexivity.
  split; [exact H|].
  exact (callAkuma_non_string_argument args v [] H).
Defined.

(** A request whose identifier is [null]. *)
Lemma Serve_answers_null_id_witness :
  let req := {| req_JSONRPC := "2.0"; req_ID := B "null";
                req_Method := "ping"; req_Params := [] |} in
  (unmarshalRequest (json "{'jsonrpc':'2.0','id':null,'method':'ping'}") = Some req /\
   unmarshalValue (B "null") = Some VNil) /\
  exists resp log',
    handleRequest req [] = (Reply resp, log') /\
    resp_ID resp = VNil /\
    w_id (responseWire resp) = None /\
    (forall fs, responseFields (responseWire resp) = Ok fs ->
                "id"%string ∉ map fst fs) /\
    (forall fuel input out ans payload rest sent,
       readMessage input = (Ok payload, rest) ->
       unmarshalRequest payload = Some req ->
       writeMessage resp = Ok sent ->
       serveLoop (S fuel) input out [] ans =
         serveLoop fuel rest (out ++ sent) log' (ans ++ [(req, resp)])).
Proof.
  intros req.
  assert (H0 : unmarshalRequest (json "{'jsonrpc':'2.0','id':null,'method':'ping'}")
               = Some req) by compute_hyp.
  assert (H1 : req_ID req = B "null") by reflexivity.
  assert (H2 : unmarshalValue (B "null") = Some VNil) by compute_hyp.
  assert (H3 : req_Method req <> "notifications/initialized"%string) by discriminate.
  assert (H4 : req_Method req <> "initialized"%string) by discriminate.
  split; [exact (conj H0 H2)|].
  exact (Serve_answers_null_id req [] H1 H2 H3 H4).
Defined.

(** The same identifier on the notification method [initialized]: the
    request is decoded with the identifier [null], and nothing is
    written for it. *)
Lemma Serve_null_id_initialized_unanswered :
  unmarshalRequest (json "{'jsonrpc':'2.0','id':null,'method':'initialized'}")
    = Some {| req_JSONRPC := "2.0"; req_ID := B "null";
              req_Method := "initialized"; req_Params := [] |} /\
  unmarshalValue (B "null") = Some VNil /\
  Serve (json "{'jsonrpc':'2.0','id':null,'method':'initialized'}" ++ [LF])
    = {| returned := None; crashed := false; written := []; calls := []; answered := [] |}.
Proof. vm_compute. repeat split. Qed.

(** The frame of the scenario: a length that is not a number. *)
Lemma Serve_stops_on_bad_content_length_witness :
  let h := (B "Content-Length: nope", eolCRLF) in
  (opensHeaderBlock (wireLine h) /\
   Forall (fun h : bytes * eol => headerText h.1) [h] /\
   badContentLength (map fst [h])) /\
  exists e,
    readMessage (headerBlock [h] eolCRLF ++ []) = (Err e, []) /\
    errors_Is_EOF e = false /\
    serveLoop 1 (headerBlock [h] eolCRLF ++ []) [] [] [] =
      {| returned := Some (errWrap "failed to read message" e);
         crashed := false; written := []; calls := []; answered := [] |}.
Proof.
  intros h.
  assert (H1 : opensHeaderBlock (wireLine h)).
  { split; vm_compute; [discriminate|reflexivity]. }
  assert (H2 : Forall (fun h : bytes * eol => headerText h.1) [h]).
  { constructor; [|constructor]. apply inline_headerText; [discriminate|].
    by repeat constructor. }
  assert (H3 : badContentLength (map fst [h])).
  { right. exists [], (B "Content-Length"), (B " nope"), [].
    split; [reflexivity|]. split; [constructor|]. split.
    - decide_not.
    - split; [reflexivity|]. intros n Hn. vm_compute in Hn. discriminate Hn. }
  split; [exact (conj H1 (conj H2 H3))|].
  exact (Serve_stops_on_bad_content_length h [] eolCRLF [] 0 [] [] [] H1 H2 H3).
Defined.

(** A frame with a header before the length and one after it, the
    name of the length header in another casing. *)
Lemma readMessage_content_length_witness :
  let pre := [(B "X-Trace: abc", eolLF)] in
  let post := [(B "Accept: {", eolCRLF)] in
  let name := B "content-LENGTH" in
  let payload := B "hello" in
  (EqualFold name (B "Content-Length") = true /\
   Forall (fun c => isPad c = true) [" "%char] /\
   0 < Z.of_nat (length payload) <= maxInt /\
   allocates (Z.of_nat (length payload)) = true /\
   Forall (fun h : bytes * eol => headerText h.1 /\ unrelated h.1) pre /\
   Forall (fun h : bytes * eol => headerText h.1) post /\
   (forall h, head pre = Some h -> opensHeaderBlock (wireLine h))) /\
  readMessage
    (headerBlock (pre ++ (name ++ B ":" ++ [" "%char]
                            ++ Itoa (Z.of_nat (length payload)) ++ [" "%char],
                          eolCRLF) :: post) eolCRLF
       ++ payload ++ B "rest")
  = (Ok payload, B "rest").
Proof.
  intros pre post name payload.
  assert (H1 : EqualFold name (B "Content-Length") = true) by reflexivity.
  assert (H2 : Forall (fun c => isPad c = true) [" "%char]) by by repeat constructor.
  assert (H3 : 0 < Z.of_nat (length payload) <= maxInt) by (vm_compute; by split).
  assert (Ha : allocates (Z.of_nat (length payload)) = true) by reflexivity.
  assert (H4 : Forall (fun h : bytes * eol => headerText h.1 /\ unrelated h.1) pre).
  { constructor; [|constructor]. split; [|reflexivity].
    apply inline_headerText; [discriminate|]. by repeat constructor. }
  assert (H5 : Forall (fun h : bytes * eol => headerText h.1) post).
  { constructor; [|constructor].
    apply inline_headerText; [discriminate|]. by repeat constructor. }
  assert (H6 : forall h, head pre = Some h -> opensHeaderBlock (wireLine h)).
  { intros h [= <-]. split; vm_compute; [discriminate|reflexivity]. }
  split; [exact (conj H1 (conj H2 (conj H3 (conj Ha (conj H4 (conj H5 H6))))))|].
  exact (readMessage_content_length pre post name [" "%char] [" "%char]
           eolCRLF eolCRLF payload (B "rest") H1 H2 H2 H3 Ha H4 H5 H6).
Defined.

(** A header block whose first line does not start with the brace, but
    does once the space before it is trimmed.  The block has the header
    Content-Length: 5, the empty line and five bytes after it; what
    [readMessage] returns is the first line, trimmed, and not the five
    bytes. *)
Lemma readMessage_content_length_counterexample :
  let first := B " {X-Trace: 1" in
  let block := [(first, eolCRLF); (B "Content-Length: 5", eolCRLF)] in
  HasPrefix first (B "{") = false /\
  parseContentLength (map fst block) = Ok 5 /\
  readMessage (headerBlock block eolCRLF ++ B "hello")
    = (Ok (B "{X-Trace: 1"),
       B "Content-Length: 5" ++ [CR; LF; CR; LF] ++ B "hello") /\
  B "{X-Trace: 1" <> B "hello".
Proof. repeat split. discriminate. Qed.

(** A line with white space around the object and a carriage return
    before the line feed. *)
Lemma readMessage_json_line_witness :
  let line := json " {'a':1} " ++ [CR] in
  ((LF ∉ line) /\
   ([LF] = [LF] \/ ([LF] = [] /\ B "next" = [])) /\
   HasPrefix (TrimSpace (line ++ [LF])) (B "{") = true) /\
  readMessage (line ++ [LF] ++ B "next") = (Ok (TrimSpace (line ++ [LF])), B "next").
Proof.
  intros line.
  assert (H1 : LF ∉ line).
  { decide_not. }
  assert (H2 : [LF] = [LF] \/ ([LF] = [] /\ B "next" = [])) by by left.
  assert (H3 : HasPrefix (TrimSpace (line ++ [LF])) (B "{") = true) by reflexivity.
  split; [exact (conj H1 (conj H2 H3))|].
  exact (readMessage_json_line line [LF] (B "next") H1 H2 H3).
Defined.

End Instances.

(** * More on the transport *)

Section TransportFacts.

Context {rt0 : Runtime}.

(** ** [parseContentLength] *)

Lemma Atoi_range (s : bytes) (v : Z) : Atoi s = Some v -> minInt <= v <= maxInt.
Proof.
  unfold Atoi.
  destruct (match s with
            | [] => (false, s)
            | c :: r =>
                if Ascii.eqb c "-" then (true, r)
                else if Ascii.eqb c "+" then (false, r) else (false, s)
            end) as [neg ds].
  destruct ds; [discriminate|].
  destruct (parseDigits 0 _) as [u|]; [|discriminate].
  destruct (andb _ _) eqn:E; [|discriminate].
  intros [= <-]. apply andb_true_iff in E as [E1 E2].
  apply Z.leb_le in E1, E2. by split.
Qed.

Lemma parseContentLength_range (headers : list bytes) (n : Z) :
  parseContentLength headers = Ok n -> 0 < n <= maxInt.
Proof.
  induction headers as [|h hs IH]; simpl; [discriminate|].
  destruct (SplitN2 h ":") as [|a [|b [|c l]]]; try exact IH.
  destruct (negb _); [exact IH|].
  destruct (Atoi (TrimSpace b)) as [v|] eqn:E; [|discriminate].
  destruct (Z.leb_spec v 0); [discriminate|].
  intros [= <-]. split; [lia|]. by destruct (Atoi_range _ _ E).
Qed.

(** X1.  A length that [parseContentLength] accepts is positive and
    fits an [int]: [make([]byte, length)] in [readMessage] is never
    asked for an empty or a negative size. *)
Theorem parseContentLength_positive (headers : list bytes) (n : Z) :
  parseContentLength headers = Ok n -> 0 < n <= maxInt.
Proof. apply parseContentLength_range. Qed.

Lemma parseContentLength_positive_witness :
  parseContentLength [B "Content-Length: 12"] = Ok 12 /\ 0 < 12 <= maxInt.
Proof.
  assert (H : parseContentLength [B "Content-Length: 12"] = Ok 12) by reflexivity.
  exact (conj H (parseContentLength_positive _ _ H)).
Defined.

Lemma parseContentLength_related (h name val : bytes) (post : list bytes) :
  SplitN2 h ":" = [name; val] ->
  EqualFold (TrimSpace name) (B "Content-Length") = true ->
  parseContentLength (h :: post) =
  match Atoi (TrimSpace val) with
  | Some n => if n <=? 0 then Err (errInvalidContentLength (TrimSpace val)) else Ok n
  | None => Err (errInvalidContentLength (TrimSpace val))
  end.
Proof. intros Hsplit Hname. simpl. by rewrite Hsplit, Hname. Qed.

(** X2.  The first header named Content-Length decides alone: what
    comes after it, be it a second Content-Length header with another
    value, is never looked at, and a bad value in it is an error even
    when a later header has a good one. *)
Theorem parseContentLength_first_decides
        (pre post : list bytes) (h name val : bytes) :
  Forall unrelated pre ->
  SplitN2 h ":" = [name; val] ->
  EqualFold (TrimSpace name) (B "Content-Length") = true ->
  parseContentLength (pre ++ h :: post) = parseContentLength [h] /\
  parseContentLength [h] <> Err errMissingContentLength.
Proof.
  intros Hpre Hsplit Hname.
  rewrite parseContentLength_unrelated by exact Hpre.
  rewrite !(parseContentLength_related h name val) by assumption.
  split; [reflexivity|].
  destruct (Atoi _) as [n|]; [destruct (n <=? 0)|]; discriminate.
Qed.

Lemma parseContentLength_first_decides_witness :
  let h := B "Content-Length: nope" in
  (Forall unrelated [B "Host: x"] /\
   SplitN2 h ":" = [B "Content-Length"; B " nope"] /\
   EqualFold (TrimSpace (B "Content-Length")) (B "Content-Length") = true) /\
  (parseContentLength ([B "Host: x"] ++ h :: [B "Content-Length: 3"])
     = parseContentLength [h] /\
   parseContentLength [h] <> Err errMissingContentLength).
Proof.
  intros h.
  assert (H1 : Forall unrelated [B "Host: x"]) by (by repeat constructor).
  assert (H2 : SplitN2 h ":" = [B "Content-Length"; B " nope"]) by reflexivity.
  assert (H3 : EqualFold (TrimSpace (B "Content-Length")) (B "Content-Length") = true)
    by reflexivity.
  exact (conj (conj H1 (conj H2 H3))
              (parseContentLength_first_decides _ [B "Content-Length: 3"] h _ _ H1 H2 H3)).
Defined.

(** X3.  The error "missing Content-Length header" is returned exactly
    when every header is passed over: none has a colon and the name
    Content-Length. *)
Theorem parseContentLength_missing_iff (headers : list bytes) :
  parseContentLength headers = Err errMissingContentLength <-> Forall unrelated headers.
Proof.
  split.
  - induction headers as [|h hs IH]; [constructor|].
    simpl. unfold unrelated at 1.
    destruct (SplitN2 h ":") as [|a [|b [|c l]]] eqn:Hsplit;
      try (intros Hp; constructor;
           [unfold unrelated; by rewrite Hsplit | by apply IH]).
    destruct (EqualFold (TrimSpace a) (B "Content-Length")) eqn:Hname; simpl.
    + destruct (Atoi _) as [n|]; [destruct (n <=? 0)|]; discriminate.
    + intros Hp. constructor; [|by apply IH].
      unfold unrelated. by rewrite Hsplit.
  - intros Hall. rewrite <- (app_nil_r headers).
    by rewrite parseContentLength_unrelated.
Qed.

(** ** [readMessage] *)

Lemma ReadString_split (d : ascii) (input line rest : bytes) (err : option error) :
  ReadString d input = (line, err, rest) -> input = line ++ rest.
Proof.
  revert line rest err.
  induction input as [|c input IH]; intros line rest err; simpl.
  - by intros [= <- <- <-].
  - destruct (Ascii.eqb c d).
    + by intros [= <- <- <-].
    + destruct (ReadString d input) as [[l e] r] eqn:E.
      intros [= <- <- <-]. simpl. f_equal. by eapply IH.
Qed.

Lemma readHeaders_suffix (fuel : nat) (acc : list bytes) (input : bytes)
      (r : result (list bytes)) (rest : bytes) :
  readHeaders fuel acc input = (r, rest) -> exists used, input = used ++ rest.
Proof.
  revert acc input. induction fuel as [|fuel IH]; intros acc input; simpl;
    destruct (ReadString LF input) as [[line err] rest0] eqn:E;
    apply ReadString_split in E;
    (destruct err; [intros [= _ <-]; by exists line|]);
    (destruct (TrimRight line [CR; LF]); [intros [= _ <-]; by exists line|]).
  - intros [= _ <-]. by exists line.
  - intros H. apply IH in H as [used ->]. exists (line ++ used).
    by rewrite E, app_assoc.
Qed.

Lemma TrimSpace_blanks (sp : bytes) :
  Forall (fun c => isBlank c = true) sp -> TrimSpace sp = [].
Proof.
  intros Hsp. unfold TrimSpace, TrimLeftSpace.
  rewrite <- (app_nil_r sp) at 2.
  rewrite trimRunes_blanks; [|exact dropRune_blank|exact Hsp|lia].
  by rewrite Nat.sub_diag.
Qed.

(** X4.  [readMessage] only moves forward in its input: what it leaves
    is a suffix of what it was given, whatever it returns.  A payload it
    returns is never empty and has cost at least one byte of input. *)
Theorem readMessage_moves_forward (input : bytes) (r : result bytes) (rest : bytes) :
  readMessage input = (r, rest) ->
  (exists used, input = used ++ rest) /\
  (forall payload, r = Ok payload ->
     payload <> [] /\ (length rest < length input)%nat).
Proof.
  unfold readMessage.
  destruct (ReadString LF input) as [[line err] rest0] eqn:E.
  destruct (ReadString_length _ _ _ _ _ E) as (Hlen & Hne & Heof).
  apply ReadString_split in E.
  destruct err as [e|].
  - destruct (TrimSpace line) as [|c t] eqn:Ht.
    { intros [= <- <-]. split; [by exists line|]. intros p [=]. }
    destruct (HasPrefix _ _); intros [= <- <-];
      (split; [by exists line|]); intros p [= <-].
    split; [done|]. destruct line; [discriminate Ht|]. simpl in Hlen. lia.
  - assert (Hline : line <> []) by by apply Hne.
    assert (Hlt : (length rest0 < length input)%nat).
    { destruct line; [done|]. simpl in Hlen. lia. }
    destruct (TrimSpace line) as [|c t] eqn:Ht.
    { intros [= <- <-]. split; [by exists line|]. intros p [=]. }
    destruct (HasPrefix _ _).
    { intros [= <- <-]. split; [by exists line|]. by intros p [= <-]. }
    destruct (readHeaders _ _ rest0) as [[hs|e] rest1] eqn:Eh.
    2:{ intros [= <- <-]. apply readHeaders_suffix in Eh as [used ->].
        split; [|intros p [=]]. exists (line ++ used). by rewrite E, app_assoc. }
    pose proof (readHeaders_rest _ _ _ _ _ Eh) as Hle.
    apply readHeaders_suffix in Eh as [used Hused].
    destruct (parseContentLength hs) as [n|e] eqn:Ep.
    2:{ intros [= <- <-]. split; [|intros p [=]].
        exists (line ++ used). by rewrite E, Hused, app_assoc. }
    apply parseContentLength_range in Ep.
    destruct (allocates n).
    2:{ intros [= <- <-]. split; [|intros p [=]].
        exists (line ++ used). by rewrite E, Hused, app_assoc. }
    unfold ReadFull. case_decide as Hn.
    + intros [= <- <-]. split.
      * exists (line ++ used ++ take (Z.to_nat n) rest1).
        rewrite E, Hused, <- !app_assoc. by rewrite take_drop.
      * intros p [= <-]. split.
        -- intros Hnil. apply (f_equal length) in Hnil.
           rewrite length_take in Hnil. simpl in Hnil. lia.
        -- rewrite length_drop. lia.
    + intros Hr.
      assert (Hrest : rest = []) by (destruct rest1; by injection Hr).
      split; [|intros p ->; destruct rest1; discriminate Hr].
      exists input. by rewrite Hrest, app_nil_r.
Qed.

Lemma wireLines_length (hs : list (bytes * eol)) (tail : bytes) :
  (length hs <= length (concat (map wireLine hs) ++ tail))%nat.
Proof.
  induction hs as [|[h e] hs IH]; simpl; [lia|].
  unfold wireLine at 1. simpl fst. simpl snd.
  rewrite <- !app_assoc, !length_app in *.
  assert (1 <= length (eolBytes e))%nat by (destruct e; simpl; lia). lia.
Qed.

(** The header loop on header lines that are not followed by the empty
    line: the end of the input is met first. *)
Lemma readHeaders_unfinished (hs : list (bytes * eol)) (acc : list bytes)
      (tail : bytes) (fuel : nat) :
  Forall (fun h => headerText h.1) hs ->
  LF ∉ tail ->
  (length hs <= fuel)%nat ->
  readHeaders fuel acc (concat (map wireLine hs) ++ tail) = (Err io_EOF, []).
Proof.
  intros Hhs Htail. revert acc fuel.
  induction Hhs as [|[h e] hs Hh _ IH]; intros acc fuel Hfuel.
  - simpl concat. simpl app.
    destruct fuel; simpl readHeaders; by rewrite ReadString_eof.
  - destruct fuel as [|fuel]; [simpl in Hfuel; lia|].
    simpl concat. unfold wireLine at 1. simpl fst. simpl snd.
    rewrite <- !app_assoc. simpl readHeaders.
    rewrite ReadString_wireLine by apply Hh.
    rewrite TrimRight_wireLine by exact Hh.
    destruct Hh as (_ & m & z & Hm & _).
    destruct h as [|c h]; [by destruct m|].
    apply IH. simpl in Hfuel. lia.
Qed.

Lemma readMessage_unfinished (h : bytes * eol) (hs : list (bytes * eol))
      (tail : bytes) :
  opensHeaderBlock (wireLine h) ->
  Forall (fun h => headerText h.1) (h :: hs) ->
  LF ∉ tail ->
  readMessage (concat (map wireLine (h :: hs)) ++ tail) = (Err io_EOF, []).
Proof.
  intros [Hne Hbrace] Hall Htail.
  apply Forall_cons in Hall as [Hh Hhs].
  destruct h as [h e]. unfold wireLine in Hne, Hbrace. simpl fst in *. simpl snd in *.
  unfold readMessage. simpl concat.
  unfold wireLine at 1. simpl fst. simpl snd.
  rewrite <- !app_assoc.
  rewrite ReadString_wireLine by apply Hh.
  destruct (TrimSpace (h ++ eolBytes e)) as [|c t] eqn:Htrim; [done|].
  rewrite Hbrace.
  by rewrite readHeaders_unfinished by (done || apply wireLines_length).
Qed.

Lemma readMessage_tail (input : bytes) :
  LF ∉ input ->
  HasPrefix (TrimSpace input) (B "{") = false ->
  readMessage input = (Err io_EOF, []).
Proof.
  intros Hlf Hbrace. unfold readMessage. rewrite ReadString_eof by exact Hlf.
  destruct (TrimSpace input); [reflexivity|]. by rewrite Hbrace.
Qed.

Lemma readMessage_blank_line (sp rest : bytes) :
  Forall (fun c => isBlank c = true) sp ->
  LF ∉ sp ->
  readMessage (sp ++ LF :: rest) = (Err errEmptyMessage, rest).
Proof.
  intros Hsp Hlf. unfold readMessage. rewrite ReadString_line by exact Hlf.
  rewrite TrimSpace_blanks; [reflexivity|].
  apply Forall_app_2; [exact Hsp|]. by repeat constructor.
Qed.

(** ** [writeMessage] *)

Lemma cut_at (c : ascii) (l1 l2 x y : bytes) :
  c ∉ l1 -> c ∉ l2 -> l1 ++ c :: x = l2 ++ c :: y -> l1 = l2 /\ x = y.
Proof.
  revert l2. induction l1 as [|a l1 IH]; intros [|b l2] H1 H2; simpl.
  - by intros [= <-].
  - intros [= <- _]. exfalso. apply H2. by left.
  - intros [= -> _]. exfalso. apply H1. by left.
  - intros [= <- Heq].
    destruct (IH l2) as [-> ->]; [| |exact Heq|done].
    + intros Hin. apply H1. by right.
    + intros Hin. apply H2. by right.
Qed.

Lemma Itoa_no_CR (n : Z) : 0 <= n -> CR ∉ Itoa n.
Proof.
  intros Hn Hin.
  pose proof (proj1 (Forall_forall _ _) (Itoa_plain n Hn) CR Hin) as H.
  discriminate H.
Qed.

(** X5.  Frames are self-delimiting: two outputs of [writeMessage]
    followed by anything are equal only when the payloads are equal and
    what follows is equal, so a stream of frames can be cut in one way
    only. *)
Theorem frame_self_delimiting (p q rest rest' : bytes) :
  p <> [] -> q <> [] ->
  Z.of_nat (length p) <= maxInt -> Z.of_nat (length q) <= maxInt ->
  frame p ++ rest = frame q ++ rest' ->
  p = q /\ rest = rest'.
Proof.
  intros Hp Hq Lp Lq. unfold frame. rewrite <- !app_assoc.
  intros Heq%app_inv_head.
  change ([CR; LF; CR; LF] ++ ?x) with (CR :: [LF; CR; LF] ++ x) in Heq.
  apply cut_at in Heq as [Hlen Heq]; [|apply Itoa_no_CR; lia..].
  apply app_inv_head in Heq.
  assert (Hn : Z.of_nat (length p) = Z.of_nat (length q)).
  { apply (f_equal Atoi) in Hlen. rewrite !Atoi_Itoa in Hlen by lia.
    by injection Hlen. }
  apply app_inj_1 in Heq; [done|lia].
Qed.

Lemma frame_self_delimiting_witness :
  let p := B "{}" in
  (p <> [] /\ Z.of_nat (length p) <= maxInt /\ frame p ++ B "x" = frame p ++ B "x") /\
  (p = p /\ B "x" = B "x").
Proof.
  intros p.
  assert (H1 : p <> []) by discriminate.
  assert (H2 : Z.of_nat (length p) <= maxInt) by (vm_compute; discriminate).
  assert (H3 : frame p ++ B "x" = frame p ++ B "x") by reflexivity.
  exact (conj (conj H1 (conj H2 H3)) (frame_self_delimiting p p _ _ H1 H1 H2 H2 H3)).
Defined.

End TransportFacts.

(** * More on the server *)

Section MoreServerFacts.

Context {rt0 : Runtime} {env0 : Env}.

(** ** The end of the input *)

(** X6.  The input ends inside a header block, before the empty line
    that closes it (the last header line may itself be cut short):
    [readMessage] reports the end of the input, and [Serve] returns
    [nil] without a word about the unfinished frame. *)
Theorem Serve_ends_inside_headers
        (h : bytes * eol) (hs : list (bytes * eol)) (tail : bytes)
        (fuel : nat) (out : bytes) (log : list apiCall)
        (ans : list (jsonRPCRequest * jsonRPCResponse)) :
  opensHeaderBlock (wireLine h) ->
  Forall (fun h => headerText h.1) (h :: hs) ->
  LF ∉ tail ->
  readMessage (concat (map wireLine (h :: hs)) ++ tail) = (Err io_EOF, []) /\
  serveLoop (S fuel) (concat (map wireLine (h :: hs)) ++ tail) out log ans =
    {| returned := None; crashed := false; written := out; calls := log; answered := ans |}.
Proof.
  intros Hopen Hall Htail.
  pose proof (readMessage_unfinished h hs tail Hopen Hall Htail) as H.
  split; [exact H|]. by rewrite serveLoop_S, H.
Qed.

(** X7.  A frame whose payload is cut short, of a length the runtime
    can allocate.  When the input ends right after the header block,
    [io.ReadFull] reports [io.EOF], which [errors.Is] finds under the
    wrapping of [readMessage]: [Serve] returns [nil].  When some but not
    all of the payload is there it is [io.ErrUnexpectedEOF], and [Serve]
    returns the error. *)
Theorem Serve_truncated_payload
        (h : bytes * eol) (hs : list (bytes * eol)) (sep : eol) (n : Z)
        (rest : bytes) (fuel : nat) (out : bytes) (log : list apiCall)
        (ans : list (jsonRPCRequest * jsonRPCResponse)) :
  opensHeaderBlock (wireLine h) ->
  Forall (fun h => headerText h.1) (h :: hs) ->
  parseContentLength (map fst (h :: hs)) = Ok n ->
  allocates n = true ->
  (length rest < Z.to_nat n)%nat ->
  serveLoop (S fuel) (headerBlock (h :: hs) sep ++ rest) out log ans =
    {| returned :=
         match rest with
         | [] => None
         | _ => Some (errWrap "failed to read message"
                        (errWrap "failed to read payload" io_ErrUnexpectedEOF))
         end;
       crashed := false; written := out; calls := log; answered := ans |}.
Proof.
  intros Hopen Hall Hparse Halloc Hshort.
  rewrite serveLoop_S, readMessage_headerBlock by assumption.
  rewrite Hparse, Halloc. unfold ReadFull. rewrite decide_False by lia.
  by destruct rest.
Qed.

(** X16.  A frame that announces a length the runtime cannot allocate,
    which any positive length that fits an [int] may be: the program
    stops at the [make] of [readMessage], before it reads the payload.
    [Serve] does not return, and nothing is written or called for the
    frame, whatever follows the header block. *)
Theorem Serve_stops_at_make
        (h : bytes * eol) (hs : list (bytes * eol)) (sep : eol) (n : Z)
        (rest : bytes) (fuel : nat) (out : bytes) (log : list apiCall)
        (ans : list (jsonRPCRequest * jsonRPCResponse)) :
  opensHeaderBlock (wireLine h) ->
  Forall (fun h => headerText h.1) (h :: hs) ->
  parseContentLength (map fst (h :: hs)) = Ok n ->
  allocates n = false ->
  readMessage (headerBlock (h :: hs) sep ++ rest) = (Err runtimeFailure, rest) /\
  serveLoop (S fuel) (headerBlock (h :: hs) sep ++ rest) out log ans =
    {| returned := None; crashed := true;
       written := out; calls := log; answered := ans |}.
Proof.
  intros Hopen Hall Hparse Halloc.
  assert (H : readMessage (headerBlock (h :: hs) sep ++ rest)
              = (Err runtimeFailure, rest)).
  { rewrite readMessage_headerBlock by assumption. by rewrite Hparse, Halloc. }
  split; [exact H|]. by rewrite serveLoop_S, H.
Qed.

(** X8.  A line of white space is fatal, the same white space at the
    end of the input is not: followed by a line feed it is the error
    "received empty message", with which [Serve] returns; with no line
    feed after it, it is the end of the input and [Serve] returns
    [nil]. *)
Theorem Serve_blank_line_is_fatal
        (sp rest : bytes) (fuel : nat) (out : bytes) (log : list apiCall)
        (ans : list (jsonRPCRequest * jsonRPCResponse)) :
  Forall (fun c => isBlank c = true) sp ->
  LF ∉ sp ->
  serveLoop (S fuel) (sp ++ LF :: rest) out log ans =
    {| returned := Some (errWrap "failed to read message" errEmptyMessage);
       crashed := false; written := out; calls := log; answered := ans |} /\
  serveLoop (S fuel) sp out log ans =
    {| returned := None; crashed := false; written := out; calls := log; answered := ans |}.
Proof.
  intros Hsp Hlf. split.
  - by rewrite serveLoop_S, readMessage_blank_line.
  - rewrite serveLoop_S, readMessage_tail; [done..|].
    by rewrite TrimSpace_blanks.
Qed.

(** X9.  Text at the end of the input that has no line feed and does
    not start with an opening brace (a header line cut short, say) is
    dropped: [Serve] returns [nil], and nothing is written or called for
    it. *)
Theorem Serve_drops_unterminated_text
        (tail : bytes) (fuel : nat) (out : bytes) (log : list apiCall)
        (ans : list (jsonRPCRequest * jsonRPCResponse)) :
  LF ∉ tail ->
  HasPrefix (TrimSpace tail) (B "{") = false ->
  serveLoop (S fuel) tail out log ans =
    {| returned := None; crashed := false; written := out; calls := log; answered := ans |}.
Proof. intros Hlf Hbrace. by rewrite serveLoop_S, readMessage_tail. Qed.

(** ** Requests that are not answered *)

(** X10.  A payload that [json.Unmarshal] rejects, and a request with
    one of the two notification methods (with or without an identifier,
    whatever its parameters), leave no trace: the loop goes on to the
    rest of the input with its output and the backend untouched. *)
Theorem Serve_skips_silently
        (fuel : nat) (input out : bytes) (log : list apiCall)
        (ans : list (jsonRPCRequest * jsonRPCResponse)) (payload rest : bytes) :
  readMessage input = (Ok payload, rest) ->
  match unmarshalRequest payload with
  | None => True
  | Some req => req_Method req ∈ ["notifications/initialized"; "initialized"]%string
  end ->
  serveLoop (S fuel) input out log ans = serveLoop fuel rest out log ans.
Proof.
  intros Hread Hskip. rewrite serveLoop_S, Hread.
  destruct (unmarshalRequest payload) as [req|]; [|reflexivity].
  unfold handleRequest.
  apply elem_of_cons in Hskip as [->|Hskip]; [reflexivity|].
  apply list_elem_of_singleton in Hskip as ->. reflexivity.
Qed.

(** ** Responses *)

(** X11.  A request with an identifier and a method the server does not
    know is answered with the RPC error -32601 "method not found",
    whose data is the method; there is no result, and the backend is not
    called. *)
Theorem handleRequest_unknown_method (req : jsonRPCRequest) (log : list apiCall) :
  req_Method req ∉ ["initialize"; "ping"; "tools/list"; "tools/call";
                    "notifications/initialized"; "initialized"]%string ->
  req_ID req <> [] ->
  handleRequest req log =
    (Reply {| resp_JSONRPC := "2.0";
              resp_ID := match unmarshalValue (req_ID req) with
                         | Some v => v
                         | None => VString (string_of_list_ascii (req_ID req))
                         end;
              resp_Result := VNil;
              resp_Error := Some {| err_Code := -32601;
                                    err_Message := "method not found";
                                    err_Data := VString (req_Method req) |} |},
     log).
Proof.
  intros Hnot Hid.
  repeat (apply not_elem_of_cons in Hnot as [?%String.eqb_neq Hnot]).
  unfold handleRequest, dispatch, bind.
  repeat match goal with H : String.eqb _ _ = false |- _ => rewrite H; clear H end.
  simpl. by destruct (req_ID req).
Qed.

(** X12.  [initialize], [ping] and [tools/list] are answered from the
    program alone: the result depends on nothing but the method (not on
    the parameters, the identifier or the calls made before), there is
    no RPC error, and the backend is not called. *)
Theorem dispatch_protocol_methods (req req' : jsonRPCRequest) (log log' : list apiCall) :
  req_Method req ∈ ["initialize"; "ping"; "tools/list"]%string ->
  req_Method req' = req_Method req ->
  dispatch req log = ((dispatch req' log').1, log) /\
  (dispatch req log).1.2 = None.
Proof.
  intros Hm Heq. unfold dispatch. rewrite Heq.
  repeat (apply elem_of_cons in Hm as [->|Hm]; [by split|]).
  by apply elem_of_nil in Hm.
Qed.

(** X13.  Every response carries the version "2.0" and the identifier
    of its request: the decoded identifier, or its raw text as a string
    when it does not decode; its result and error are what the method
    gave, unchanged. *)
Theorem handleRequest_response
        (req : jsonRPCRequest) (log log' : list apiCall) (resp : jsonRPCResponse) :
  handleRequest req log = (Reply resp, log') ->
  resp_JSONRPC resp = "2.0"%string /\
  resp_ID resp = match unmarshalValue (req_ID req) with
                 | Some v => v
                 | None => VString (string_of_list_ascii (req_ID req))
                 end /\
  dispatch req log = ((resp_Result resp, resp_Error resp), log').
Proof.
  unfold handleRequest. destruct (_ || _); [discriminate|].
  unfold bind. destruct (dispatch req log) as [[result rpcErr] log0].
  destruct (req_ID req) as [|c id]; [discriminate|].
  by intros [= <- <-].
Qed.

(** ** Tool calls *)

Lemma finish_no_error (h : M callResult) (log : list apiCall) :
  (bind h (fun r => ret (toolResult r)) log).1.2 = None.
Proof. unfold bind. by destruct (h log) as [[data|msg] log']. Qed.

(** X14.  [handleToolCall] returns an RPC error in two cases only: the
    parameters do not decode, or the name is not one of the catalogue
    [toolDefinitions].  The catalogue and the [switch] agree: every
    advertised tool is handled and no other.  The error has the code
    -32602, there is no result beside it, and the backend has not been
    called. *)
Theorem handleToolCall_rpc_error_iff (raw : bytes) (log : list apiCall) :
  let out := handleToolCall raw log in
  (is_Some out.1.2 <->
   match unmarshalToolsCallParams raw with
   | inl _ => True
   | inr params => params_Name params ∉ map tool_Name toolDefinitions
   end) /\
  (forall e, out.1.2 = Some e ->
             err_Code e = -32602 /\ out.1.1 = VNil /\ out.2 = log).
Proof.
  unfold handleToolCall. rewrite registeredTools_catalogue. unfold registeredTools.
  destruct (unmarshalToolsCallParams raw) as [msg|[name args]]; cbn zeta.
  { split; [by split|]. by intros e [= <-]. }
  cbn [params_Name params_Arguments].
  repeat match goal with
         | |- context [String.eqb name ?s] =>
             destruct (String.eqb_spec name s) as [->|?]; cbv iota;
             [ rewrite finish_no_error; split;
               [ split; [by intros [? ?]|];
                 intros Hn; exfalso; apply Hn; repeat constructor
               | by intros e ]
             | ]
         end.
  split.
  - split; [|intros _; eexists; reflexivity]. intros _.
    rewrite !not_elem_of_cons. repeat split; first [done | apply not_elem_of_nil].
  - by intros e [= <-].
Qed.

Lemma handler_calls (h : M callResult) (log : list apiCall) :
  ((h log).2 = log \/
   exists c, (h log).2 = log ++ [c] /\ (call_method c, call_path c) ∈ endpoints) ->
  (bind h (fun r => ret (toolResult r)) log).2 = log \/
  exists c, (bind h (fun r => ret (toolResult r)) log).2 = log ++ [c] /\
            (call_method c, call_path c) ∈ endpoints.
Proof. unfold bind, ret. by destruct (h log) as [r log']. Qed.

Lemma client_call_logs (method path : string) (payload : option (gmap string value))
      (log : list apiCall) :
  (method, path) ∈ endpoints ->
  (client_call method path payload log).2 = log \/
  exists c, (client_call method path payload log).2 = log ++ [c] /\
            (call_method c, call_path c) ∈ endpoints.
Proof. intros Hin. right. by eexists. Qed.

Lemma handleToolCall_calls (raw : bytes) (log : list apiCall) :
  (handleToolCall raw log).2 = log \/
  exists c, (handleToolCall raw log).2 = log ++ [c] /\
            (call_method c, call_path c) ∈ endpoints.
Proof.
  unfold handleToolCall.
  destruct (unmarshalToolsCallParams raw) as [msg|[name args]]; [by left|].
  cbn [params_Name params_Arguments].
  repeat (destruct (String.eqb name _); [apply handler_calls|]); [..|by left].
  - unfold callAkumaQuery.
    repeat (destruct (isBlankString _); [by left|]).
    apply client_call_logs. unfold endpoints. repeat constructor.
  - unfold callAkumaExplain.
    destruct (isBlankString _); [by left|].
    apply client_call_logs. unfold endpoints. repeat constructor.
  - unfold callAkumaSchema.
    destruct (args !! "tables"); [|by left].
    apply client_call_logs. unfold endpoints. repeat constructor.
  - apply client_call_logs. unfold endpoints. repeat constructor.
  - apply client_call_logs. unfold endpoints. repeat constructor.
  - unfold callSozoGenerate.
    destruct (args !! "records"); [|by left].
    destruct (args !! "schema"), (args !! "schemaName"); try (by left);
      apply client_call_logs; unfold endpoints; repeat constructor.
  - apply client_call_logs. unfold endpoints. repeat constructor.
Qed.

Lemma handleRequest_calls (req : jsonRPCRequest) (log : list apiCall) :
  (handleRequest req log).2 = log \/
  exists c, (handleRequest req log).2 = log ++ [c] /\
            req_Method req = "tools/call"%string /\
            (call_method c, call_path c) ∈ endpoints.
Proof.
  unfold handleRequest. destruct (_ || _); [by left|].
  assert (H : (dispatch req log).2 = log \/
              exists c, (dispatch req log).2 = log ++ [c] /\
                        req_Method req = "tools/call"%string /\
                        (call_method c, call_path c) ∈ endpoints).
  { unfold dispatch.
    repeat match goal with
           | |- context [String.eqb (req_Method req) ?s] =>
               destruct (String.eqb_spec (req_Method req) s) as [Hm|?];
               [first [by left | idtac]|]
           end; [|by left].
    destruct (handleToolCall_calls (req_Params req) log) as [H|(c & H1 & H2)];
      [by left|right]. by exists c. }
  unfold bind. destruct (dispatch req log) as [[result rpcErr] log0].
  simpl in H. by destruct (req_ID req).
Qed.

(** X15.  One request makes the server call the client at most once,
    and only a [tools/call] request can; the call goes to one of the
    seven operations the handlers know. *)
Theorem handleRequest_at_most_one_call (req : jsonRPCRequest) (log : list apiCall) :
  (handleRequest req log).2 = log \/
  exists c, (handleRequest req log).2 = log ++ [c] /\
            req_Method req = "tools/call"%string /\
            (call_method c, call_path c) ∈ endpoints.
Proof. apply handleRequest_calls. Qed.

(** ** The loop as a whole *)

Lemma serveLoop_returned (fuel : nat) (input out : bytes) (log : list apiCall)
      (ans : list (jsonRPCRequest * jsonRPCResponse)) (e : error) :
  returned (serveLoop fuel input out log ans) = Some e ->
  (exists e' input' rest,
     e = errWrap "failed to read message" e' /\
     readMessage input' = (Err e', rest) /\ errors_Is_EOF e' = false) \/
  (exists e' resp,
     e = errWrap "failed to write response" e' /\ Marshal resp = Err e').
Proof.
  revert input out log ans.
  induction fuel as [|fuel IH]; intros input out log ans; [discriminate|].
  rewrite serveLoop_S.
  destruct (readMessage input) as [[payload|e0] rest] eqn:Eread.
  2: { destruct (isRuntimeFailure e0); [discriminate|].
       destruct (errors_Is_EOF e0) eqn:Eeof; [discriminate|].
       intros [= <-]. left. by exists e0, input, rest. }
  destruct (unmarshalRequest payload) as [req|]; [|by apply IH].
  destruct (handleRequest req log) as [[|resp] log']; [by apply IH|].
  unfold writeMessage.
  destruct (Marshal resp) as [sent|e0] eqn:Em; [by apply IH|].
  intros [= <-]. right. by exists e0, resp.
Qed.

(** X17.  [Serve] returns two kinds of error only: an error of
    [readMessage] that is not the end of the input, under "failed to
    read message", and an error of [writeMessage], under "failed to
    write response" (writing to the output does not fail here, so that
    is an error of [json.Marshal] on the response).  The end of the
    input is never returned as an error. *)
Theorem Serve_error_kinds (input : bytes) (e : error) :
  returned (Serve input) = Some e ->
  (exists e' input' rest,
     e = errWrap "failed to read message" e' /\
     readMessage input' = (Err e', rest) /\ errors_Is_EOF e' = false) \/
  (exists e' resp,
     e = errWrap "failed to write response" e' /\ Marshal resp = Err e').
Proof. apply serveLoop_returned. Qed.

End MoreServerFacts.

(** * More on the tool handlers *)

Section HandlerFacts.

Context {rt0 : Runtime} {env0 : Env}.

(** ** What a handler forwards *)

Lemma forwards_singleton (args : gmap string value) (key : string) (v : value) :
  args !! key = Some v -> forwards [key] args {[ key := v ]}.
Proof.
  intros Hv k. destruct (decide (k = key)) as [->|Hne].
  - rewrite lookup_singleton_eq, bool_decide_eq_true_2; [done|]. by left.
  - rewrite lookup_singleton_ne, bool_decide_eq_false_2; [done| |done].
    by intros ->%list_elem_of_singleton.
Qed.

Lemma forwards_insert (keys : list string) (args payload : gmap string value)
      (key : string) (v : value) :
  args !! key = Some v ->
  forwards keys args payload ->
  forwards (key :: keys) args (<[key := v]> payload).
Proof.
  intros Hv Hp k. destruct (decide (k = key)) as [->|Hne].
  - rewrite lookup_insert_eq, bool_decide_eq_true_2; [done|]. by left.
  - rewrite lookup_insert_ne by done. rewrite Hp.
    apply (f_equal (fun b : bool => if b then args !! k else None)).
    apply bool_decide_ext. rewrite elem_of_cons. tauto.
Qed.

Lemma forwards_copyArg (keys : list string) (args payload : gmap string value)
      (key : string) :
  forwards keys args payload ->
  forwards (key :: keys) args (copyArg args key payload).
Proof.
  intros Hp. unfold copyArg. destruct (args !! key) as [v|] eqn:Hv.
  - by apply forwards_insert.
  - intros k. rewrite Hp. destruct (decide (k = key)) as [->|Hne].
    + rewrite (bool_decide_eq_true_2 (key ∈ key :: keys)) by by left.
      rewrite Hv. by destruct (bool_decide _).
    + apply (f_equal (fun b : bool => if b then args !! k else None)).
      apply bool_decide_ext. rewrite elem_of_cons. tauto.
Qed.

Lemma forwards_keys (keys keys' : list string) (args payload : gmap string value) :
  (forall k, k ∈ keys <-> k ∈ keys') ->
  forwards keys args payload -> forwards keys' args payload.
Proof.
  intros Heq Hp k. rewrite Hp.
  apply (f_equal (fun b : bool => if b then args !! k else None)).
  by apply bool_decide_ext.
Qed.

Lemma stringArg_nonblank (args : gmap string value) (key : string) :
  isBlankString (stringArg args key) = false ->
  args !! key = Some (VString (stringArg args key)).
Proof.
  unfold stringArg. destruct (args !! key) as [[]|]; try discriminate. done.
Qed.

Lemma callAkumaQuery_run (args : gmap string value) (log : list apiCall) :
  isBlankString (stringArg args "dialect") = false ->
  isBlankString (stringArg args "prompt") = false ->
  exists payload,
    forwards ["dialect"; "prompt"; "mode"; "maxRows"; "guardrails"]%string args payload /\
    callAkumaQuery args log =
      client_call "POST" "/v1/akuma/query" (Some payload) log.
Proof.
  intros Hd Hp. unfold callAkumaQuery. rewrite Hd, Hp.
  eexists. split; [|reflexivity].
  eapply forwards_keys; [|do 3 apply forwards_copyArg; apply forwards_insert;
                          [by apply stringArg_nonblank|
                           apply forwards_singleton; by apply stringArg_nonblank]].
  intros k. rewrite !elem_of_cons, !elem_of_nil. tauto.
Qed.

Lemma callAkumaExplain_run (args : gmap string value) (log : list apiCall) :
  isBlankString (stringArg args "sql") = false ->
  exists payload,
    forwards ["sql"%string] args payload /\
    callAkumaExplain args log =
      client_call "POST" "/v1/akuma/explain" (Some payload) log.
Proof.
  intros Hs. unfold callAkumaExplain. rewrite Hs.
  eexists. split; [|reflexivity].
  apply forwards_singleton. by apply stringArg_nonblank.
Qed.

Lemma callAkumaSchema_run (args : gmap string value) (log : list apiCall) :
  is_Some (args !! "tables") ->
  exists payload,
    forwards ["tables"; "version"]%string args payload /\
    callAkumaSchema args log =
      client_call "POST" "/v1/akuma/schema" (Some payload) log.
Proof.
  intros [tables Ht]. unfold callAkumaSchema. rewrite Ht.
  eexists. split; [|reflexivity].
  eapply forwards_keys; [|apply forwards_copyArg; by apply forwards_singleton].
  intros k. rewrite !elem_of_cons, !elem_of_nil. tauto.
Qed.

Lemma callEnzanSummary_run (args : gmap string value) (log : list apiCall) :
  exists payload,
    payload !! "window" = Some (default (VString "24h") (args !! "window")) /\
    payload !! "groupBy" = args !! "groupBy" /\
    (forall k, k ∉ ["window"; "groupBy"]%string -> payload !! k = None) /\
    callEnzanSummary args log =
      client_call "POST" "/v1/enzan/summary" (Some payload) log.
Proof.
  unfold callEnzanSummary. eexists. split; [|split; [|split; [|reflexivity]]].
  - unfold copyArg.
    destruct (args !! "groupBy"); [rewrite lookup_insert_ne by done|];
      (destruct (args !! "window");
       [by rewrite lookup_insert_eq | by rewrite lookup_singleton_eq]).
  - unfold copyArg.
    destruct (args !! "groupBy"); [by rewrite lookup_insert_eq|].
    destruct (args !! "window");
      [rewrite lookup_insert_ne by done|]; by rewrite lookup_singleton_ne.
  - intros k Hk. apply not_elem_of_cons in Hk as [H1 Hk].
    apply not_elem_of_cons in Hk as [H2 _].
    unfold copyArg.
    destruct (args !! "groupBy"); [rewrite lookup_insert_ne by done|];
      (destruct (args !! "window");
       [rewrite lookup_insert_ne by done|]; by rewrite lookup_singleton_ne).
Qed.

Lemma callSozoGenerate_run (args : gmap string value) (log : list apiCall) :
  is_Some (args !! "records") ->
  is_Some (args !! "schema") \/ is_Some (args !! "schemaName") ->
  exists payload,
    forwards ["records"; "schema"; "schemaName"; "correlations"; "seed"]%string
             args payload /\
    callSozoGenerate args log =
      client_call "POST" "/v1/sozo/generate" (Some payload) log.
Proof.
  intros [records Hr] Hs. unfold callSozoGenerate. rewrite Hr.
  set (payload := fold_left _ _ _).
  assert (Hp : forwards ["records"; "schema"; "schemaName"; "correlations"; "seed"]%string
                        args payload).
  { subst payload. cbn [fold_left].
    eapply forwards_keys; [|do 4 apply forwards_copyArg; by apply forwards_singleton].
    intros k. rewrite !elem_of_cons, !elem_of_nil. tauto. }
  exists payload. split; [exact Hp|].
  destruct (args !! "schema"), (args !! "schemaName"); try reflexivity.
  destruct Hs as [[? [=]]|[? [=]]].
Qed.

(** X19.  [akuma.query] with a dialect and a prompt that are strings
    with more in them than white space makes one call, POST
    /v1/akuma/query, and returns what the backend answers.  The payload
    holds the five arguments the handler knows, as the caller gave them
    (the dialect is not checked against the advertised list, the
    strings are not trimmed), and no other argument. *)
Theorem callAkumaQuery_forwards (args : gmap string value) (log : list apiCall) :
  isBlankString (stringArg args "dialect") = false ->
  isBlankString (stringArg args "prompt") = false ->
  exists payload,
    forwards ["dialect"; "prompt"; "mode"; "maxRows"; "guardrails"]%string args payload /\
    let c := {| call_method := "POST"; call_path := "/v1/akuma/query";
                call_payload := Some payload |} in
    callAkumaQuery args log = (backend log c, log ++ [c]).
Proof. apply callAkumaQuery_run. Qed.

(** X20.  [akuma.explain] with an [sql] string that is not blank sends
    that string and nothing else; [akuma.schema] with [tables] present,
    whatever its value (the JSON [null] will do), sends [tables] and, when
    given, [version], and nothing else.  Each makes one POST call and
    returns the backend's answer. *)
Theorem callAkumaExplain_and_Schema_forward (args : gmap string value) (log : list apiCall) :
  (isBlankString (stringArg args "sql") = false ->
   exists payload,
     forwards ["sql"%string] args payload /\
     let c := {| call_method := "POST"; call_path := "/v1/akuma/explain";
                 call_payload := Some payload |} in
     callAkumaExplain args log = (backend log c, log ++ [c])) /\
  (is_Some (args !! "tables") ->
   exists payload,
     forwards ["tables"; "version"]%string args payload /\
     let c := {| call_method := "POST"; call_path := "/v1/akuma/schema";
                 call_payload := Some payload |} in
     callAkumaSchema args log = (backend log c, log ++ [c])).
Proof. split; [apply callAkumaExplain_run | apply callAkumaSchema_run]. Qed.

(** X21.  [enzan.summary] never fails on its arguments: it always makes
    one call, POST /v1/enzan/summary.  The window sent is the caller's
    when the argument is present (of whatever type) and "24h" only when
    it is absent; [groupBy] is sent when present; nothing else is. *)
Theorem callEnzanSummary_default_window (args : gmap string value) (log : list apiCall) :
  exists payload,
    payload !! "window" = Some (default (VString "24h") (args !! "window")) /\
    payload !! "groupBy" = args !! "groupBy" /\
    (forall k, k ∉ ["window"; "groupBy"]%string -> payload !! k = None) /\
    let c := {| call_method := "POST"; call_path := "/v1/enzan/summary";
                call_payload := Some payload |} in
    callEnzanSummary args log = (backend log c, log ++ [c]).
Proof. apply callEnzanSummary_run. Qed.

(** X22.  [sozo.generate] with [records] and at least one of [schema]
    and [schemaName] present (of whatever type) makes one call, POST
    /v1/sozo/generate, whose payload holds the five arguments the
    handler knows, as given (both [schema] and [schemaName] when both
    are there), and no other. *)
Theorem callSozoGenerate_forwards (args : gmap string value) (log : list apiCall) :
  is_Some (args !! "records") ->
  is_Some (args !! "schema") \/ is_Some (args !! "schemaName") ->
  exists payload,
    forwards ["records"; "schema"; "schemaName"; "correlations"; "seed"]%string
             args payload /\
    let c := {| call_method := "POST"; call_path := "/v1/sozo/generate";
                call_payload := Some payload |} in
    callSozoGenerate args log = (backend log c, log ++ [c]).
Proof. apply callSozoGenerate_run. Qed.

(** X23.  [enzan.burn] and [sozo.schemas] take no argument and look at
    none: whatever the call carries, each makes one GET call without a
    body, and the answer or the failure of the backend becomes the
    result of the tool (a failure with the failure flag, never an RPC
    error). *)
Theorem handleToolCall_argument_free
        (raw : bytes) (params : toolsCallParams) (path : string) (log : list apiCall) :
  unmarshalToolsCallParams raw = inr params ->
  (params_Name params, path) ∈ [("enzan.burn", "/v1/enzan/burn");
                                ("sozo.schemas", "/v1/sozo/schemas")]%string ->
  let c := {| call_method := "GET"; call_path := path; call_payload := None |} in
  handleToolCall raw log = (toolResult (backend log c), log ++ [c]).
Proof.
  intros Hdec Hin. unfold handleToolCall. rewrite Hdec.
  destruct params as [name args]. cbn [params_Name params_Arguments] in *.
  apply elem_of_cons in Hin as [[= -> ->]|Hin]; [reflexivity|].
  apply list_elem_of_singleton in Hin as [= -> ->]. reflexivity.
Qed.

(** X24.  A string argument that holds nothing but white space counts
    as missing: [akuma.explain] refuses a blank [sql], [akuma.query] a
    blank [dialect] and, the dialect being fine, a blank [prompt].
    The backend is not called. *)
Theorem blank_string_argument_rejected
        (args : gmap string value) (sp : string) (log : list apiCall) :
  Forall (fun c => isBlank c = true) (B sp) ->
  callAkumaExplain (<["sql" := VString sp]> args) log
    = (CallErr "sql is required", log) /\
  callAkumaQuery (<["dialect" := VString sp]> args) log
    = (CallErr "dialect is required", log) /\
  (isBlankString (stringArg args "dialect") = false ->
   callAkumaQuery (<["prompt" := VString sp]> args) log
     = (CallErr "prompt is required", log)).
Proof.
  intros Hsp.
  assert (Hblank : isBlankString sp = true).
  { unfold isBlankString. by rewrite TrimSpace_blanks. }
  repeat split.
  - unfold callAkumaExplain, stringArg. by rewrite lookup_insert_eq, Hblank.
  - unfold callAkumaQuery, stringArg at 1. by rewrite lookup_insert_eq, Hblank.
  - intros Hd. unfold callAkumaQuery.
    replace (stringArg (<["prompt" := VString sp]> args) "dialect")
      with (stringArg args "dialect")
      by (unfold stringArg; by rewrite lookup_insert_ne).
    rewrite Hd. unfold stringArg at 1. by rewrite lookup_insert_eq, Hblank.
Qed.

(** ** The catalogue and the handlers *)

Lemma requiredOf_catalogue :
  (fun t => (tool_Name t, requiredOf t)) <$> toolDefinitions =
  [("akuma.query", ["dialect"; "prompt"]); ("akuma.explain", ["sql"]);
   ("akuma.schema", ["tables"]); ("enzan.summary", []); ("enzan.burn", []);
   ("sozo.generate", ["records"]); ("sozo.schemas", [])]%string.
Proof. vm_compute. reflexivity. Qed.

(** X25.  What the catalogue advertises as required, the handlers
    require: a call of a tool of [toolDefinitions] that lacks an
    argument named in the [required] list of the tool's schema is
    refused with a tool failure, and the backend is not called. *)
Theorem required_arguments_enforced
        (t : toolDefinition) (key : string) (raw : bytes)
        (params : toolsCallParams) (log : list apiCall) :
  t ∈ toolDefinitions ->
  key ∈ requiredOf t ->
  unmarshalToolsCallParams raw = inr params ->
  params_Name params = tool_Name t ->
  params_Arguments params !! key = None ->
  exists msg, handleToolCall raw log = ((toolFailure msg, None), log).
Proof.
  intros Ht Hkey Hdec Hname Harg.
  apply (list_elem_of_fmap_2 (fun t => (tool_Name t, requiredOf t))) in Ht.
  rewrite requiredOf_catalogue in Ht.
  unfold handleToolCall. rewrite Hdec, Hname.
  destruct params as [name args]. cbn [params_Name params_Arguments] in *.
  repeat (apply elem_of_cons in Ht as [[= Hn Hr]|Ht];
          [rewrite Hr in Hkey; rewrite Hn; clear Hn Hr|]);
    try (by apply elem_of_nil in Hkey); [..|by apply elem_of_nil in Ht].
  - cbn [String.eqb]. simpl. unfold bind, callAkumaQuery.
    apply elem_of_cons in Hkey as [->|Hkey].
    + unfold stringArg at 1. rewrite Harg. by eexists.
    + apply list_elem_of_singleton in Hkey as ->.
      destruct (isBlankString (stringArg args "dialect")); [by eexists|].
      unfold stringArg at 1. rewrite Harg. by eexists.
  - simpl. apply list_elem_of_singleton in Hkey as ->.
    unfold bind, callAkumaExplain, stringArg. rewrite Harg. by eexists.
  - simpl. apply list_elem_of_singleton in Hkey as ->.
    unfold bind, callAkumaSchema. rewrite Harg. by eexists.
  - simpl. apply list_elem_of_singleton in Hkey as ->.
    unfold bind, callSozoGenerate. rewrite Harg. by eexists.
Qed.

Lemma forwards_dom (keys : list string) (args payload : gmap string value) (k : string) :
  forwards keys args payload -> is_Some (payload !! k) -> k ∈ keys.
Proof.
  intros Hp. rewrite Hp. case_bool_decide; [done|]. by intros [? [=]].
Qed.

Lemma client_call_sent (method path : string) (p : option (gmap string value))
      (log : list apiCall) (c : apiCall) :
  (client_call method path p log).2 = log ++ [c] ->
  c = {| call_method := method; call_path := path; call_payload := p |}.
Proof. unfold client_call. simpl. by intros [= <-]%app_inv_head. Qed.

Lemma nothing_sent {A : Type} (a : A) (log : list apiCall) (c : apiCall) :
  (ret a log).2 = log ++ [c] -> False.
Proof.
  unfold ret. simpl. intros H. apply (f_equal length) in H.
  rewrite length_app in H. simpl in H. lia.
Qed.

Lemma finish_log (h : M callResult) (log : list apiCall) :
  (bind h (fun r => ret (toolResult r)) log).2 = (h log).2.
Proof. unfold bind, ret. by destruct (h log). Qed.

(** What each handler may send: the keys of its payload. *)
Lemma handlers_send (args : gmap string value) (log : list apiCall) (c : apiCall)
      (payload : gmap string value) (k : string) :
  call_payload c = Some payload ->
  is_Some (payload !! k) ->
  ((callAkumaQuery args log).2 = log ++ [c] ->
   k ∈ ["dialect"; "prompt"; "mode"; "maxRows"; "guardrails"]%string) /\
  ((callAkumaExplain args log).2 = log ++ [c] -> k ∈ ["sql"%string]) /\
  ((callAkumaSchema args log).2 = log ++ [c] -> k ∈ ["tables"; "version"]%string) /\
  ((callEnzanSummary args log).2 = log ++ [c] -> k ∈ ["window"; "groupBy"]%string) /\
  ((callSozoGenerate args log).2 = log ++ [c] ->
   k ∈ ["records"; "schema"; "schemaName"; "correlations"; "seed"]%string).
Proof.
  intros Hpay Hk. repeat split.
  - destruct (isBlankString (stringArg args "dialect")) eqn:Ed.
    { unfold callAkumaQuery. rewrite Ed. by intros ?%nothing_sent. }
    destruct (isBlankString (stringArg args "prompt")) eqn:Ep.
    { unfold callAkumaQuery. rewrite Ed, Ep. by intros ?%nothing_sent. }
    destruct (callAkumaQuery_run args log Ed Ep) as (p & Hfw & ->).
    intros ->%client_call_sent. injection Hpay as ->. by eapply forwards_dom.
  - destruct (isBlankString (stringArg args "sql")) eqn:Es.
    { unfold callAkumaExplain. rewrite Es. by intros ?%nothing_sent. }
    destruct (callAkumaExplain_run args log Es) as (p & Hfw & ->).
    intros ->%client_call_sent. injection Hpay as ->. by eapply forwards_dom.
  - destruct (args !! "tables") as [tables|] eqn:Et.
    2:{ unfold callAkumaSchema. rewrite Et. by intros ?%nothing_sent. }
    destruct (callAkumaSchema_run args log) as (p & Hfw & ->); [by rewrite Et|].
    intros ->%client_call_sent. injection Hpay as ->. by eapply forwards_dom.
  - destruct (callEnzanSummary_run args log) as (p & _ & _ & Hother & ->).
    intros ->%client_call_sent. injection Hpay as ->.
    destruct (decide (k ∈ ["window"; "groupBy"]%string)) as [|Hn]; [done|].
    rewrite (Hother k Hn) in Hk. by destruct Hk.
  - destruct (args !! "records") as [records|] eqn:Er.
    2:{ unfold callSozoGenerate. rewrite Er. by intros ?%nothing_sent. }
    destruct (args !! "schema") as [sch|] eqn:Es.
    + destruct (callSozoGenerate_run args log) as (p & Hfw & ->);
        [by rewrite Er | left; by rewrite Es|].
      intros ->%client_call_sent. injection Hpay as ->. by eapply forwards_dom.
    + destruct (args !! "schemaName") as [nm|] eqn:En.
      * destruct (callSozoGenerate_run args log) as (p & Hfw & ->);
          [by rewrite Er | right; by rewrite En|].
        intros ->%client_call_sent. injection Hpay as ->. by eapply forwards_dom.
      * unfold callSozoGenerate. rewrite Er, Es, En. by intros ?%nothing_sent.
Qed.

Ltac declared_here :=
  eexists; split; [vm_compute; reflexivity | vm_compute; by eexists].

(** X26.  The backend is never sent an argument the catalogue does not
    declare: when a call of a tool of [toolDefinitions] reaches the
    backend with a payload, every key of the payload is one of the
    [properties] of the tool's schema.  (Arguments beyond them are not
    refused, for all that the schemas say [additionalProperties: false];
    they are left out.) *)
Theorem handleToolCall_sends_declared
        (t : toolDefinition) (raw : bytes) (params : toolsCallParams)
        (log : list apiCall) (c : apiCall) (payload : gmap string value) (k : string) :
  t ∈ toolDefinitions ->
  unmarshalToolsCallParams raw = inr params ->
  params_Name params = tool_Name t ->
  (handleToolCall raw log).2 = log ++ [c] ->
  call_payload c = Some payload ->
  is_Some (payload !! k) ->
  declared t k.
Proof.
  intros Ht Hdec Hname Hsent Hpay Hk.
  unfold handleToolCall in Hsent. rewrite Hdec, Hname in Hsent.
  destruct (handlers_send (params_Arguments params) log c payload k Hpay Hk)
    as (Hq & He & Hs & Hw & Hg).
  unfold toolDefinitions in Ht.
  repeat (apply elem_of_cons in Ht as [->|Ht]);
    [..|by apply elem_of_nil in Ht];
    cbn [tool_Name] in Hsent; simpl in Hsent;
    try (rewrite finish_log in Hsent).
  - apply Hq in Hsent.
    repeat (apply elem_of_cons in Hsent as [->|Hsent]; [declared_here|]).
    by apply elem_of_nil in Hsent.
  - apply He in Hsent.
    repeat (apply elem_of_cons in Hsent as [->|Hsent]; [declared_here|]).
    by apply elem_of_nil in Hsent.
  - apply Hs in Hsent.
    repeat (apply elem_of_cons in Hsent as [->|Hsent]; [declared_here|]).
    by apply elem_of_nil in Hsent.
  - apply Hw in Hsent.
    repeat (apply elem_of_cons in Hsent as [->|Hsent]; [declared_here|]).
    by apply elem_of_nil in Hsent.
  - apply client_call_sent in Hsent as ->. discriminate Hpay.
  - apply Hg in Hsent.
    repeat (apply elem_of_cons in Hsent as [->|Hsent]; [declared_here|]).
    by apply elem_of_nil in Hsent.
  - apply client_call_sent in Hsent as ->. discriminate Hpay.
Qed.

End HandlerFacts.

(** * The client *)

Section ClientFacts.

Context {net0 : Net}.

Lemma TrimRight_end (s cutset t : bytes) (z : ascii) :
  TrimRight s cutset = t ++ [z] -> z ∉ cutset.
Proof.
  revert t. induction s as [|c s IH]; intros t; simpl.
  - by destruct t.
  - destruct (TrimRight s cutset) as [|a r] eqn:E.
    + case_bool_decide as Hc; [by destruct t|].
      destruct t as [|b t]; [by intros [= <-]|].
      intros [= _ H]. by destruct t.
    + destruct t as [|b t]; [discriminate|].
      intros [= _ H]. by apply (IH t).
Qed.

Lemma B_string_of_list_ascii (l : bytes) : B (string_of_list_ascii l) = l.
Proof. apply list_ascii_of_string_of_list_ascii. Qed.

(** X27.  The base URL of a new client never ends in a slash, whatever
    KAIZEN_API_BASE_URL holds, so that the paths, which all start with
    one, can be appended to it; when the variable is not set, or holds
    nothing but white space, the base URL is http://localhost:8080. *)
Theorem newKaizenAPIClient_baseURL (getenv : string -> string) :
  (forall s, B (baseURL (newKaizenAPIClient getenv)) <> s ++ ["/"%char]) /\
  (isBlankString (getenv "KAIZEN_API_BASE_URL") = true ->
   baseURL (newKaizenAPIClient getenv) = "http://localhost:8080"%string).
Proof.
  split.
  - intros s. unfold newKaizenAPIClient. cbn [baseURL].
    rewrite B_string_of_list_ascii. intros H%TrimRight_end.
    apply H. change (B "/") with ["/"%char]. by left.
  - unfold isBlankString, newKaizenAPIClient, getEnv. cbn [baseURL].
    destruct (TrimSpace (B (getenv "KAIZEN_API_BASE_URL"))); [|discriminate].
    intros _. vm_compute. reflexivity.
Qed.

(** X28.  A call sends at most one request, and none when the API key
    is blank: it then fails with "KAIZEN_API_KEY is not set".  The
    request sent has the verb given and the URL made of the base URL and
    the path; it carries the key as it is, white space around it
    included, after "Bearer ", and the agent kaizen-mcp/1.0.0.  It has a
    body exactly when there is a payload, and says so in Content-Type
    unless the verb is GET. *)
Theorem call_request
        (c : kaizenAPIClient) (method path : string)
        (payload : option (gmap string value)) (sent : list httpRequest) :
  (isBlankString (apiKey c) = true ->
   call c method path payload sent = (inl "KAIZEN_API_KEY is not set"%string, sent)) /\
  ((call c method path payload sent).2 = sent \/
   exists req,
     (call c method path payload sent).2 = sent ++ [req] /\
     isBlankString (apiKey c) = false /\
     http_Method req = method /\
     http_URL req = (baseURL c ++ path)%string /\
     http_Header req !! "Authorization" = Some ("Bearer " ++ apiKey c)%string /\
     http_Header req !! "User-Agent" = Some "kaizen-mcp/1.0.0"%string /\
     http_Header req !! "Content-Type" =
       (if bool_decide (is_Some payload /\ method <> "GET"%string)
        then Some "application/json"%string else None) /\
     (is_Some (http_Body req) <-> is_Some payload)).
Proof.
  unfold call, requestBody. split; [by intros ->|].
  destruct (isBlankString (apiKey c)); [by left|].
  destruct payload as [p|].
  - destruct (marshalPayload p) as [e|raw]; [by left|].
    destruct (newRequestError _ _); [by left|].
    right. exists (newRequest c method path (Some p) (Some raw)).
    split; [by destruct (Do _ _)|].
    repeat split; try done; unfold newRequest; cbn [http_Header].
    + destruct (String.eqb_spec method "GET"); cbn [negb];
        [|rewrite lookup_insert_ne by done]; by rewrite lookup_insert_eq.
    + destruct (String.eqb_spec method "GET"); cbn [negb];
        [|rewrite lookup_insert_ne by done];
        rewrite lookup_insert_ne by done; by rewrite lookup_singleton_eq.
    + destruct (String.eqb_spec method "GET") as [->|Hne]; cbn [negb].
      * rewrite bool_decide_eq_false_2 by (by intros [_ ?]).
        rewrite lookup_insert_ne by done. by rewrite lookup_singleton_ne.
      * rewrite bool_decide_eq_true_2 by done. by rewrite lookup_insert_eq.
  - destruct (newRequestError _ _); [by left|].
    right. exists (newRequest c method path None None).
    split; [by destruct (Do _ _)|].
    repeat split; try done; by intros [? [=]].
Qed.

(** X29.  Data comes back from a call only when a request was sent, the
    status of the response is below 400, its body was read, and the
    body is empty, which counts as the empty object, or decodes.  A
    response with a status of 400 or more never yields data, and a body
    that does not decode is an error whatever the status. *)
Theorem call_returns_data
        (c : kaizenAPIClient) (method path : string)
        (payload : option (gmap string value)) (sent sent' : list httpRequest)
        (decoded : option (gmap string value)) :
  call c method path payload sent = (inr decoded, sent') ->
  exists req resp respBody,
    sent' = sent ++ [req] /\
    Do sent req = inr resp /\
    http_StatusCode resp < 400 /\
    http_ResponseBody resp = inr respBody /\
    match respBody with
    | [] => decoded = Some ∅
    | _ => unmarshalMap respBody = inr decoded
    end.
Proof.
  unfold call.
  destruct (isBlankString (apiKey c)); [discriminate|].
  destruct (requestBody payload) as [e|body]; [discriminate|].
  destruct (newRequestError _ _); [discriminate|].
  set (req := newRequest c method path payload body).
  destruct (Do sent req) as [e|resp] eqn:Edo; [discriminate|].
  unfold readResponse.
  destruct (http_ResponseBody resp) as [e|respBody] eqn:Ebody; [discriminate|].
  intros Hres. exists req, resp, respBody.
  destruct respBody as [|b respBody].
  - destruct (Z.leb_spec 400 (http_StatusCode resp)); [discriminate|].
    by injection Hres as <- <-.
  - destruct (unmarshalMap (b :: respBody)) as [e|m]; [discriminate|].
    destruct (Z.leb_spec 400 (http_StatusCode resp)); [discriminate|].
    by injection Hres as <- <-.
Qed.

(** X30.  A response with a status of 400 or more whose body is a JSON
    object with a string [error] that is not empty: the call fails with
    that string, followed by the status. *)
Theorem call_reports_server_error
        (c : kaizenAPIClient) (method path : string)
        (payload : option (gmap string value)) (body : option bytes)
        (sent : list httpRequest) (resp : httpResponse) (respBody : bytes)
        (m : gmap string value) (v : string) :
  isBlankString (apiKey c) = false ->
  requestBody payload = inr body ->
  newRequestError method (baseURL c ++ path) = None ->
  Do sent (newRequest c method path payload body) = inr resp ->
  400 <= http_StatusCode resp ->
  http_ResponseBody resp = inr respBody ->
  respBody <> [] ->
  unmarshalMap respBody = inr (Some m) ->
  m !! "error" = Some (VString v) ->
  v <> ""%string ->
  call c method path payload sent =
    (inl (v ++ " (status=" ++ string_of_list_ascii (Itoa (http_StatusCode resp)) ++ ")")%string,
     sent ++ [newRequest c method path payload body]).
Proof.
  intros Hkey Hmar Hnew Hdo Hstatus Hbody Hne Hdec Herr Hv.
  unfold call. rewrite Hkey, Hmar, Hnew, Hdo. unfold readResponse. rewrite Hbody.
  destruct respBody as [|b respBody]; [done|]. rewrite Hdec.
  destruct (Z.leb_spec 400 (http_StatusCode resp)); [|lia].
  cbn [mbind option_bind]. rewrite Herr.
  by destruct (String.eqb_spec v "").
Qed.

End ClientFacts.

(** * The reference codec reads what it writes *)

Section CodecFacts.

Import Reference.

Lemma scanString_escape (s acc rest : bytes) :
  Forall (fun c => plainChar c = true) s ->
  scanString (escape s ++ dquote :: rest) acc = Some (rev acc ++ s, rest).
Proof.
  intros Hs. revert acc.
  induction Hs as [|c s Hc _ IH]; intros acc.
  - simpl. by rewrite app_nil_r.
  - each_byte c Hc; simpl; rewrite IH; simpl; by rewrite <- app_assoc.
Qed.

Lemma valueStart_visible (c : ascii) :
  valueStart c = true ->
  isSpace c = false /\ c <> "]"%char /\ c <> "}"%char /\ c <> ","%char.
Proof. intros H. each_byte c H; by repeat split. Qed.

Lemma skipSpace_start (c : ascii) (t : bytes) :
  valueStart c = true -> skipSpace (c :: t) = c :: t.
Proof. intros H. simpl. by destruct (valueStart_visible c H) as [-> _]. Qed.

Lemma skipSpace_delimiter (rest : bytes) :
  delimited rest -> skipSpace rest = rest.
Proof.
  destruct rest as [|c r]; [done|]. simpl.
  by intros [-> | [-> | ->]].
Qed.

Lemma parses_null : parses (B "null") VNil.
Proof.
  split; [by eexists _, _|].
  intros [|fuel] rest Hf _; [simpl in Hf; lia|]. reflexivity.
Qed.

Lemma parses_bool (b : bool) : parses (B (if b then "true" else "false")) (VBool b).
Proof.
  split; [destruct b; by eexists _, _|].
  intros [|fuel] rest Hf _; [simpl in Hf; lia|]. by destruct b.
Qed.

Lemma parses_string (s : string) : plainText s -> parses (quote s) (VString s).
Proof.
  intros Hs. split; [by eexists _, _|].
  intros [|fuel] rest Hf _; [simpl in Hf; lia|].
  unfold quote. simpl. rewrite <- app_assoc. simpl.
  rewrite scanString_escape by exact Hs. simpl.
  unfold B. by rewrite string_of_list_ascii_of_string.
Qed.

(** *** Numerals *)

Lemma isDigit_digitChar (d : Z) : 0 <= d < 10 -> isDigit (digitChar d) = true.
Proof.
  intros Hd. assert (H : d ∈ seqZ 0 10) by (apply elem_of_seqZ; lia).
  vm_compute in H. clear Hd.
  repeat (apply elem_of_cons in H as [->|H]; [reflexivity|]).
  by apply elem_of_nil in H.
Qed.

Lemma digitsOf_digits (fuel : nat) (n : Z) (acc : bytes) :
  0 <= n ->
  Forall (fun c => isDigit c = true) acc ->
  Forall (fun c => isDigit c = true) (digitsOf fuel n acc).
Proof.
  revert n acc. induction fuel as [|fuel IH]; intros n acc Hn Hacc; simpl; [exact Hacc|].
  assert (Hd : isDigit (digitChar (n mod 10)) = true)
    by (apply isDigit_digitChar, Z.mod_pos_bound; lia).
  destruct (n <? 10); [by constructor|].
  apply IH; [apply Z.div_pos; lia | by constructor].
Qed.

Lemma digitsOf_nonempty (fuel : nat) (n : Z) : digitsOf (S fuel) n [] <> [].
Proof.
  simpl. destruct (n <? 10); [done|].
  rewrite digitsOf_app. by destruct (digitsOf fuel _ []).
Qed.

Lemma isDigit_digitVal (c : ascii) : isDigit c = true -> is_Some (digitVal c).
Proof. intros H. each_byte c H; by eexists. Qed.

Lemma scanDigits_digits (ds rest : bytes) (acc : Z) (seen : bool) :
  Forall (fun c => isDigit c = true) ds ->
  ds <> [] \/ seen = true ->
  delimited rest ->
  scanDigits (ds ++ rest) acc seen
  = (fun v => (v, rest)) <$> parseDigits acc ds.
Proof.
  intros Hds. revert acc seen.
  induction Hds as [|c ds Hc _ IH]; intros acc seen Hseen Hrest.
  - destruct Hseen as [?| ->]; [done|]. simpl.
    destruct rest as [|c r]; [done|].
    destruct Hrest as [-> | [-> | ->]]; reflexivity.
  - simpl. destruct (isDigit_digitVal c Hc) as [d ->].
    apply IH; [by right|done].
Qed.

Lemma scanNumber_minus (s : bytes) :
  scanNumber ("-"%char :: s)
  = (fun p : Z * bytes => (- p.1, p.2)) <$> scanDigits s 0 false.
Proof. reflexivity. Qed.

Lemma scanNumber_Itoa (z : Z) (rest : bytes) :
  delimited rest -> scanNumber (Itoa z ++ rest) = Some (z, rest).
Proof.
  intros Hrest. unfold Itoa.
  assert (Hbody : forall n, 0 <= n ->
            scanDigits (digitsOf (S (Z.to_nat (Z.log2 n))) n [] ++ rest) 0 false
            = Some (n, rest)).
  { intros n Hn. rewrite scanDigits_digits;
      [|apply digitsOf_digits; [lia|constructor]|left; apply digitsOf_nonempty|done].
    rewrite parseDigits_digitsOf; [done|]. split; [lia|by apply log2_fuel]. }
  destruct (Z.ltb_spec z 0) as [Hneg|Hpos].
  - rewrite <- app_comm_cons, scanNumber_minus, Hbody by lia.
    simpl. f_equal. f_equal. lia.
  - specialize (Hbody z Hpos).
    pose proof (digitsOf_digits (S (Z.to_nat (Z.log2 z))) z [] Hpos ltac:(constructor)) as Hd.
    pose proof (digitsOf_nonempty (Z.to_nat (Z.log2 z)) z) as Hne.
    destruct (digitsOf _ z []) as [|c t]; [done|].
    apply Forall_cons in Hd as [Hc _].
    simpl app in *. unfold scanNumber.
    replace (Ascii.eqb c "-") with false by (each_byte c Hc; reflexivity).
    exact Hbody.
Qed.

Lemma Itoa_start (z : Z) : exists c t, Itoa z = c :: t /\ (isDigit c = true \/ c = "-"%char).
Proof.
  unfold Itoa. destruct (z <? 0) eqn:E.
  - eexists _, _. split; [reflexivity|by right].
  - apply Z.ltb_ge in E.
    pose proof (digitsOf_digits (S (Z.to_nat (Z.log2 z))) z [] E ltac:(constructor)) as Hd.
    pose proof (digitsOf_nonempty (Z.to_nat (Z.log2 z)) z) as Hne.
    destruct (digitsOf _ z []) as [|c t]; [done|].
    apply Forall_cons in Hd as [Hc _]. eexists _, _. split; [reflexivity|by left].
Qed.

Lemma parseValue_number (fuel : nat) (c : ascii) (r : bytes) :
  isDigit c = true \/ c = "-"%char ->
  parseValue (S fuel) (c :: r)
  = (fun p : Z * bytes => (VNumber (floatOfZ p.1), p.2)) <$> scanNumber (c :: r).
Proof. intros [H| ->]; [each_byte c H|]; reflexivity. Qed.

Lemma parses_number (z : Z) : parses (Itoa z) (VNumber (floatOfZ z)).
Proof.
  destruct (Itoa_start z) as (c & t & Hz & Hc).
  split.
  { exists c, t. split; [exact Hz|].
    destruct Hc as [Hc| ->]; [each_byte c Hc|]; reflexivity. }
  intros [|fuel] rest Hf Hrest; [lia|].
  pose proof (scanNumber_Itoa z rest Hrest) as Hscan.
  rewrite Hz in *. simpl app in *.
  rewrite parseValue_number by exact Hc. by rewrite Hscan.
Qed.

(** *** Arrays *)

Lemma parses_nonempty (e : bytes) (v : value) : parses e v -> (0 < length e)%nat.
Proof. intros [(c & t & -> & _) _]. simpl. lia. Qed.

Lemma joinComma_cons (e : bytes) (es : list bytes) :
  es <> [] -> joinComma (e :: es) = e ++ ","%char :: joinComma es.
Proof. by destruct es. Qed.

Lemma parseElements_S (fuel : nat) (s : bytes) (acc : list value) :
  parseElements (S fuel) s acc =
  match parseValue fuel s with
  | Some (v, r) =>
      match skipSpace r with
      | c :: r' =>
          if Ascii.eqb c "," then parseElements fuel r' (acc ++ [v])
          else if Ascii.eqb c "]" then Some (VSlice (acc ++ [v]), r')
          else None
      | [] => None
      end
  | None => None
  end.
Proof. reflexivity. Qed.

Lemma parseElements_items (es : list bytes) (vs : list value) :
  Forall2 parses es vs ->
  forall (acc : list value) (rest : bytes) (fuel : nat),
    es <> [] ->
    (length (joinComma es) + 1 < fuel)%nat ->
    parseElements fuel (joinComma es ++ "]"%char :: rest) acc
    = Some (VSlice (acc ++ vs), rest).
Proof.
  induction 1 as [|e v es vs He Hes IH]; intros acc rest fuel Hne Hfuel; [done|].
  destruct fuel as [|fuel]; [lia|].
  pose proof (parses_nonempty e v He) as Hlen.
  destruct (decide (es = [])) as [->|Hes'].
  - apply Forall2_nil_inv_l in Hes as ->. simpl joinComma in *.
    rewrite parseElements_S.
    rewrite (proj2 He) by (lia || (right; by left)). simpl.
    reflexivity.
  - rewrite joinComma_cons in * by done.
    rewrite length_app in Hfuel. simpl length in Hfuel.
    rewrite <- app_assoc, <- app_comm_cons.
    rewrite parseElements_S.
    rewrite (proj2 He) by (lia || by left). simpl.
    rewrite IH by (done || lia). by rewrite <- app_assoc.
Qed.

Lemma parseValue_array (fuel : nat) (r : bytes) :
  parseValue (S fuel) ("["%char :: r) =
  match skipSpace r with
  | c' :: r' =>
      if Ascii.eqb c' "]" then Some (VSlice [], r')
      else parseElements fuel r []
  | [] => None
  end.
Proof. reflexivity. Qed.

Lemma joinComma_start (c : ascii) (t : bytes) (es : list bytes) :
  exists t', joinComma ((c :: t) :: es) = c :: t'.
Proof. destruct es; by eexists. Qed.

Lemma parses_array (es : list bytes) (vs : list value) :
  Forall2 parses es vs ->
  parses ("["%char :: joinComma es ++ ["]"%char]) (VSlice vs).
Proof.
  intros H. split; [by eexists _, _|].
  intros [|fuel] rest Hf _; [simpl in Hf; lia|].
  rewrite <- app_comm_cons, <- app_assoc. simpl app at 2.
  rewrite parseValue_array.
  destruct H as [|e v es vs He Hes]; [reflexivity|].
  destruct (proj1 He) as (c & t & -> & Hc).
  destruct (joinComma_start c t es) as [t' Ht'].
  assert (Hall : Forall2 parses ((c :: t) :: es) (v :: vs)) by (by constructor).
  pose proof (parseElements_items _ _ Hall [] rest fuel) as Hp.
  rewrite Ht' in *. rewrite <- app_comm_cons.
  rewrite skipSpace_start by exact Hc.
  destruct (valueStart_visible c Hc) as (_ & Hb & _).
  destruct (Ascii.eqb_spec c "]"); [done|].
  rewrite app_comm_cons. apply Hp; [done|].
  simpl in Hf. rewrite length_app in Hf. simpl in *. lia.
Qed.

(** *** Objects *)

Lemma parseMembers_S (fuel : nat) (s : bytes) (acc : gmap string value) :
  parseMembers (S fuel) s acc =
  match skipSpace s with
  | q :: r =>
      if Ascii.eqb q dquote then
        match scanString r [] with
        | Some (k, r1) =>
            match skipSpace r1 with
            | c :: r2 =>
                if Ascii.eqb c ":" then
                  match parseValue fuel r2 with
                  | Some (v, r3) =>
                      let acc' := <[string_of_list_ascii k := v]> acc in
                      match skipSpace r3 with
                      | c' :: r4 =>
                          if Ascii.eqb c' "," then parseMembers fuel r4 acc'
                          else if Ascii.eqb c' "}" then Some (VMap acc', r4)
                          else None
                      | [] => None
                      end
                  | None => None
                  end
                else None
            | [] => None
            end
        | None => None
        end
      else None
  | [] => None
  end.
Proof. reflexivity. Qed.

Lemma parseMembers_entry (fuel : nat) (m : entry) (tail : bytes)
      (acc : gmap string value) :
  readable m ->
  (length (entry_text m) < fuel)%nat ->
  delimited tail ->
  parseMembers (S fuel) (entryBytes m ++ tail) acc =
  let acc' := <[entry_key m := entry_value m]> acc in
  match tail with
  | c' :: r4 =>
      if Ascii.eqb c' "," then parseMembers fuel r4 acc'
      else if Ascii.eqb c' "}" then Some (VMap acc', r4)
      else None
  | [] => None
  end.
Proof.
  intros [Hname Hval] Hfuel Htail.
  rewrite parseMembers_S. unfold entryBytes.
  rewrite <- app_comm_cons. cbn [skipSpace isSpace].
  change (isSpace dquote) with false. cbv iota.
  change (Ascii.eqb dquote dquote) with true. cbv iota.
  rewrite <- app_assoc, <- app_comm_cons. rewrite Hname.
  rewrite <- app_comm_cons.
  change (skipSpace (":"%char :: ?x)) with (":"%char :: x).
  change (Ascii.eqb ":" ":") with true. cbv iota.
  rewrite (proj2 Hval) by done.
  rewrite skipSpace_delimiter by done.
  unfold B. by rewrite string_of_list_ascii_of_string.
Qed.

Lemma entryBytes_length (m : entry) :
  (length (entry_text m) + 3 <= length (entryBytes m))%nat.
Proof. unfold entryBytes. simpl. rewrite length_app. simpl. lia. Qed.

Lemma parseMembers_entries (ms : list entry) :
  Forall readable ms ->
  forall (acc : gmap string value) (rest : bytes) (fuel : nat),
    ms <> [] ->
    (length (joinComma (map entryBytes ms)) < fuel)%nat ->
    parseMembers fuel (joinComma (map entryBytes ms) ++ "}"%char :: rest) acc
    = Some (VMap (entriesMap ms acc), rest).
Proof.
  induction 1 as [|m ms Hm Hms IH]; intros acc rest fuel Hne Hfuel; [done|].
  destruct fuel as [|fuel]; [lia|].
  pose proof (entryBytes_length m) as Hlen.
  destruct (decide (ms = [])) as [->|Hms'].
  - simpl map in *. simpl joinComma in *.
    rewrite parseMembers_entry by (done || lia || (right; by right)).
    reflexivity.
  - simpl map in *.
    rewrite joinComma_cons in * by (by destruct ms).
    rewrite length_app in Hfuel. cbn [length] in Hfuel.
    rewrite <- app_assoc, <- app_comm_cons.
    rewrite parseMembers_entry by (done || lia || by left).
    cbv zeta. simpl Ascii.eqb. cbv iota.
    rewrite IH by (done || lia). reflexivity.
Qed.

Lemma parseValue_object (fuel : nat) (r : bytes) :
  parseValue (S fuel) ("{"%char :: r) =
  match skipSpace r with
  | c' :: r' =>
      if Ascii.eqb c' "}" then Some (VMap ∅, r')
      else parseMembers fuel r ∅
  | [] => None
  end.
Proof. reflexivity. Qed.

Lemma joinComma_entries_start (m : entry) (ms : list entry) :
  exists t, joinComma (map entryBytes (m :: ms)) = dquote :: t.
Proof. destruct ms; by eexists. Qed.

Lemma parses_object (ms : list entry) :
  Forall readable ms ->
  parses (object (map entryBytes ms)) (VMap (entriesMap ms ∅)).
Proof.
  intros H. split; [by eexists _, _|].
  intros [|fuel] rest Hf _; [simpl in Hf; lia|].
  unfold object in *. rewrite <- app_comm_cons, <- app_assoc. simpl app at 2.
  rewrite parseValue_object.
  destruct ms as [|m ms]; [reflexivity|].
  pose proof (parseMembers_entries (m :: ms) H ∅ rest fuel) as Hp.
  destruct (joinComma_entries_start m ms) as [t Ht].
  rewrite Ht in *. rewrite <- app_comm_cons.
  change (skipSpace (dquote :: ?x)) with (dquote :: x).
  change (Ascii.eqb dquote "}") with false. cbv iota.
  rewrite app_comm_cons. apply Hp; [done|].
  simpl in Hf. rewrite length_app in Hf. simpl in *. lia.
Qed.

(** *** The text of a value, and the members of an object *)

Lemma decodeValue_parses (e : bytes) (v : value) : parses e v -> decodeValue e = Some v.
Proof.
  intros [_ H]. unfold decodeValue.
  specialize (H (S (length e)) [] ltac:(lia) I).
  rewrite app_nil_r in H. by rewrite H.
Qed.

Lemma rawValue_parses (e rest : bytes) (v : value) :
  parses e v -> delimited rest -> rawValue (e ++ rest) = Some (e, rest).
Proof.
  intros [(c & t & -> & Hc) H] Hrest. unfold rawValue.
  rewrite <- app_comm_cons, skipSpace_start by exact Hc. cbv zeta.
  rewrite app_comm_cons.
  rewrite H by (rewrite ?length_app; simpl; lia || done).
  rewrite length_app, Nat.add_sub, take_app_length. reflexivity.
Qed.

Lemma rawMembers_S (fuel : nat) (s : bytes) (acc : list (string * bytes)) :
  rawMembers (S fuel) s acc =
  match skipSpace s with
  | q :: r =>
      if Ascii.eqb q dquote then
        match scanString r [] with
        | Some (k, r1) =>
            match skipSpace r1 with
            | c :: r2 =>
                if Ascii.eqb c ":" then
                  match rawValue r2 with
                  | Some (raw, r3) =>
                      let acc' := acc ++ [(string_of_list_ascii k, raw)] in
                      match skipSpace r3 with
                      | c' :: r4 =>
                          if Ascii.eqb c' "," then rawMembers fuel r4 acc'
                          else if Ascii.eqb c' "}" then Some (acc', r4)
                          else None
                      | [] => None
                      end
                  | None => None
                  end
                else None
            | [] => None
            end
        | None => None
        end
      else None
  | [] => None
  end.
Proof. reflexivity. Qed.

Lemma rawMembers_entry (fuel : nat) (m : entry) (tail : bytes)
      (acc : list (string * bytes)) :
  readable m ->
  delimited tail ->
  rawMembers (S fuel) (entryBytes m ++ tail) acc =
  let acc' := acc ++ [(entry_key m, entry_text m)] in
  match tail with
  | c' :: r4 =>
      if Ascii.eqb c' "," then rawMembers fuel r4 acc'
      else if Ascii.eqb c' "}" then Some (acc', r4)
      else None
  | [] => None
  end.
Proof.
  intros [Hname Hval] Htail.
  rewrite rawMembers_S. unfold entryBytes.
  rewrite <- app_comm_cons. cbn [skipSpace isSpace].
  change (isSpace dquote) with false. cbv iota.
  change (Ascii.eqb dquote dquote) with true. cbv iota.
  rewrite <- app_assoc, <- app_comm_cons. rewrite Hname.
  rewrite <- app_comm_cons.
  change (skipSpace (":"%char :: ?x)) with (":"%char :: x).
  change (Ascii.eqb ":" ":") with true. cbv iota.
  rewrite (rawValue_parses _ _ _ Hval) by done.
  rewrite skipSpace_delimiter by done.
  unfold B. by rewrite string_of_list_ascii_of_string.
Qed.

Lemma rawMembers_entries (ms : list entry) :
  Forall readable ms ->
  forall (acc : list (string * bytes)) (rest : bytes) (fuel : nat),
    ms <> [] ->
    (length ms <= fuel)%nat ->
    rawMembers fuel (joinComma (map entryBytes ms) ++ "}"%char :: rest) acc
    = Some (acc ++ entriesRaw ms, rest).
Proof.
  induction 1 as [|m ms Hm Hms IH]; intros acc rest fuel Hne Hfuel; [done|].
  destruct fuel as [|fuel]; [simpl in Hfuel; lia|].
  destruct (decide (ms = [])) as [->|Hms'].
  - simpl map. simpl joinComma.
    rewrite rawMembers_entry by (done || (right; by right)).
    reflexivity.
  - simpl map.
    rewrite joinComma_cons by (by destruct ms).
    rewrite <- app_assoc, <- app_comm_cons.
    rewrite rawMembers_entry by (done || by left).
    cbv zeta. simpl Ascii.eqb. cbv iota.
    rewrite IH by (done || simpl in Hfuel; lia).
    by rewrite <- app_assoc.
Qed.

Lemma joinComma_entries_length (ms : list entry) :
  (length ms <= length (joinComma (map entryBytes ms)))%nat.
Proof.
  induction ms as [|m ms IH]; [done|].
  pose proof (entryBytes_length m).
  destruct (decide (ms = [])) as [->|Hne]; simpl map.
  - simpl joinComma. simpl length at 1. lia.
  - rewrite joinComma_cons by (by destruct ms).
    rewrite length_app. cbn [length]. lia.
Qed.

Lemma rawObject_entries (ms : list entry) :
  Forall readable ms -> rawObject (object (map entryBytes ms)) = Some (entriesRaw ms).
Proof.
  intros H. unfold rawObject, object.
  change (skipSpace ("{"%char :: ?x)) with ("{"%char :: x).
  change (Ascii.eqb "{" "{") with true. cbv iota.
  destruct ms as [|m ms]; [reflexivity|].
  pose proof (rawMembers_entries (m :: ms) H [] []) as Hp.
  pose proof (joinComma_entries_length (m :: ms)) as Hlen.
  destruct (joinComma_entries_start m ms) as [t Ht].
  rewrite Ht in *. rewrite <- app_comm_cons.
  change (skipSpace (dquote :: ?x)) with (dquote :: x).
  change (Ascii.eqb dquote "}") with false. cbv iota.
  rewrite app_comm_cons, Hp; [reflexivity|done|].
  rewrite length_app. simpl in *. lia.
Qed.

(** *** The names of members *)

Lemma spells_escape (k : string) : plainText k -> spells (escape (B k)) k.
Proof. intros Hk rest. by rewrite scanString_escape. Qed.

(** *** What the encoder writes is read back *)

Lemma collect_Ok {A : Type} (l : list (result A)) (items : list A) :
  collect l = Ok items -> Forall2 (fun r a => r = Ok a) l items.
Proof.
  revert items. induction l as [|r l IH]; intros items; simpl.
  - intros [= <-]. constructor.
  - destruct r as [a|e]; simpl; [|discriminate].
    destruct (collect l) as [t|e]; simpl; [|discriminate].
    intros [= <-]. constructor; [done|by apply IH].
Qed.

Lemma joinComma_item_length (items : list bytes) (i : bytes) :
  i ∈ items -> (length i <= length (joinComma items))%nat.
Proof.
  induction items as [|a items IH]; [by intros ?%elem_of_nil|].
  destruct (decide (items = [])) as [->|Hne].
  - intros ->%list_elem_of_singleton. done.
  - rewrite joinComma_cons by done. rewrite length_app. cbn [length].
    intros [->|Hin]%elem_of_cons; [lia|]. specialize (IH Hin). lia.
Qed.

Lemma enclose_fold (d : nat) (items : list bytes) :
  Forall (fun i => i <> []) items ->
  fold_right (fun item acc =>
                match acc with
                | [] => item
                | _ => item ++ ","%char :: nl false d ++ acc
                end) [] items
  = joinComma items.
Proof.
  induction 1 as [|a l Ha Hl IH]; [reflexivity|].
  cbn [fold_right]. rewrite IH.
  destruct l as [|b l]; [reflexivity|].
  rewrite (joinComma_cons a (b :: l)) by done.
  destruct (joinComma (b :: l)) eqn:E; [|reflexivity].
  apply Forall_cons in Hl as [Hb _].
  pose proof (joinComma_item_length (b :: l) b ltac:(by left)) as Hlen.
  rewrite E in Hlen. destruct b; [done|simpl in Hlen; lia].
Qed.

Lemma enclose_joinComma (o c : ascii) (d : nat) (items : list bytes) :
  Forall (fun i => i <> []) items ->
  enclose false o c d items = o :: joinComma items ++ [c].
Proof.
  intros H. unfold enclose. destruct items as [|i items]; [reflexivity|].
  rewrite enclose_fold by exact H. reflexivity.
Qed.

Lemma plainValue_slice (l : list value) :
  plainValue (VSlice l) -> Forall plainValue l.
Proof.
  simpl. induction l as [|v l IH]; simpl; [constructor|].
  intros [Hv Hl]. constructor; [done|by apply IH].
Qed.

Lemma plainValue_map (m : gmap string value) (k : string) (v : value) :
  plainValue (VMap m) -> m !! k = Some v -> plainText k /\ plainValue v.
Proof.
  simpl. intros H Hk. apply (H k (plainValue v)).
  by rewrite lookup_fmap, Hk.
Qed.

Lemma elem_of_insertSorted {A : Type} (x y : string * A) (l : list (string * A)) :
  y ∈ insertSorted x l <-> y = x \/ y ∈ l.
Proof.
  induction l as [|z l IH]; simpl.
  - rewrite list_elem_of_singleton, elem_of_nil. tauto.
  - destruct (String.leb x.1 z.1).
    + by rewrite elem_of_cons.
    + rewrite !elem_of_cons, IH. tauto.
Qed.

Lemma elem_of_sortedMembers {A : Type} (m : gmap string A) (k : string) (a : A) :
  (k, a) ∈ sortedMembers m <-> m !! k = Some a.
Proof.
  unfold sortedMembers. rewrite <- elem_of_map_to_list.
  induction (map_to_list m) as [|x l IH]; simpl; [done|].
  rewrite elem_of_insertSorted, elem_of_cons, IH. tauto.
Qed.

Lemma entriesMap_lookup (ms : list entry) (acc m : gmap string value) :
  (forall e, e ∈ ms -> m !! entry_key e = Some (entry_value e)) ->
  (forall k, (entriesMap ms acc) !! k =
             if bool_decide (k ∈ map entry_key ms) then m !! k else acc !! k).
Proof.
  unfold entriesMap. revert acc.
  induction ms as [|e ms IH]; intros acc Hm k; simpl.
  - reflexivity.
  - rewrite IH by (intros e' He'; apply Hm; by right).
    destruct (decide (k ∈ map entry_key ms)) as [Hin|Hnot].
    + rewrite !bool_decide_eq_true_2; [done|by right|done].
    + rewrite (bool_decide_eq_false_2 _ Hnot).
      destruct (decide (k = entry_key e)) as [->|Hne].
      * rewrite lookup_insert_eq, bool_decide_eq_true_2 by by left.
        symmetry. apply Hm. by left.
      * rewrite lookup_insert_ne by done.
        rewrite bool_decide_eq_false_2; [done|].
        rewrite not_elem_of_cons. by split.
Qed.

Lemma encode_nonempty (d : nat) (v : value) (e : bytes) :
  encode false d v = Ok e -> e <> [].
Proof.
  destruct v as [|b|x|s|l|m]; cbn [encode].
  - by intros [= <-].
  - intros [= <-]. by destruct b.
  - destruct (floatToZ x) as [z|]; [|discriminate]. intros [= <-].
    by destruct (Itoa_start z) as (c & t & -> & _).
  - by intros [= <-].
  - destruct (collect _) as [items|]; simpl; [|discriminate].
    intros [= <-]. by destruct items.
  - destruct (collect _) as [items|]; simpl; [|discriminate].
    intros [= <-]. by destruct items.
Qed.

Lemma entryBytes_quote (k : string) (b : bytes) :
  quote k ++ colon false ++ b
  = entryBytes {| entry_name := escape (B k); entry_key := k;
                  entry_text := b; entry_value := VNil |}.
Proof. unfold quote, entryBytes. simpl. by rewrite <- app_assoc. Qed.

Lemma encode_parses (n : nat) :
  forall (v : value) (d : nat) (e : bytes),
    (length e < n)%nat -> plainValue v -> encode false d v = Ok e -> parses e v.
Proof.
  induction n as [|n IH]; intros v d e Hlen Hv Henc; [lia|].
  destruct v as [|b|x|s|l|m]; cbn [encode] in Henc.
  - injection Henc as <-. apply parses_null.
  - injection Henc as <-. apply parses_bool.
  - destruct Hv as (z & _ & Hz & Hx). rewrite Hz in Henc.
    injection Henc as <-. rewrite <- Hx. apply parses_number.
  - injection Henc as <-. by apply parses_string.
  - destruct (collect _) as [items|] eqn:Ec; simpl in Henc; [|discriminate].
    injection Henc as <-.
    apply collect_Ok, Forall2_fmap_l in Ec.
    assert (Hne : Forall (fun i => i <> []) items).
    { clear -Ec. induction Ec as [|v i l items Hi _ IH]; constructor; [|done].
      by apply (encode_nonempty (S d) v). }
    rewrite enclose_joinComma in * by exact Hne.
    apply parses_array.
    assert (Hshort : forall i, i ∈ items -> (length i < n)%nat).
    { intros i Hi%joinComma_item_length.
      simpl in Hlen. rewrite length_app in Hlen. simpl in Hlen. lia. }
    apply plainValue_slice in Hv.
    clear Hlen Hne. induction Ec as [|v i l items Hi _ IHl]; [constructor|].
    apply Forall_cons in Hv as [Hv Hl].
    constructor.
    + apply (IH v (S d)); [apply Hshort; by left|done..].
    + apply IHl; [done|]. intros j Hj. apply Hshort. by right.
  - destruct (collect _) as [items|] eqn:Ec; simpl in Henc; [|discriminate].
    injection Henc as <-.
    apply collect_Ok, Forall2_fmap_l in Ec.
    set (S := sortedMembers (encode false (Datatypes.S d) <$> m)) in *.
    assert (Hne : Forall (fun i => i <> []) items).
    { clear -Ec. induction Ec as [|kv i l items Hi _ IH]; constructor; [|done].
      simpl in Hi. destruct kv.2; simpl in Hi; [|discriminate].
      injection Hi as <-. unfold quote. done. }
    rewrite enclose_joinComma in * by exact Hne.
    assert (Hshort : forall i, i ∈ items -> (length i < n)%nat).
    { intros i Hi%joinComma_item_length.
      simpl in Hlen. rewrite length_app in Hlen. simpl in Hlen. lia. }
    assert (Hin : forall kv, kv ∈ S ->
              exists v, m !! kv.1 = Some v /\ kv.2 = encode false (Datatypes.S d) v).
    { intros [k r] Hkr%elem_of_sortedMembers.
      rewrite lookup_fmap in Hkr. simpl.
      destruct (m !! k) as [v|]; [|discriminate].
      injection Hkr as <-. by exists v. }
    assert (Hms : exists ms,
              map entryBytes ms = items /\ Forall readable ms /\
              (forall x, x ∈ ms -> m !! entry_key x = Some (entry_value x)) /\
              map entry_key ms = map fst S).
    { clear Hlen Hne.
      induction Ec as [|kv i l items Hi _ IHl].
      { exists []. split; [done|]. split; [constructor|].
        split; [|done]. by intros x ?%elem_of_nil. }
      destruct IHl as (ms & Hitems & Hread & Hlook & Hkeys).
      { intros j Hj. apply Hshort. by right. }
      { intros kv' Hkv'. apply Hin. by right. }
      destruct (Hin kv ltac:(by left)) as (v & Hv' & Henc).
      simpl in Hi. rewrite Henc in Hi.
      destruct (encode false (Datatypes.S d) v) as [b|] eqn:Eb; simpl in Hi; [|discriminate].
      injection Hi as <-.
      destruct (plainValue_map m kv.1 v Hv Hv') as [Hk Hpv].
      exists ({| entry_name := escape (B kv.1); entry_key := kv.1;
                 entry_text := b; entry_value := v |} :: ms).
      repeat split.
      - simpl map. rewrite Hitems. f_equal.
        unfold entryBytes. simpl. by rewrite <- app_assoc.
      - constructor; [|done]. split; simpl.
        + by apply spells_escape.
        + apply (IH v (Datatypes.S d)); [|done..].
          specialize (Hshort _ ltac:(by left)).
          unfold quote in Hshort. simpl in Hshort.
          rewrite !length_app in Hshort. simpl in Hshort. lia.
      - intros x [->|Hx]%elem_of_cons; [done|by apply Hlook].
      - simpl. by rewrite Hkeys. }
    destruct Hms as (ms & <- & Hread & Hlook & Hkeys).
    replace m with (entriesMap ms ∅); [by apply parses_object|].
    apply map_eq. intros k.
    rewrite (entriesMap_lookup ms ∅ m Hlook). rewrite Hkeys.
    case_bool_decide as Hk; [done|].
    rewrite lookup_empty. symmetry. apply eq_None_not_Some. intros [v Hv'].
    apply Hk. change (k ∈ fst <$> S). apply list_elem_of_fmap.
    exists (k, encode false (Datatypes.S d) v). split; [done|].
    apply elem_of_sortedMembers. by rewrite lookup_fmap, Hv'.
Qed.

(** *** The members of a response *)

Lemma Atoi_Itoa_int (n : Z) : minInt <= n <= maxInt -> Atoi (Itoa n) = Some n.
Proof.
  intros Hn. destruct (Z.ltb_spec n 0) as [Hneg|Hpos]; [|apply Atoi_Itoa; lia].
  unfold Itoa. destruct (Z.ltb_spec n 0); [|lia].
  unfold Atoi. change (Ascii.eqb "-" "-") with true. cbv iota.
  pose proof (digitsOf_nonempty (Z.to_nat (Z.log2 (- n))) (- n)) as Hne.
  rewrite parseDigits_digitsOf by (split; [lia|apply log2_fuel; lia]).
  destruct (digitsOf _ _ _); [done|].
  rewrite Z.opp_involutive.
  replace (minInt <=? n) with true by (symmetry; apply Z.leb_le; lia).
  replace (n <=? maxInt) with true by (symmetry; apply Z.leb_le; lia).
  reflexivity.
Qed.

Ltac known_name :=
  match goal with
  | |- spells (B ?name) ?name =>
      apply (spells_escape name); unfold plainText; simpl; repeat constructor
  end.

Lemma fields_entries (fs : list (string * bytes)) :
  Forall fieldReadable fs ->
  exists ms, Forall readable ms /\
             map entryBytes ms = map (fun f => member f.1 f.2) fs /\
             entriesRaw ms = fs.
Proof.
  induction 1 as [|[name text] fs [Hname [v Hv]] _ (ms & Hms & Hbytes & Hraw)].
  - by exists [].
  - exists ({| entry_name := B name; entry_key := name;
               entry_text := text; entry_value := v |} :: ms).
    split; [by constructor|]. split; simpl.
    + by rewrite Hbytes.
    + by rewrite Hraw.
Qed.

Lemma rawObject_renderObject (fs : list (string * bytes)) :
  Forall fieldReadable fs -> rawObject (renderObject fs) = Some fs.
Proof.
  intros (ms & Hms & Hbytes & Hraw)%fields_entries.
  unfold renderObject. rewrite <- Hbytes, <- Hraw. by apply rawObject_entries.
Qed.

Lemma parses_renderObject (fs : list (string * bytes)) :
  Forall fieldReadable fs -> exists v, parses (renderObject fs) v.
Proof.
  intros (ms & Hms & Hbytes & Hraw)%fields_entries.
  unfold renderObject. rewrite <- Hbytes. eexists. by apply parses_object.
Qed.

Lemma encodeValue_parses (v : value) (b : bytes) :
  plainValue v -> encodeValue v = Ok b -> parses b v.
Proof. intros Hv Hb. by apply (encode_parses (S (length b)) v 0); [lia|..]. Qed.

Lemma optional_readable (name : string) (o : option value) (fs : list (string * bytes)) :
  spells (B name) name ->
  (forall v, o = Some v -> plainValue v) ->
  optional name o = Ok fs ->
  Forall fieldReadable fs /\
  match o with
  | None => fs = []
  | Some v => exists b, fs = [(name, b)] /\ decodeValue b = Some v
  end.
Proof.
  intros Hname Ho. destruct o as [v|]; simpl.
  - destruct (encodeValue v) as [b|] eqn:Eb; simpl; [|discriminate].
    intros [= <-]. pose proof (encodeValue_parses v b (Ho v eq_refl) Eb) as Hp.
    split.
    + constructor; [|constructor]. split; [exact Hname|by exists v].
    + exists b. split; [done|]. by apply decodeValue_parses.
  - intros [= <-]. by split.
Qed.

Lemma decodeWireError_errorFields (we : wireError) (fs : list (string * bytes)) :
  minInt <= w_code we <= maxInt ->
  plainText (w_message we) ->
  (forall v, w_data we = Some v -> plainValue v) ->
  errorFields we = Ok fs ->
  Forall fieldReadable fs /\ decodeWireError (renderObject fs) = Some we.
Proof.
  intros Hcode Hmsg Hdata. unfold errorFields. simpl.
  destruct (optional "data" (w_data we)) as [data|] eqn:Ed; simpl; [|discriminate].
  intros [= <-].
  apply optional_readable in Ed as [Hfs Hd]; [|known_name|exact Hdata].
  pose proof (decodeValue_parses _ _ (parses_string _ Hmsg)) as Hm.
  assert (Hall : Forall fieldReadable
                   (("code"%string, Itoa (w_code we))
                      :: ("message"%string, quote (w_message we)) :: data)).
  { constructor; [|constructor; [|exact Hfs]].
    - split; [known_name|]. eexists. apply parses_number.
    - split; [known_name|]. eexists. by apply parses_string. }
  cbn [app].
  split; [exact Hall|].
  unfold decodeWireError. rewrite (rawObject_renderObject _ Hall).
  destruct we as [c msg [v|]]; simpl in *.
  - destruct Hd as (b & -> & Hb).
    unfold valueMember, stringField, rawMember. simpl.
    rewrite Hm, Hb. simpl. by rewrite Atoi_Itoa_int.
  - subst data. unfold valueMember, stringField, rawMember. simpl.
    rewrite Hm. by rewrite Atoi_Itoa_int.
Qed.

Lemma omitempty_plain (v w : value) : plainValue v -> omitempty v = Some w -> plainValue w.
Proof. intros Hv. by destruct v; intros [= <-]. Qed.

Lemma decodeWire_renderResponse (w : wireResponse) (payload : bytes) :
  plainText (w_jsonrpc w) ->
  (forall v, w_id w = Some v -> plainValue v) ->
  (forall v, w_result w = Some v -> plainValue v) ->
  (forall we, w_error w = Some we ->
     minInt <= w_code we <= maxInt /\ plainText (w_message we) /\
     forall v, w_data we = Some v -> plainValue v) ->
  renderResponse w = Ok payload ->
  decodeWire payload = Some w.
Proof.
  intros Hver Hid Hres Herr. unfold renderResponse, responseFields. simpl.
  destruct (optional "id" (w_id w)) as [id|] eqn:Ei; simpl; [|discriminate].
  destruct (optional "result" (w_result w)) as [res|] eqn:Er; simpl; [|discriminate].
  apply optional_readable in Ei as [Hfi Hi]; [|known_name|exact Hid].
  apply optional_readable in Er as [Hfr Hr]; [|known_name|exact Hres].
  pose proof (decodeValue_parses _ _ (parses_string _ Hver)) as Hv.
  assert (Hjson : fieldReadable ("jsonrpc"%string, quote (w_jsonrpc w))).
  { split; [known_name|]. eexists. by apply parses_string. }
  destruct w as [ver wid wres [we|]]; simpl in *.
  - destruct (errorFields we) as [fs|] eqn:Ee; simpl; [|discriminate].
    intros [= <-].
    destruct (Herr we eq_refl) as (Hcode & Hmsg & Hdata).
    destruct (decodeWireError_errorFields we fs Hcode Hmsg Hdata Ee) as [Hfs Hdec].
    destruct (parses_renderObject fs Hfs) as [ve Hve].
    assert (Hall : Forall fieldReadable
              (("jsonrpc"%string, quote ver)
                 :: id ++ res ++ [("error"%string, renderObject fs)])).
    { constructor; [exact Hjson|]. apply Forall_app. split; [exact Hfi|].
      apply Forall_app. split; [exact Hfr|].
      constructor; [|constructor]. split; [known_name|by exists ve]. }
    unfold decodeWire. rewrite (rawObject_renderObject _ Hall).
    destruct wid as [vi|], wres as [vr|];
      repeat match goal with
             | H : exists b, _ = [_] /\ _ |- _ => destruct H as (? & -> & ?)
             | H : _ = [] |- _ => rewrite H
             end;
      unfold valueMember, stringField, rawMember; simpl;
      repeat match goal with
             | H : decodeValue _ = Some _ |- _ => rewrite H
             end; simpl; by rewrite Hdec.
  - intros [= <-].
    assert (Hall : Forall fieldReadable
              (("jsonrpc"%string, quote ver) :: id ++ res ++ [])).
    { constructor; [exact Hjson|]. apply Forall_app. split; [exact Hfi|].
      apply Forall_app. split; [exact Hfr|constructor]. }
    unfold decodeWire. rewrite (rawObject_renderObject _ Hall).
    destruct wid as [vi|], wres as [vr|];
      repeat match goal with
             | H : exists b, _ = [_] /\ _ |- _ => destruct H as (? & -> & ?)
             | H : _ = [] |- _ => rewrite H
             end;
      unfold valueMember, stringField, rawMember; simpl;
      repeat match goal with
             | H : decodeValue _ = Some _ |- _ => rewrite H
             end; reflexivity.
Qed.

Lemma unmarshalResponse_Marshal (response : jsonRPCResponse) (payload : bytes) :
  plainResponse response ->
  Marshal response = Ok payload ->
  unmarshalResponse payload = Some response.
Proof.
  intros (Hver & Hid & Hres & Herr) Henc.
  unfold unmarshalResponse. simpl.
  rewrite (decodeWire_renderResponse (responseWire response) payload); simpl.
  - by rewrite responseOfWire_responseWire.
  - exact Hver.
  - intros v. by apply omitempty_plain.
  - intros v. by apply omitempty_plain.
  - intros we. destruct (resp_Error response) as [e|]; [|discriminate].
    intros [= <-]. destruct Herr as (Hcode & Hmsg & Hdata). simpl.
    split; [exact Hcode|]. split; [exact Hmsg|].
    intros v. by apply omitempty_plain.
  - exact Henc.
Qed.

Section RoundTrip.

Context {rt0 : Runtime}.


End RoundTrip.

Section RoundTripExamples.



End RoundTripExamples.

End CodecFacts.

(** * The further theorems at concrete messages *)

Section MoreInstances.

Import Reference Canned.

(** A membership settled by deciding it. *)
Ltac decide_yes := apply (proj1 (bool_decide_eq_true _)); vm_compute; reflexivity.

Lemma readMessage_moves_forward_witness :
  let input := frame (B "{}") ++ B "xyz" in
  readMessage input = (Ok (B "{}"), B "xyz") /\
  ((exists used, input = used ++ B "xyz") /\
   (forall payload, Ok (B "{}") = Ok payload ->
      payload <> [] /\ (length (B "xyz") < length input)%nat)).
Proof.
  intros input.
  assert (H : readMessage input = (Ok (B "{}"), B "xyz")) by reflexivity.
  exact (conj H (readMessage_moves_forward input _ _ H)).
Defined.

(** A header block that breaks off in its second line. *)
Lemma Serve_ends_inside_headers_witness :
  let h := (B "Content-Length: 5", eolCRLF) in
  let tail := B "X-Trace: ab" in
  (opensHeaderBlock (wireLine h) /\
   Forall (fun h : bytes * eol => headerText h.1) [h] /\
   (LF ∉ tail)) /\
  (readMessage (concat (map wireLine [h]) ++ tail) = (Err io_EOF, []) /\
   serveLoop 1 (concat (map wireLine [h]) ++ tail) [] [] [] =
     {| returned := None; crashed := false; written := []; calls := []; answered := [] |}).
Proof.
  intros h tail.
  assert (H1 : opensHeaderBlock (wireLine h)).
  { split; vm_compute; [discriminate|reflexivity]. }
  assert (H2 : Forall (fun h : bytes * eol => headerText h.1) [h]).
  { constructor; [|constructor]. apply inline_headerText; [discriminate|].
    by repeat constructor. }
  assert (H3 : LF ∉ tail) by decide_not.
  split; [exact (conj H1 (conj H2 H3))|].
  exact (Serve_ends_inside_headers h [] tail 0 [] [] [] H1 H2 H3).
Defined.

(** Two bytes of a payload of five. *)
Lemma Serve_truncated_payload_witness :
  let h := (B "Content-Length: 5", eolCRLF) in
  let rest := B "{}" in
  (opensHeaderBlock (wireLine h) /\
   Forall (fun h : bytes * eol => headerText h.1) [h] /\
   parseContentLength (map fst [h]) = Ok 5 /\
   allocates 5 = true /\
   (length rest < Z.to_nat 5)%nat) /\
  serveLoop 1 (headerBlock [h] eolCRLF ++ rest) [] [] [] =
    {| returned :=
         match rest with
         | [] => None
         | _ => Some (errWrap "failed to read message"
                        (errWrap "failed to read payload" io_ErrUnexpectedEOF))
         end;
       crashed := false; written := []; calls := []; answered := [] |}.
Proof.
  intros h rest.
  assert (H1 : opensHeaderBlock (wireLine h)).
  { split; vm_compute; [discriminate|reflexivity]. }
  assert (H2 : Forall (fun h : bytes * eol => headerText h.1) [h]).
  { constructor; [|constructor]. apply inline_headerText; [discriminate|].
    by repeat constructor. }
  assert (H3 : parseContentLength (map fst [h]) = Ok 5) by reflexivity.
  assert (Ha : allocates 5 = true) by reflexivity.
  assert (H4 : (length rest < Z.to_nat 5)%nat) by (vm_compute; lia).
  split; [exact (conj H1 (conj H2 (conj H3 (conj Ha H4))))|].
  exact (Serve_truncated_payload h [] eolCRLF 5 rest 0 [] [] [] H1 H2 H3 Ha H4).
Defined.

(** The largest length that [parseContentLength] accepts, which no
    runtime allocates. *)
Lemma Serve_stops_at_make_witness :
  let h := (B "Content-Length: 9223372036854775807", eolCRLF) in
  (opensHeaderBlock (wireLine h) /\
   Forall (fun h : bytes * eol => headerText h.1) [h] /\
   parseContentLength (map fst [h]) = Ok maxInt /\
   allocates maxInt = false) /\
  (readMessage (headerBlock [h] eolCRLF ++ B "{}") = (Err runtimeFailure, B "{}") /\
   serveLoop 1 (headerBlock [h] eolCRLF ++ B "{}") [] [] [] =
     {| returned := None; crashed := true;
        written := []; calls := []; answered := [] |}).
Proof.
  intros h.
  assert (H1 : opensHeaderBlock (wireLine h)).
  { split; vm_compute; [discriminate|reflexivity]. }
  assert (H2 : Forall (fun h : bytes * eol => headerText h.1) [h]).
  { constructor; [|constructor]. apply inline_headerText; [discriminate|].
    by repeat constructor. }
  assert (H3 : parseContentLength (map fst [h]) = Ok maxInt) by reflexivity.
  assert (H4 : allocates maxInt = false) by reflexivity.
  split; [exact (conj H1 (conj H2 (conj H3 H4)))|].
  exact (Serve_stops_at_make h [] eolCRLF maxInt (B "{}") 0 [] [] [] H1 H2 H3 H4).
Defined.

Lemma Serve_blank_line_is_fatal_witness :
  let sp := [" "%char; CR] in
  (Forall (fun c => isBlank c = true) sp /\ (LF ∉ sp)) /\
  (serveLoop 1 (sp ++ LF :: B "{}") [] [] [] =
     {| returned := Some (errWrap "failed to read message" errEmptyMessage);
        crashed := false; written := []; calls := []; answered := [] |} /\
   serveLoop 1 sp [] [] [] =
     {| returned := None; crashed := false; written := []; calls := []; answered := [] |}).
Proof.
  intros sp.
  assert (H1 : Forall (fun c => isBlank c = true) sp) by (by repeat constructor).
  assert (H2 : LF ∉ sp) by decide_not.
  split; [exact (conj H1 H2)|].
  exact (Serve_blank_line_is_fatal sp (B "{}") 0 [] [] [] H1 H2).
Defined.

Lemma Serve_drops_unterminated_text_witness :
  let tail := B "Content-Len" in
  ((LF ∉ tail) /\ HasPrefix (TrimSpace tail) (B "{") = false) /\
  serveLoop 1 tail [] [] [] =
    {| returned := None; crashed := false; written := []; calls := []; answered := [] |}.
Proof.
  intros tail.
  assert (H1 : LF ∉ tail) by decide_not.
  assert (H2 : HasPrefix (TrimSpace tail) (B "{") = false) by reflexivity.
  split; [exact (conj H1 H2)|].
  exact (Serve_drops_unterminated_text tail 0 [] [] [] H1 H2).
Defined.

(** A notification method, sent with an identifier. *)
Lemma Serve_skips_silently_witness :
  let payload := json "{'jsonrpc':'2.0','id':7,'method':'initialized'}" in
  (readMessage (payload ++ [LF]) = (Ok payload, []) /\
   match unmarshalRequest payload with
   | None => True
   | Some req => req_Method req ∈ ["notifications/initialized"; "initialized"]%string
   end) /\
  serveLoop 1 (payload ++ [LF]) [] [] [] = serveLoop 0 [] [] [] [].
Proof.
  intros payload.
  assert (H1 : readMessage (payload ++ [LF]) = (Ok payload, [])) by compute_hyp.
  assert (H0 : unmarshalRequest payload
               = Some {| req_JSONRPC := "2.0"; req_ID := B "7";
                         req_Method := "initialized"; req_Params := [] |})
    by compute_hyp.
  assert (H2 : match unmarshalRequest payload with
               | None => True
               | Some req =>
                   req_Method req ∈ ["notifications/initialized"; "initialized"]%string
               end).
  { rewrite H0. cbn [req_Method]. by repeat constructor. }
  split; [exact (conj H1 H2)|].
  exact (Serve_skips_silently 0 (payload ++ [LF]) [] [] [] payload [] H1 H2).
Defined.

Lemma handleRequest_unknown_method_witness :
  let req := {| req_JSONRPC := "2.0"; req_ID := B "7";
                req_Method := "resources/list"; req_Params := [] |} in
  ((req_Method req ∉ ["initialize"; "ping"; "tools/list"; "tools/call";
                      "notifications/initialized"; "initialized"]%string) /\
   req_ID req <> []) /\
  handleRequest req [] =
    (Reply {| resp_JSONRPC := "2.0";
              resp_ID := match unmarshalValue (req_ID req) with
                         | Some v => v
                         | None => VString (string_of_list_ascii (req_ID req))
                         end;
              resp_Result := VNil;
              resp_Error := Some {| err_Code := -32601;
                                    err_Message := "method not found";
                                    err_Data := VString (req_Method req) |} |},
     []).
Proof.
  intros req.
  assert (H1 : req_Method req ∉ ["initialize"; "ping"; "tools/list"; "tools/call";
                                 "notifications/initialized"; "initialized"]%string)
    by decide_not.
  assert (H2 : req_ID req <> []) by discriminate.
  split; [exact (conj H1 H2)|].
  exact (handleRequest_unknown_method req [] H1 H2).
Defined.

(** Two pings that differ in everything but the method. *)
Lemma dispatch_protocol_methods_witness :
  let req := {| req_JSONRPC := "2.0"; req_ID := B "1";
                req_Method := "ping"; req_Params := B "{}" |} in
  let req' := {| req_JSONRPC := ""; req_ID := [];
                 req_Method := "ping"; req_Params := B "[1,2]" |} in
  let log' := [{| call_method := "GET"; call_path := "/v1/enzan/burn";
                  call_payload := None |}] in
  (req_Method req ∈ ["initialize"; "ping"; "tools/list"]%string /\
   req_Method req' = req_Method req) /\
  (dispatch req [] = ((dispatch req' log').1, []) /\
   (dispatch req []).1.2 = None).
Proof.
  intros req req' log'.
  assert (H1 : req_Method req ∈ ["initialize"; "ping"; "tools/list"]%string)
    by (by repeat constructor).
  assert (H2 : req_Method req' = req_Method req) by reflexivity.
  split; [exact (conj H1 H2)|].
  exact (dispatch_protocol_methods req req' [] log' H1 H2).
Defined.

Lemma handleRequest_response_witness :
  let req := {| req_JSONRPC := "2.0"; req_ID := B "1";
                req_Method := "ping"; req_Params := [] |} in
  let resp := {| resp_JSONRPC := "2.0"; resp_ID := VNumber 1%float;
                 resp_Result := VMap ∅; resp_Error := None |} in
  handleRequest req [] = (Reply resp, []) /\
  (resp_JSONRPC resp = "2.0"%string /\
   resp_ID resp = match unmarshalValue (req_ID req) with
                  | Some v => v
                  | None => VString (string_of_list_ascii (req_ID req))
                  end /\
   dispatch req [] = ((resp_Result resp, resp_Error resp), [])).
Proof.
  intros req resp.
  assert (H : handleRequest req [] = (Reply resp, [])) by compute_hyp.
  exact (conj H (handleRequest_response req [] [] resp H)).
Defined.

Lemma Serve_error_kinds_witness :
  let input := B "Content-Length: nope" ++ [CR; LF; CR; LF] in
  let e := errWrap "failed to read message" (errInvalidContentLength (B "nope")) in
  returned (Serve input) = Some e /\
  ((exists e' input' rest,
      e = errWrap "failed to read message" e' /\
      readMessage input' = (Err e', rest) /\ errors_Is_EOF e' = false) \/
   (exists e' resp,
      e = errWrap "failed to write response" e' /\ Marshal resp = Err e')).
Proof.
  intros input e.
  assert (H : returned (Serve input) = Some e) by compute_hyp.
  exact (conj H (Serve_error_kinds input e H)).
Defined.

(** A query with an argument the handler does not know. *)
Lemma callAkumaQuery_forwards_witness :
  let args : gmap string value :=
    {[ "dialect" := VString "postgres"; "prompt" := VString "top customers";
       "limit" := VNumber 5%float ]} in
  (isBlankString (stringArg args "dialect") = false /\
   isBlankString (stringArg args "prompt") = false) /\
  exists payload,
    forwards ["dialect"; "prompt"; "mode"; "maxRows"; "guardrails"]%string args payload /\
    let c := {| call_method := "POST"; call_path := "/v1/akuma/query";
                call_payload := Some payload |} in
    callAkumaQuery args [] = (backend [] c, [] ++ [c]).
Proof.
  intros args.
  assert (H1 : isBlankString (stringArg args "dialect") = false) by compute_hyp.
  assert (H2 : isBlankString (stringArg args "prompt") = false) by compute_hyp.
  split; [exact (conj H1 H2)|].
  exact (callAkumaQuery_forwards args [] H1 H2).
Defined.

Lemma callSozoGenerate_forwards_witness :
  let args : gmap string value :=
    {[ "records" := VNumber 10%float; "schemaName" := VString "users" ]} in
  (is_Some (args !! "records") /\
   (is_Some (args !! "schema") \/ is_Some (args !! "schemaName"))) /\
  exists payload,
    forwards ["records"; "schema"; "schemaName"; "correlations"; "seed"]%string
             args payload /\
    let c := {| call_method := "POST"; call_path := "/v1/sozo/generate";
                call_payload := Some payload |} in
    callSozoGenerate args [] = (backend [] c, [] ++ [c]).
Proof.
  intros args.
  assert (H1 : is_Some (args !! "records")) by (vm_compute; by eexists).
  assert (H2 : is_Some (args !! "schema") \/ is_Some (args !! "schemaName"))
    by (right; vm_compute; by eexists).
  split; [exact (conj H1 H2)|].
  exact (callSozoGenerate_forwards args [] H1 H2).
Defined.

(** The burn rate, asked with an argument. *)
Lemma handleToolCall_argument_free_witness :
  let raw := json "{'name':'enzan.burn','arguments':{'window':'7d'}}" in
  let params := {| params_Name := "enzan.burn";
                   params_Arguments := {[ "window" := VString "7d" ]} |} in
  (unmarshalToolsCallParams raw = inr params /\
   (params_Name params, "/v1/enzan/burn"%string)
     ∈ [("enzan.burn", "/v1/enzan/burn"); ("sozo.schemas", "/v1/sozo/schemas")]%string) /\
  let c := {| call_method := "GET"; call_path := "/v1/enzan/burn";
              call_payload := None |} in
  handleToolCall raw [] = (toolResult (backend [] c), [] ++ [c]).
Proof.
  intros raw params.
  assert (H1 : unmarshalToolsCallParams raw = inr params) by compute_hyp.
  assert (H2 : (params_Name params, "/v1/enzan/burn"%string)
                 ∈ [("enzan.burn", "/v1/enzan/burn");
                    ("sozo.schemas", "/v1/sozo/schemas")]%string)
    by (by repeat constructor).
  split; [exact (conj H1 H2)|].
  exact (handleToolCall_argument_free raw params _ [] H1 H2).
Defined.

Lemma blank_string_argument_rejected_witness :
  let args : gmap string value := {[ "dialect" := VString "postgres" ]} in
  let sp := String " " (String "009" EmptyString) in
  Forall (fun c => isBlank c = true) (B sp) /\
  (callAkumaExplain (<["sql" := VString sp]> args) []
     = (CallErr "sql is required", []) /\
   callAkumaQuery (<["dialect" := VString sp]> args) []
     = (CallErr "dialect is required", []) /\
   (isBlankString (stringArg args "dialect") = false ->
    callAkumaQuery (<["prompt" := VString sp]> args) []
      = (CallErr "prompt is required", []))).
Proof.
  intros args sp.
  assert (H : Forall (fun c => isBlank c = true) (B sp)) by (by repeat constructor).
  exact (conj H (blank_string_argument_rejected args sp [] H)).
Defined.

(** [akuma.query] of the catalogue, called without its prompt. *)
Lemma required_arguments_enforced_witness :
  let none := {| tool_Name := ""; tool_Description := ""; tool_InputSchema := ∅ |} in
  let t := List.hd none toolDefinitions in
  let params := {| params_Name := "akuma.query";
                   params_Arguments := {[ "dialect" := VString "postgres" ]} |} in
  (t ∈ toolDefinitions /\
   "prompt"%string ∈ requiredOf t /\
   unmarshalToolsCallParams queryWithoutPrompt = inr params /\
   params_Name params = tool_Name t /\
   params_Arguments params !! "prompt" = None) /\
  exists msg, handleToolCall queryWithoutPrompt [] = ((toolFailure msg, None), []).
Proof.
  intros none t params.
  assert (H1 : t ∈ toolDefinitions) by (by repeat constructor).
  assert (H2 : "prompt"%string ∈ requiredOf t) by decide_yes.
  assert (H3 : unmarshalToolsCallParams queryWithoutPrompt = inr params)
    by compute_hyp.
  assert (H4 : params_Name params = tool_Name t) by reflexivity.
  assert (H5 : params_Arguments params !! "prompt" = None) by reflexivity.
  split; [exact (conj H1 (conj H2 (conj H3 (conj H4 H5))))|].
  exact (required_arguments_enforced t "prompt" queryWithoutPrompt params []
           H1 H2 H3 H4 H5).
Defined.

(** [enzan.summary] with a window and an argument it does not know. *)
Lemma handleToolCall_sends_declared_witness :
  let none := {| tool_Name := ""; tool_Description := ""; tool_InputSchema := ∅ |} in
  let t := List.nth 3 toolDefinitions none in
  let raw := json "{'name':'enzan.summary','arguments':{'window':'7d','team':'ml'}}" in
  let params := {| params_Name := "enzan.summary";
                   params_Arguments := {[ "window" := VString "7d";
                                          "team" := VString "ml" ]} |} in
  let payload : gmap string value := {[ "window" := VString "7d" ]} in
  let c := {| call_method := "POST"; call_path := "/v1/enzan/summary";
              call_payload := Some payload |} in
  (t ∈ toolDefinitions /\
   unmarshalToolsCallParams raw = inr params /\
   params_Name params = tool_Name t /\
   (handleToolCall raw []).2 = [] ++ [c] /\
   call_payload c = Some payload /\
   is_Some (payload !! "window")) /\
  declared t "window".
Proof.
  intros none t raw params payload c.
  assert (H1 : t ∈ toolDefinitions) by (by repeat constructor).
  assert (H2 : unmarshalToolsCallParams raw = inr params) by compute_hyp.
  assert (H3 : params_Name params = tool_Name t) by reflexivity.
  assert (H4 : (handleToolCall raw []).2 = [] ++ [c]) by compute_hyp.
  assert (H5 : call_payload c = Some payload) by reflexivity.
  assert (H6 : is_Some (payload !! "window")) by (vm_compute; by eexists).
  split; [exact (conj H1 (conj H2 (conj H3 (conj H4 (conj H5 H6)))))|].
  exact (handleToolCall_sends_declared t raw params [] c payload "window"
           H1 H2 H3 H4 H5 H6).
Defined.

(** The client of a process that has its key, asking the burn rate. *)
Lemma call_returns_data_witness :
  let getenv := fun k : string =>
    if String.eqb k "KAIZEN_API_KEY" then "secret"%string else ""%string in
  let c := newKaizenAPIClient getenv in
  let req := newRequest c "GET" "/v1/enzan/burn" None None in
  let decoded : option (gmap string value) :=
    Some {[ "usdPerHour" := VNumber 12%float ]} in
  call c "GET" "/v1/enzan/burn" None [] = (inr decoded, [req]) /\
  exists req' resp respBody,
    [req] = [] ++ [req'] /\
    Do [] req' = inr resp /\
    http_StatusCode resp < 400 /\
    http_ResponseBody resp = inr respBody /\
    match respBody with
    | [] => decoded = Some ∅
    | _ => unmarshalMap respBody = inr decoded
    end.
Proof.
  intros getenv c req decoded.
  assert (H : call c "GET" "/v1/enzan/burn" None [] = (inr decoded, [req]))
    by compute_hyp.
  exact (conj H (call_returns_data c "GET" "/v1/enzan/burn" None [] [req] decoded H)).
Defined.

(** The same client on a route the server does not have. *)
Lemma call_reports_server_error_witness :
  let getenv := fun k : string =>
    if String.eqb k "KAIZEN_API_KEY" then "secret"%string else ""%string in
  let c := newKaizenAPIClient getenv in
  let req := newRequest c "GET" "/v1/sozo/schemas" None None in
  let resp := {| http_StatusCode := 404;
                 http_ResponseBody := inr (json "{'error':'no such route'}") |} in
  let m : gmap string value := {[ "error" := VString "no such route" ]} in
  (isBlankString (apiKey c) = false /\
   requestBody None = inr None /\
   newRequestError "GET" (baseURL c ++ "/v1/sozo/schemas") = None /\
   Do [] req = inr resp /\
   400 <= http_StatusCode resp /\
   http_ResponseBody resp = inr (json "{'error':'no such route'}") /\
   json "{'error':'no such route'}" <> [] /\
   unmarshalMap (json "{'error':'no such route'}") = inr (Some m) /\
   m !! "error" = Some (VString "no such route") /\
   "no such route"%string <> ""%string) /\
  call c "GET" "/v1/sozo/schemas" None [] =
    (inl ("no such route" ++ " (status="
            ++ string_of_list_ascii (Itoa (http_StatusCode resp)) ++ ")")%string,
     [] ++ [req]).
Proof.
  intros getenv c req resp m.
  assert (H1 : isBlankString (apiKey c) = false) by compute_hyp.
  assert (H2 : requestBody None = inr None) by reflexivity.
  assert (H3 : newRequestError "GET" (baseURL c ++ "/v1/sozo/schemas") = None)
    by reflexivity.
  assert (H4 : Do [] req = inr resp) by compute_hyp.
  assert (H5 : 400 <= http_StatusCode resp) by (vm_compute; discriminate).
  assert (H6 : http_ResponseBody resp = inr (json "{'error':'no such route'}"))
    by reflexivity.
  assert (H7 : json "{'error':'no such route'}" <> []) by (vm_compute; discriminate).
  assert (H8 : unmarshalMap (json "{'error':'no such route'}") = inr (Some m))
    by compute_hyp.
  assert (H9 : m !! "error" = Some (VString "no such route")) by reflexivity.
  assert (H10 : "no such route"%string <> ""%string) by discriminate.
  split; [exact (conj H1 (conj H2 (conj H3 (conj H4 (conj H5 (conj H6
            (conj H7 (conj H8 (conj H9 H10)))))))))|].
  exact (call_reports_server_error c "GET" "/v1/sozo/schemas" None None []
           resp _ m _ H1 H2 H3 H4 H5 H6 H7 H8 H9 H10).
Defined.

End MoreInstances.
